(** * The orchestrator: workflow engine, state store and git service

    A shallow embedding of the TypeScript sources

    - [src/services/state.ts]   ([StateManager]),
    - [src/services/claude.ts]  ([ClaudeService]: git work, staging merges,
      the agent wrapper [runClaudeSDK]),
    - the second [WorkflowEngine] of [src/config.ts] (the handlers
      [handleNewTask], [handlePlanFeedback], [handleImplementation],
      [handleTestFeedback], [waitForStagingWorkflow], [handleMerge] and the
      plan-posted scan of [reconcile]),

    followed by the properties established about them.

    Conventions of the embedding.
    - JavaScript strings are [string]s in UTF-8.  The positions the
      sources compute ([substring(7)] after an ASCII keyword, the first 40
      characters of an ASCII slug) are the same in bytes and in UTF-16
      code units.
    - Timestamps ([new Date()], [Date.now()], ISO strings stored in the
      table) are integers, milliseconds on one clock.
    - [cost_usd] is a rational number; additions are exact.
    - Everything outside the process (issue tracker, code host, git, agent)
      answers through an oracle [Env] indexed by the number of the
      interaction, so every sequence of answers and failures is covered.
    - A computation is a function from [World] to an outcome and a [World];
      the outcome is a value, a thrown [Error], or [Diverge] when a loop
      of the model has not ended within its fuel or an [await] never
      resumes. *)

From Stdlib Require Import ZArith QArith Qround Lqa String Ascii List Lia Bool.
From stdpp Require Import base option list gmap strings pretty.

Open Scope Z_scope.
Open Scope string_scope.

(** ** JavaScript string operations used by the sources *)
Module JsString.

Definition lowerChar (c : ascii) : ascii :=
  let n := nat_of_ascii c in
  if ((65 <=? n) && (n <=? 90))%nat then ascii_of_nat (n + 32) else c.

Definition bytes2 (c d : ascii) (x y : nat) : bool :=
  ((nat_of_ascii c =? x) && (nat_of_ascii d =? y))%nat.

Definition bytes3 (c d e : ascii) (x y z : nat) : bool :=
  ((nat_of_ascii c =? x) && (nat_of_ascii d =? y) && (nat_of_ascii e =? z))%nat.

(** [s.toLowerCase()]: the ASCII capitals, and the two other characters
    whose lower case holds an ASCII letter, U+212A KELVIN SIGN (lower case
    "k") and U+0130 (lower case "i" followed by U+0307).  Every other
    character keeps its bytes: its lower case is outside ASCII as well,
    and the sources compare lower-cased text with ASCII text only. *)
Fixpoint toLowerCase (s : string) : string :=
  match s with
  | EmptyString => EmptyString
  | String c r =>
      match r with
      | String d r2 =>
          if bytes2 c d 196 176
          then String "i" (String "204" (String "135" (toLowerCase r2)))
          else
            match r2 with
            | String e r3 =>
                if bytes3 c d e 226 132 170 then String "k" (toLowerCase r3)
                else String (lowerChar c) (toLowerCase r)
            | EmptyString => String (lowerChar c) (toLowerCase r)
            end
      | EmptyString => String (lowerChar c) EmptyString
      end
  end.

Fixpoint startsWith (s p : string) : bool :=
  match p, s with
  | EmptyString, _ => true
  | String _ _, EmptyString => false
  | String a p', String b s' => if Ascii.eqb a b then startsWith s' p' else false
  end.

(** [s.substring(n)] *)
Fixpoint substring (n : nat) (s : string) : string :=
  match n, s with
  | O, _ => s
  | S _, EmptyString => EmptyString
  | S m, String _ r => substring m r
  end.

(** [s.substring(0, n)] *)
Fixpoint take (n : nat) (s : string) : string :=
  match n, s with
  | O, _ => EmptyString
  | S _, EmptyString => EmptyString
  | S m, String c r => String c (take m r)
  end.

(** truthiness of a string: [if (s)] *)
Definition truthy (s : string) : bool :=
  match s with EmptyString => false | _ => true end.

(** The white space of ECMAScript ([WhiteSpace] and [LineTerminator]), as
    [trim] and [\s] take it, in UTF-8: one byte for U+0009 to U+000D and
    U+0020; two for U+00A0; three for U+1680, U+2000 to U+200A, U+2028,
    U+2029, U+202F, U+205F, U+3000 and U+FEFF. *)
Definition isSpace (c : ascii) : bool :=
  let n := nat_of_ascii c in
  (((9 <=? n) && (n <=? 13)) || (n =? 32))%nat.

Definition isSpace2 (c d : ascii) : bool := bytes2 c d 194 160.

Definition isSpace3 (c d e : ascii) : bool :=
  let z := nat_of_ascii e in
  bytes3 c d e 225 154 128
  || (bytes2 c d 226 128
      && (((128 <=? z) && (z <=? 138)) || (z =? 168) || (z =? 169)
          || (z =? 175))%nat)
  || bytes3 c d e 226 129 159
  || bytes3 c d e 227 128 128
  || bytes3 c d e 239 187 191.

Fixpoint trimStart (s : string) : string :=
  match s with
  | EmptyString => EmptyString
  | String c r =>
      if isSpace c then trimStart r
      else
        match r with
        | String d r2 =>
            if isSpace2 c d then trimStart r2
            else
              match r2 with
              | String e r3 => if isSpace3 c d e then trimStart r3 else s
              | EmptyString => s
              end
        | EmptyString => s
        end
  end.

(** [s.trimEnd()]: the text up to the point from which only white space
    follows. *)
Fixpoint trimEnd (s : string) : string :=
  match s with
  | EmptyString => EmptyString
  | String c r =>
      if truthy (trimStart s) then String c (trimEnd r) else EmptyString
  end.

Definition trim (s : string) : string := trimEnd (trimStart s).

(** [s || null] *)
Definition orNull (s : string) : option string :=
  if truthy s then Some s else None.

(** [o ?? d] *)
Definition nullish {A} (o : option A) (d : A) : A :=
  match o with Some a => a | None => d end.

Definition isSlugChar (c : ascii) : bool :=
  let n := nat_of_ascii c in
  (((97 <=? n) && (n <=? 122)) || ((48 <=? n) && (n <=? 57)))%nat.

(** [s.replace(/[^a-z0-9]+/g, '-')]; [inRun] tells that the previous
    character already belonged to the run being replaced. *)
Fixpoint collapse (inRun : bool) (s : string) : string :=
  match s with
  | EmptyString => EmptyString
  | String c r =>
      if isSlugChar c then String c (collapse false r)
      else if inRun then collapse true r
      else String "-" (collapse true r)
  end.

Definition dropLeadingDash (s : string) : string :=
  match s with
  | String "-" r => r
  | _ => s
  end.

Fixpoint dropTrailingDash (s : string) : string :=
  match s with
  | EmptyString => EmptyString
  | String c EmptyString => if Ascii.eqb c "-" then EmptyString else s
  | String c r => String c (dropTrailingDash r)
  end.

(** [s.replace(/\//g, '-')] *)
Fixpoint slashesToDashes (s : string) : string :=
  match s with
  | EmptyString => EmptyString
  | String c r =>
      String (if Ascii.eqb c "/" then "-"%char else c) (slashesToDashes r)
  end.

End JsString.

(** ** Rows of the task table

    The columns are those of [SCHEMA] in [src/services/state.ts].  The
    interface [TaskRow] of [src/types.ts] names two more properties,
    [worktree_path] and [creator_account_id], that the table does not
    have. *)

Inductive TaskPhase :=
| Planning | PlanPosted | Approved | Implementing | Test | Merging | Failed.

#[global] Instance TaskPhase_eq_dec : EqDecision TaskPhase.
Proof. solve_decision. Defined.

Record TaskRow := mkTaskRow {
  issue_key : string;
  phase : TaskPhase;
  summary : string;
  description : string;
  plan : option string;
  branch_name : option string;
  pr_number : option Z;
  pr_url : option string;
  reviewer_notes : option string;
  session_id : option string;
  cost_usd : option Q;
  plan_posted_at : option Z;
  last_feedback_check : option Z;
  created_at : Z;
  updated_at : Z
}.

(** [taskState.creator_account_id]: no row read from the table has this
    property, it is [undefined]. *)
Definition creator_account_id (r : TaskRow) : option string := None.

(** The [Partial<...>] argument of [upsertTask], over the properties of
    the interface [TaskRow]: [None] is an absent (or [undefined]) key,
    [Some None] an explicit [null]. *)
Record TaskPatch := mkTaskPatch {
  p_phase : option TaskPhase;
  p_summary : option string;
  p_description : option string;
  p_plan : option (option string);
  p_branch_name : option (option string);
  p_pr_number : option (option Z);
  p_pr_url : option (option string);
  p_worktree_path : option (option string);
  p_reviewer_notes : option (option string);
  p_session_id : option (option string);
  p_cost_usd : option (option Q);
  p_plan_posted_at : option (option Z);
  p_creator_account_id : option (option string);
  p_last_feedback_check : option (option Z)
}.

Definition noPatch : TaskPatch :=
  mkTaskPatch None None None None None None None None None None None None None None.

(** [ClaudeResult] *)
Record ClaudeResult := mkClaudeResult {
  success : bool;
  output : string;
  sessionId : option string;
  costUsd : option Q;
  error : option string
}.

(** ** Errors, external answers and the world *)

(** The [Error]s the sources construct, one constructor per message
    template, and [External] for whatever a collaborator throws. *)
Inductive Error :=
| External (msg : string)
| SqlConstraint                                   (* INSERT without [phase] *)
| SqlNoColumn (column : string)                   (* a key that is no column *)
| SqlBind                                         (* an object given as a value *)
| PathNotString                                   (* TypeError of [join(undefined, ...)] *)
| ReadOfNullish                                   (* TypeError of [(null).message] *)
| PlanningFailed (err : string)                   (* "Planning failed: ..." *)
| ImplementationFailed (err : option string) (out : string)
    (* "Implementation failed: ...", with the first 1000 characters of [out] *)
| NoChangesToPush (reason : option string)        (* "No changes to push: ..." *)
| MergeConflict (branch : string)                 (* "Merge conflict when merging ..." *)
| WorkflowFailed (totalAttempts : Z) (conclusion : option string)
| BuildFixFailed (err : option string)            (* "Build fix failed: ..." *)
| BuildFixNoChanges (reason : option string)      (* "Build fix produced no changes: ..." *)
| ReworkFailed (err : option string).             (* "Rework failed: ..." *)

(** The git command lines issued by [ClaudeService]. *)
Inductive GitCmd :=
| WorktreeRemove (path : string)          (* worktree remove "path" --force *)
| Fetch (branch : string)                 (* fetch origin branch *)
| BranchDelete (branch : string)          (* branch -D branch *)
| WorktreeAdd (path branch base : string) (* worktree add "path" -b branch origin/base *)
| StatusPorcelain                         (* status --porcelain *)
| AddAll                                  (* add -A *)
| CommitF (msgFile : string)              (* commit -F "msgFile" *)
| PushU (branch : string)                 (* push -u origin branch *)
| Push (branch : string)                  (* push origin branch *)
| Checkout (branch : string)              (* checkout branch *)
| CheckoutNew (branch : string)           (* checkout -b branch *)
| Pull (branch : string)                  (* pull origin branch *)
| MergeNoEdit (branch : string)           (* merge origin/branch --no-edit *)
| MergeAbort.                             (* merge --abort *)

#[global] Instance GitCmd_eq_dec : EqDecision GitCmd.
Proof. solve_decision. Defined.

(** One [execSync] of git: where it ran, what it ran, whether it exited 0. *)
Record GitRun := mkGitRun { cwd : string; cmd : GitCmd; ok : bool }.

(** Events of the agent SDK conversation, with the fields [runClaudeSDK]
    reads. *)
Inductive Block := TextBlock (text : string) | OtherBlock.

Inductive SdkEvent :=
| EvSystem (session : option string)
| EvAssistant (content : option (list Block))
| EvResult (session : option string) (cost_usd_ costUsd_ : option Q)
           (text : option string)
| EvOther.

(** The async iterable returned by [query]: it yields events and then
    either ends or throws. *)
(** What is thrown to [runClaudeSDK]: [null] or [undefined], or any other
    value, with its [message] property ([None] when it has none). *)
Inductive Raised :=
| RaisedNullish
| RaisedValue (message : option string).

Inductive Conversation :=
| Finished
| Raises (thrown : Raised)
| Yield (e : SdkEvent) (rest : Conversation).

(** Comments the engine posts on the issue, one constructor per template. *)
Inductive BotComment :=
| CAnalyzing
| CPlan (plan : string)
| CPlanningFailed (e : Error)
| CAdjusting
| CUpdatedPlan (plan : string)
| CReplanFailed (err : option string)
| CStarting
| CImplDone (branch : string) (prUrl : string) (prNumber : Z)
| CImplError (e : Error)
| CReviewing
| CNoChangesNeeded
| CFixesPushed (what : string)     (* its first 1000 characters are printed *)
| CReworkFailed (e : Error)
| CAutoFix (attempt maxRetries : Z)
| CMerged (prNumber : Z)
| CMergeFailed (e : Error).

Inductive JiraCall :=
| TransitionIssue (key status : string)
| AddComment (key : string) (c : BotComment)
| AssignIssue (key account : string)
| AddLabel (key label : string)
| RemoveLabel (key label : string)
| GetIssue (key : string).

Inductive GitHubCall :=
| CreatePullRequest (head base title : string)
| GetPullRequest (n : Z)
| MergePullRequest (n : Z) (title : string)
| DeleteBranch (ref : string)
| FindWorkflowRun (workflowFile : string) (after : Z)
| GetWorkflowRunStatus (run : Z)
| GetFailedJobLogs (run : Z).

Inductive AgentMode := PlanMode | ImplementMode | ReworkMode | FixBuildMode.

#[global] Instance AgentMode_eq_dec : EqDecision AgentMode.
Proof. solve_decision. Defined.

Record AgentCall := mkAgentCall {
  a_mode : AgentMode;
  a_cwd : string;
  a_resume : option string
}.

(** A comment as read back from the tracker. *)
Record JiraComment := mkJiraComment { c_text : string; c_created : Z }.

Record Issue := mkIssue {
  i_status : option string;
  i_assignee : option string;
  i_comments : list JiraComment
}.

Record PullRequest := mkPullRequest {
  pr_num : Z;
  pr_html_url : string;
  pr_state : string;
  pr_head_ref : string;
  pr_title : string
}.

Record SmokeResult := mkSmokeResult {
  tested : bool; passed : bool; smoke_output : string
}.

(** Answers of the outside world; the argument is the number of the
    interaction being answered. *)
Record Env := mkEnv {
  latency : nat -> nat;                 (* milliseconds the interaction takes *)
  fails : nat -> option string;         (* it throws with this message *)
  conversation : nat -> Conversation;   (* agent run *)
  gitDirty : nat -> bool;               (* [status --porcelain] printed something *)
  foundRun : nat -> option Z;           (* [findWorkflowRun] *)
  runState : nat -> string * option string;   (* status, conclusion *)
  jobLogs : nat -> string;
  pullRequest : nat -> PullRequest;
  issue : nat -> Issue;
  smoke : nat -> SmokeResult
}.

(** Writes reaching the task table, in order. *)
Inductive DbWrite :=
| Upsert (key : string) (p : TaskPatch)
| Delete (key : string).

Record World := mkWorld {
  tick : nat;                            (* interactions so far *)
  now : Z;                               (* the clock, ms *)
  db : gmap string TaskRow;              (* StateManager *)
  dbLog : list DbWrite;
  processing : gset string;              (* WorkflowEngine.processing *)
  jiraLog : list JiraCall;               (* calls the tracker accepted *)
  githubLog : list GitHubCall;
  agentLog : list AgentCall;
  activeWorktrees : gmap string string;  (* ClaudeService.activeWorktrees *)
  stagingLock : bool;                    (* ClaudeService.stagingLock *)
  gitLog : list GitRun
}.

Definition set_clock (t : nat) (n : Z) (w : World) : World :=
  mkWorld t n (db w) (dbLog w) (processing w) (jiraLog w) (githubLog w)
          (agentLog w) (activeWorktrees w) (stagingLock w) (gitLog w).
Definition set_db (d : gmap string TaskRow) (l : list DbWrite) (w : World) : World :=
  mkWorld (tick w) (now w) d l (processing w) (jiraLog w) (githubLog w)
          (agentLog w) (activeWorktrees w) (stagingLock w) (gitLog w).
Definition set_processing (p : gset string) (w : World) : World :=
  mkWorld (tick w) (now w) (db w) (dbLog w) p (jiraLog w) (githubLog w)
          (agentLog w) (activeWorktrees w) (stagingLock w) (gitLog w).
Definition set_jiraLog (l : list JiraCall) (w : World) : World :=
  mkWorld (tick w) (now w) (db w) (dbLog w) (processing w) l (githubLog w)
          (agentLog w) (activeWorktrees w) (stagingLock w) (gitLog w).
Definition set_githubLog (l : list GitHubCall) (w : World) : World :=
  mkWorld (tick w) (now w) (db w) (dbLog w) (processing w) (jiraLog w) l
          (agentLog w) (activeWorktrees w) (stagingLock w) (gitLog w).
Definition set_agentLog (l : list AgentCall) (w : World) : World :=
  mkWorld (tick w) (now w) (db w) (dbLog w) (processing w) (jiraLog w)
          (githubLog w) l (activeWorktrees w) (stagingLock w) (gitLog w).
Definition set_activeWorktrees (m : gmap string string) (w : World) : World :=
  mkWorld (tick w) (now w) (db w) (dbLog w) (processing w) (jiraLog w)
          (githubLog w) (agentLog w) m (stagingLock w) (gitLog w).
Definition set_stagingLock (b : bool) (w : World) : World :=
  mkWorld (tick w) (now w) (db w) (dbLog w) (processing w) (jiraLog w)
          (githubLog w) (agentLog w) (activeWorktrees w) b (gitLog w).
Definition set_gitLog (l : list GitRun) (w : World) : World :=
  mkWorld (tick w) (now w) (db w) (dbLog w) (processing w) (jiraLog w)
          (githubLog w) (agentLog w) (activeWorktrees w) (stagingLock w) l.

(** ** Computations *)

Inductive Outcome (A : Type) :=
| Ok (a : A)
| Throw (e : Error)
| Diverge.
Arguments Ok {A} a.
Arguments Throw {A} e.
Arguments Diverge {A}.

Definition M (A : Type) : Type := World -> Outcome A * World.

Definition ret {A} (a : A) : M A := fun w => (Ok a, w).
Definition throw {A} (e : Error) : M A := fun w => (Throw e, w).
Definition diverge {A} : M A := fun w => (Diverge, w).

Definition bind {A B} (m : M A) (k : A -> M B) : M B :=
  fun w =>
    match m w with
    | (Ok a, w1) => k a w1
    | (Throw e, w1) => (Throw e, w1)
    | (Diverge, w1) => (Diverge, w1)
    end.

Declare Scope js_scope.
Delimit Scope js_scope with js.
Notation "'let*' x ':=' m 'in' k" := (bind m (fun x => k))
  (at level 10, x name, m at level 100, k at level 200) : js_scope.
Notation "m ;;; k" := (bind m (fun _ => k))
  (at level 100, k at level 200, right associativity) : js_scope.
Open Scope js_scope.

(** [try { body } catch (e) { handler e }] *)
Definition tryCatch {A} (body : M A) (handler : Error -> M A) : M A :=
  fun w =>
    match body w with
    | (Throw e, w1) => handler e w1
    | r => r
    end.

(** [try { body } finally { fin }]: [fin] runs on return and on throw, and
    an error thrown by [fin] replaces the outcome of [body]. *)
Definition tryFinally {A} (body : M A) (fin : M unit) : M A :=
  fun w =>
    match body w with
    | (Diverge, w1) => (Diverge, w1)
    | (r, w1) =>
        match fin w1 with
        | (Ok _, w2) => (r, w2)
        | (Throw e, w2) => (Throw e, w2)
        | (Diverge, w2) => (Diverge, w2)
        end
    end.

Definition getW {A} (f : World -> A) : M A := fun w => (Ok (f w), w).
Definition modW (f : World -> World) : M unit := fun w => (Ok tt, f w).

Definition when (b : bool) (m : M unit) : M unit := if b then m else ret tt.

(** A sequential [for ... of] loop. *)
Fixpoint forEach {A} (l : list A) (body : A -> M unit) : M unit :=
  match l with
  | [] => ret tt
  | x :: r => body x ;;; forEach r body
  end.

(** ** Configuration

    The fields of [Config] the modelled code reads.  [defaultBranch] is the
    service field set once by [setDefaultBranch]; [worktreeBase] is
    [join(repoPath, '..', '.orchestrator-worktrees')]. *)
Record Config := mkConfig {
  claudeAccountId : option string;
  claudeLabel : string;
  yourAccountId : option string;
  repoPath : string;
  worktreeBase : string;
  defaultBranch : string;
  stagingUrl : option string;
  maxConcurrentTasks : Z;
  actionsWorkflowFile : option string;
  actionsMaxRetries : Z
}.

Record BranchInfo := mkBranchInfo { branchName : string; worktreePath : string }.

Record PushResult := mkPushResult { pushed : bool; reason : option string }.

Record PollResult := mkPollResult { poll_success : bool; conclusion : option string }.

(** *** [runClaudeSDK], the part that consumes the conversation

    [out], [sid] and [cost] are the locals [outputText], [sessionId] and
    [costUsd]. *)
Fixpoint turnText (blocks : list Block) : string :=
  match blocks with
  | [] => ""
  | TextBlock t :: r => t ++ turnText r
  | OtherBlock :: r => turnText r
  end.

Definition onEvent (e : SdkEvent) (acc : string * option string * option Q)
  : string * option string * option Q :=
  let '(out, sid, cost) := acc in
  match e with
  | EvSystem s => (out, match s with Some _ => s | None => sid end, cost)
  | EvAssistant (Some blocks) =>
      let t := turnText blocks in
      (if JsString.truthy t then t else out, sid, cost)
  | EvAssistant None => acc
  | EvResult s c1 c2 text =>
      (match text with
       | Some t => if JsString.truthy t then t else out
       | None => out
       end,
       match s with Some _ => s | None => sid end,
       match c1 with Some _ => c1 | None => c2 end)
  | EvOther => acc
  end.

(** The [for await] loop, from the locals [acc]: the locals when the
    iteration stops, and what stopped it, [None] when the conversation
    ended. *)
Fixpoint iterate (c : Conversation) (acc : string * option string * option Q)
  : string * option string * option Q * option Raised :=
  match c with
  | Finished => (acc, None)
  | Raises thrown => (acc, Some thrown)
  | Yield e rest => iterate rest (onEvent e acc)
  end.

Definition initialAcc : string * option string * option Q := ("", None, None).

(** The events a conversation yields before it ends or throws. *)
Fixpoint events (c : Conversation) : list SdkEvent :=
  match c with
  | Yield e rest => e :: events rest
  | _ => []
  end.

(** How a conversation ends: [None] normally, or with what it throws. *)
Fixpoint ending (c : Conversation) : option Raised :=
  match c with
  | Finished => None
  | Raises thrown => Some thrown
  | Yield _ rest => ending rest
  end.

(** The marker every comment written by the engine starts with: U+1F916,
    here in UTF-8. *)
Definition botMarker : string :=
  String "240" (String "159" (String "164" (String "150" EmptyString))).

(** The comment scan of [reconcile]: from the newest comment down, skip
    the engine's own comments, stop at the first comment not newer than
    the watermark, otherwise take that comment. *)
Fixpoint scanNewestFirst (newestFirst : list JiraComment) (watermark : Z)
  : option string :=
  match newestFirst with
  | [] => None
  | c :: older =>
      let text := JsString.trim (c_text c) in
      if JsString.startsWith text botMarker then scanNewestFirst older watermark
      else if (c_created c <=? watermark)%Z then None
      else Some text
  end.

Definition newestHumanComment (comments : list JiraComment) (watermark : Z)
  : option string :=
  scanNewestFirst (rev comments) watermark.

(** [text.match(/\*\*PR #:\*\*\s*(\d+)/)] followed by [parseInt]. *)
Definition isDigit (c : ascii) : bool :=
  let n := nat_of_ascii c in ((48 <=? n) && (n <=? 57))%nat.

Fixpoint leadingNumber (s : string) (acc : option Z) : option Z :=
  match s with
  | String c r =>
      if isDigit c then
        leadingNumber r
          (Some (10 * JsString.nullish acc 0 + Z.of_nat (nat_of_ascii c - 48)))%Z
      else acc
  | EmptyString => acc
  end.

Fixpoint matchPrNumber (s : string) : option Z :=
  match s with
  | EmptyString => None
  | String _ r =>
      if JsString.startsWith s "**PR #:**" then
        match leadingNumber (JsString.trimStart (JsString.substring 9 s)) None with
        | Some n => Some n
        | None => matchPrNumber r
        end
      else matchPrNumber r
  end.

(** The fallback loop of [handleMerge], newest comment first. *)
Fixpoint prNumberFromComments (newestFirst : list JiraComment) : option Z :=
  match newestFirst with
  | [] => None
  | c :: older =>
      match matchPrNumber (c_text c) with
      | Some n => Some n
      | None => prNumberFromComments older
      end
  end.

(** [!prNumber] *)
Definition noNumber (n : option Z) : bool :=
  match n with
  | Some v => (v =? 0)%Z
  | None => true
  end.

(** The working directory of the process, where a command without a
    directory of its own runs. *)
Definition processCwd : string := ".".

(** A [BranchInfo] where a string is expected: what the template
    literals make of an object. *)
Definition objectText (info : BranchInfo) : string := "[object Object]".

(** A call of an [async] function that is not awaited.  The function runs
    at once up to its first suspension, which for [mergeIntoStaging] with
    the lock free is its end; what it returns or throws goes to a promise
    that nobody reads, and the caller goes on. *)
Definition unawaited {A} (m : M A) : M unit :=
  fun w => let '(_, w') := m w in (Ok tt, w').

Section Orchestrator.

Variable env : Env.
Variable cfg : Config.

(** *** Interactions with the outside *)

(** One interaction: it is numbered and takes [latency] milliseconds. *)
Definition interact : M nat :=
  fun w =>
    (Ok (tick w),
     set_clock (S (tick w)) (now w + Z.of_nat (latency env (tick w))) w).

(** An interaction that may throw. *)
Definition external : M nat :=
  let* n := interact in
  match fails env n with
  | Some msg => throw (External msg)
  | None => ret n
  end.

(** [this.sleep(ms)], [setTimeout]: at least [ms] pass. *)
Definition sleep (ms : Z) : M unit :=
  fun w =>
    (Ok tt,
     set_clock (S (tick w)) (now w + ms + Z.of_nat (latency env (tick w))) w).

Definition dateNow : M Z := getW now.

Definition jira (c : JiraCall) : M nat :=
  let* n := external in
  modW (fun w => set_jiraLog (jiraLog w ++ [c]) w) ;;;
  ret n.

Definition github (c : GitHubCall) : M nat :=
  let* n := external in
  modW (fun w => set_githubLog (githubLog w ++ [c]) w) ;;;
  ret n.

(** [github.deleteBranch] swallows its errors. *)
Definition githubDeleteBranch (ref : string) : M unit :=
  let* n := interact in
  match fails env n with
  | Some _ => ret tt
  | None => modW (fun w => set_githubLog (githubLog w ++ [DeleteBranch ref]) w)
  end.

(** [writeFileSync], [unlinkSync], [mkdirSync] *)
Definition fsOp : M unit := external ;;; ret tt.

(** *** StateManager ([src/services/state.ts]) *)

Definition getTask (issueKey : string) : M (option TaskRow) :=
  getW (fun w => db w !! issueKey).

Definition patched {A} (o : option A) (old : A) : A :=
  match o with Some v => v | None => old end.

(** [UPDATE tasks SET ... , updated_at = datetime('now')] *)
Definition applyPatch (p : TaskPatch) (r : TaskRow) (t : Z) : TaskRow :=
  mkTaskRow (issue_key r)
    (patched (p_phase p) (phase r))
    (patched (p_summary p) (summary r))
    (patched (p_description p) (description r))
    (patched (p_plan p) (plan r))
    (patched (p_branch_name p) (branch_name r))
    (patched (p_pr_number p) (pr_number r))
    (patched (p_pr_url p) (pr_url r))
    (patched (p_reviewer_notes p) (reviewer_notes r))
    (patched (p_session_id p) (session_id r))
    (patched (p_cost_usd p) (cost_usd r))
    (patched (p_plan_posted_at p) (plan_posted_at r))
    (patched (p_last_feedback_check p) (last_feedback_check r))
    (created_at r) t.

(** [INSERT INTO tasks (issue_key, ...)]: absent columns take their
    defaults; [phase] has none. *)
Definition insertRow (issueKey : string) (p : TaskPatch) (t : Z) : option TaskRow :=
  match p_phase p with
  | None => None
  | Some ph =>
      Some (mkTaskRow issueKey ph
              (patched (p_summary p) "") (patched (p_description p) "")
              (patched (p_plan p) None) (patched (p_branch_name p) None)
              (patched (p_pr_number p) None) (patched (p_pr_url p) None)
              (patched (p_reviewer_notes p) None)
              (patched (p_session_id p) None) (patched (p_cost_usd p) None)
              (patched (p_plan_posted_at p) None)
              (patched (p_last_feedback_check p) None) t t)
  end.

(** The first key of the data that is no column of the table: both
    statements name every key they are given a value for, and [prepare]
    refuses a statement that names an unknown column. *)
Definition unknownColumn (p : TaskPatch) : option string :=
  match p_worktree_path p, p_creator_account_id p with
  | Some _, _ => Some "worktree_path"
  | None, Some _ => Some "creator_account_id"
  | None, None => None
  end.

Definition upsertTask (issueKey : string) (p : TaskPatch) : M unit :=
  fun w =>
    match unknownColumn p with
    | Some column => (Throw (SqlNoColumn column), w)
    | None =>
        match db w !! issueKey with
        | Some r =>
            (Ok tt, set_db (<[issueKey := applyPatch p r (now w)]> (db w))
                           (dbLog w ++ [Upsert issueKey p]) w)
        | None =>
            match insertRow issueKey p (now w) with
            | Some r =>
                (Ok tt, set_db (<[issueKey := r]> (db w))
                               (dbLog w ++ [Upsert issueKey p]) w)
            | None => (Throw SqlConstraint, w)
            end
        end
    end.

(** [SELECT * FROM tasks WHERE phase = ?] *)
Definition getTasksByPhase (ph : TaskPhase) : M (list TaskRow) :=
  getW (fun w => filter (fun r => phase r = ph) (snd <$> map_to_list (db w))).

Definition deleteTask (issueKey : string) : M unit :=
  modW (fun w => set_db (delete issueKey (db w)) (dbLog w ++ [Delete issueKey]) w).

(** *** ClaudeService ([src/services/claude.ts]) *)

Definition canAcceptTask (w : World) : bool :=
  (Z.of_nat (size (activeWorktrees w)) <? maxConcurrentTasks cfg)%Z.

(** [gitAt(cwd, args)]: [execSync] throws when git exits non-zero. *)
Definition gitAt (dir : string) (c : GitCmd) : M nat :=
  let* n := interact in
  match fails env n with
  | Some msg =>
      modW (fun w => set_gitLog (gitLog w ++ [mkGitRun dir c false]) w) ;;;
      throw (External msg)
  | None =>
      modW (fun w => set_gitLog (gitLog w ++ [mkGitRun dir c true]) w) ;;;
      ret n
  end.

Definition git (c : GitCmd) : M nat := gitAt (repoPath cfg) c.

(** [try { this.git(...) } catch { }] *)
Definition gitQuiet (c : GitCmd) : M unit :=
  tryCatch (git c ;;; ret tt) (fun _ => ret tt).

(** [gitAt(worktreePath, ...)] when the caller may have passed no path:
    [execSync] with an [undefined] directory runs in the working directory
    of the process. *)
Definition gitIn (worktreePath : option string) (c : GitCmd) : M nat :=
  gitAt (JsString.nullish worktreePath processCwd) c.

Definition slug (summary : string) : string :=
  JsString.take 40
    (JsString.dropTrailingDash
       (JsString.dropLeadingDash
          (JsString.collapse false (JsString.toLowerCase summary)))).

Definition createBranch (issueKey summary : string) : M BranchInfo :=
  let branchName := "claude/" ++ issueKey ++ "-" ++ slug summary in
  let worktreePath :=
    worktreeBase cfg ++ "/" ++ JsString.slashesToDashes branchName in
  fsOp ;;;
  gitQuiet (WorktreeRemove worktreePath) ;;;
  git (Fetch (defaultBranch cfg)) ;;;
  gitQuiet (BranchDelete branchName) ;;;
  git (WorktreeAdd worktreePath branchName (defaultBranch cfg)) ;;;
  modW (fun w => set_activeWorktrees
                   (<[issueKey := worktreePath]> (activeWorktrees w)) w) ;;;
  ret (mkBranchInfo branchName worktreePath).

(** [join(worktreePath, '.git-commit-msg')]: [join] throws a [TypeError]
    when an argument is not a string. *)
Definition commitMsgFile (worktreePath : option string) : M string :=
  match worktreePath with
  | Some path => ret (path ++ "/.git-commit-msg")
  | None => throw PathNotString
  end.

(** The common body of [pushChanges], [pushRework] and [pushBuildFix]:
    they differ in the commit message, the reason text and [-u]. *)
Definition commitAndPush (worktreePath : option string) (push : GitCmd)
    (why : string) : M PushResult :=
  let* n := gitIn worktreePath StatusPorcelain in
  if negb (gitDirty env n) then ret (mkPushResult false (Some why))
  else
    gitIn worktreePath AddAll ;;;
    let* msgFile := commitMsgFile worktreePath in
    fsOp ;;;
    gitIn worktreePath (CommitF msgFile) ;;;
    fsOp ;;;
    gitIn worktreePath push ;;;
    ret (mkPushResult true None).

Definition pushChanges (issueKey summary branchName : string)
    (worktreePath : option string) : M PushResult :=
  commitAndPush worktreePath (PushU branchName) "No changes made".

Definition pushRework (issueKey branchName feedback : string)
    (worktreePath : option string) : M PushResult :=
  commitAndPush worktreePath (Push branchName)
                "No changes made during rework".

Definition pushBuildFix (issueKey branchName : string) (attempt : Z)
    (worktreePath : option string) : M PushResult :=
  commitAndPush worktreePath (Push branchName)
                "No changes made by build fix".

(** [mergeIntoStaging] after the lock is taken: the [try ... finally]
    block.  Nothing in it awaits. *)
Definition mergeLocked (branchName : string) : M bool :=
  tryFinally
    (git (Fetch branchName) ;;;
     tryCatch
       (git (Fetch "staging") ;;;
        git (Checkout "staging") ;;;
        git (Pull "staging") ;;; ret tt)
       (fun _ =>
          git (Checkout (defaultBranch cfg)) ;;;
          git (Pull (defaultBranch cfg)) ;;;
          git (CheckoutNew "staging") ;;; ret tt) ;;;
     tryCatch
       (git (MergeNoEdit branchName) ;;; ret tt)
       (fun _ =>
          git MergeAbort ;;;
          git (Checkout (defaultBranch cfg)) ;;;
          throw (MergeConflict branchName)) ;;;
     git (PushU "staging") ;;;
     git (Checkout (defaultBranch cfg)) ;;;
     ret true)
    (modW (set_stagingLock false)).

(** [mergeIntoStaging] as one logical thread sees it: with the lock
    free it takes it and runs to the end; with the lock held it sleeps
    in the [while] until some other thread releases it, which within a
    single thread never happens. *)
Definition mergeIntoStaging (branchName : string) : M bool :=
  fun w =>
    if stagingLock w then (Diverge, w)
    else (modW (set_stagingLock true) ;;; mergeLocked branchName) w.

Definition smokeTestStaging : M SmokeResult :=
  match stagingUrl cfg with
  | None => ret (mkSmokeResult false false "")
  | Some _ =>
      sleep 10000 ;;;
      let* n := interact in
      ret (mkSmokeResult true (passed (smoke env n)) (smoke_output (smoke env n)))
  end.

(** [runClaudeSDK]: [query] runs in [options.cwd ?? this.repoPath]; a
    failure of [query] or of the iteration is a conversation that
    [Raises].  The [catch] block builds its result from the locals and
    from [(error as Error).message], and reading that property of [null]
    or [undefined] throws in its turn. *)
Definition runClaudeSDK (mode : AgentMode) (cwd : option string)
    (resume : option string) : M ClaudeResult :=
  let* n := interact in
  modW (fun w =>
          set_agentLog
            (agentLog w
             ++ [mkAgentCall mode (JsString.nullish cwd (repoPath cfg)) resume])
            w) ;;;
  let '(out, sid, cost, stopped) := iterate (conversation env n) initialAcc in
  match stopped with
  | None => ret (mkClaudeResult true out sid cost None)
  | Some (RaisedValue message) => ret (mkClaudeResult false out sid cost message)
  | Some RaisedNullish => throw ReadOfNullish
  end.

(** [createPlan] returns the [ClaudeResult] extended by [parsePlanResult];
    the engine reads the [ClaudeResult] fields only. *)
Definition createPlan (issueKey summary description : string) : M ClaudeResult :=
  runClaudeSDK PlanMode None None.

Definition implementPlan (issueKey summary description plan : string)
    (reviewerNotes : option string) (worktreePath : option string)
  : M ClaudeResult :=
  runClaudeSDK ImplementMode worktreePath None.

Definition rework (issueKey summary description plan feedback branchName : string)
    (sessionId : option string) (worktreePath : option string)
  : M ClaudeResult :=
  runClaudeSDK ReworkMode worktreePath
    (match sessionId with
     | Some s => if JsString.truthy s then Some s else None
     | None => None
     end).

Definition fixBuildFailure (issueKey summary branchName logs : string)
    (attempt : Z) (worktreePath : option string) : M ClaudeResult :=
  gitIn worktreePath (Pull branchName) ;;;
  runClaudeSDK FixBuildMode worktreePath None.

Definition cleanupWorktree (issueKey : string) : M unit :=
  let* wt := getW (fun w => activeWorktrees w !! issueKey) in
  match wt with
  | Some path =>
      if JsString.truthy path then
        gitQuiet (WorktreeRemove path) ;;;
        modW (fun w =>
                set_activeWorktrees (delete issueKey (activeWorktrees w)) w)
      else ret tt
  | None => ret tt
  end.

Definition cleanup : M unit :=
  let* keys := getW (fun w => fst <$> map_to_list (activeWorktrees w)) in
  forEach keys cleanupWorktree ;;;
  gitQuiet (Checkout (defaultBranch cfg)).

(** *** WorkflowEngine *)

Definition isProcessing (key : string) : M bool :=
  getW (fun w => bool_decide (key ∈ processing w)).
Definition processingAdd (key : string) : M unit :=
  modW (fun w => set_processing ({[key]} ∪ processing w) w).
Definition processingDelete (key : string) : M unit :=
  modW (fun w => set_processing (processing w ∖ {[key]}) w).

(** [if (id) await this.jira.assignIssue(issueKey, id)] *)
Definition assignIfSet (issueKey : string) (id : option string) : M unit :=
  match id with
  | Some a => if JsString.truthy a then jira (AssignIssue issueKey a) ;;; ret tt
              else ret tt
  | None => ret tt
  end.

(** [a ?? b] on nullable strings *)
Definition orElse {A} (a b : option A) : option A :=
  match a with Some _ => a | None => b end.

Definition getAssignBackId (issueKey : string) : M (option string) :=
  let* taskState := getTask issueKey in
  ret (orElse (match taskState with
               | Some r => creator_account_id r
               | None => None
               end) (yourAccountId cfg)).

(** [(taskState.cost_usd ?? 0) + (result.costUsd ?? 0)] *)
Definition addCost (stored invoked : option Q) : Q :=
  (JsString.nullish stored 0 + JsString.nullish invoked 0)%Q.

(** **** Phase 1: plan *)

(** The [try] block of [handleNewTask]. *)
Definition planChain (issueKey summary description : string)
    (creatorAccountId : option string) : M unit :=
  jira (TransitionIssue issueKey "In Progress") ;;;
  jira (AddComment issueKey CAnalyzing) ;;;
  let* result := createPlan issueKey summary description in
  if negb (success result) then
    throw (PlanningFailed
             (match error result with
              | Some e => if JsString.truthy e then e else "Unknown error"
              | None => "Unknown error"
              end))
  else
    let plan := output result in
    jira (AddComment issueKey (CPlan plan)) ;;;
    assignIfSet issueKey (orElse creatorAccountId (yourAccountId cfg)) ;;;
    let* t := dateNow in
    upsertTask issueKey
      (mkTaskPatch (Some PlanPosted) (Some summary) (Some description)
         (Some (Some plan)) None None None None None
         (Some (sessionId result)) (Some (costUsd result))
         (Some (Some t)) (Some creatorAccountId) None).

(** Its [catch] block. *)
Definition reportPlanningError (issueKey : string)
    (creatorAccountId : option string) (e : Error) : M unit :=
  jira (AddComment issueKey (CPlanningFailed e)) ;;;
  assignIfSet issueKey (orElse creatorAccountId (yourAccountId cfg)).

Definition handleNewTask (issueKey summary description : string)
    (creatorAccountId : option string) : M unit :=
  let* busy := isProcessing issueKey in
  if busy then ret tt else
  let* existing := getTask issueKey in
  if match existing with
     | Some r => bool_decide (phase r = PlanPosted)
     | None => false
     end
  then ret tt else
  processingAdd issueKey ;;;
  tryFinally
    (tryCatch
       (planChain issueKey summary description creatorAccountId)
       (reportPlanningError issueKey creatorAccountId))
    (processingDelete issueKey).

(** **** GitHub Actions workflow monitoring *)

Definition intervals : list Z := [15000; 30000; 60000].
Definition maxPollTime : Z := 10 * 60 * 1000.

(** [intervals[Math.min(intervalIdx, intervals.length - 1)]] *)
Definition delayOf (intervalIdx : nat) : Z :=
  nth (Nat.min intervalIdx (length intervals - 1)) intervals 0.

(** The [while (Date.now() - start < maxPollTime)] loop of
    [pollWorkflowRun]; [fuel] bounds the number of condition checks. *)
Fixpoint pollLoop (fuel : nat) (runId start : Z) (intervalIdx : nat)
  : M PollResult :=
  match fuel with
  | O => diverge
  | S fuel' =>
      let* t := dateNow in
      if (t - start <? maxPollTime)%Z then
        let* n := github (GetWorkflowRunStatus runId) in
        let '(status, concl) := runState env n in
        if String.eqb status "completed" then
          ret (mkPollResult
                 (match concl with
                  | Some c => String.eqb c "success"
                  | None => false
                  end) concl)
        else
          sleep (delayOf intervalIdx) ;;;
          pollLoop fuel' runId start (S intervalIdx)
      else ret (mkPollResult false (Some "timed_out"))
  end.

(** Thirteen checks always suffice, see [pollLoop_fuel]. *)
Definition pollFuel : nat := 13.

Definition pollWorkflowRun (issueKey : string) (runId : Z) : M PollResult :=
  let* start := dateNow in
  pollLoop pollFuel runId start 0.

(** [for (let i = 0; i < 10; i++)]: wait for the run to appear. *)
Fixpoint findRunLoop (tries : nat) (workflowFile : string) (pushTime : Z)
  : M (option Z) :=
  match tries with
  | O => ret None
  | S tries' =>
      sleep 10000 ;;;
      let* n := github (FindWorkflowRun workflowFile pushTime) in
      match foundRun env n with
      | Some id => ret (Some id)
      | None => findRunLoop tries' workflowFile pushTime
      end
  end.

(** The [for (attempt = 1; attempt <= totalAttempts; attempt++)] loop;
    [left] is the number of iterations still allowed by the bound.  The
    engine passes no worktree path to [fixBuildFailure] and [pushBuildFix]
    and does not await [mergeIntoStaging]. *)
Fixpoint attemptLoop (left : nat) (attempt : Z)
    (workflowFile issueKey branchName summary : string) : M unit :=
  match left with
  | O => ret tt
  | S left' =>
      let maxRetries := actionsMaxRetries cfg in
      let totalAttempts := (maxRetries + 1)%Z in
      let* pushTime := dateNow in
      let* found := findRunLoop 10 workflowFile pushTime in
      match found with
      | None => ret tt
      | Some runId =>
          if (runId =? 0)%Z then ret tt else
          let* result := pollWorkflowRun issueKey runId in
          if poll_success result then ret tt else
          if (attempt >=? totalAttempts)%Z then
            throw (WorkflowFailed totalAttempts (conclusion result))
          else
            let* n := github (GetFailedJobLogs runId) in
            let logs := jobLogs env n in
            jira (AddComment issueKey (CAutoFix attempt maxRetries)) ;;;
            let* fixResult :=
              fixBuildFailure issueKey summary branchName logs attempt None in
            if negb (success fixResult) then
              throw (BuildFixFailed (error fixResult))
            else
              let* pushResult := pushBuildFix issueKey branchName attempt None in
              if negb (pushed pushResult) then
                throw (BuildFixNoChanges (reason pushResult))
              else
                unawaited (mergeIntoStaging branchName) ;;;
                attemptLoop left' (attempt + 1)%Z
                            workflowFile issueKey branchName summary
      end
  end.

Definition waitForStagingWorkflow (issueKey branchName summary : string)
  : M unit :=
  match actionsWorkflowFile cfg with
  | None => ret tt
  | Some workflowFile =>
      if negb (JsString.truthy workflowFile) then ret tt else
      attemptLoop (Z.to_nat (actionsMaxRetries cfg + 1)) 1
                  workflowFile issueKey branchName summary
  end.

(** **** Phase 2: implement *)

(** The [try] block of [handleImplementation]; [ts] is the row read on
    entry.  What [createBranch] returns is assigned to [branchName] as it
    is, an object; no worktree path is passed to [implementPlan] and
    [pushChanges]; [mergeIntoStaging] is not awaited; and the last
    statement hands the object to [upsertTask] as [branch_name], which the
    database driver refuses. *)
Definition implementationChain (issueKey : string) (ts : TaskRow) : M unit :=
  jira (AddComment issueKey CStarting) ;;;
  assignIfSet issueKey (claudeAccountId cfg) ;;;
  let* info := createBranch issueKey (summary ts) in
  let branchName := objectText info in
  let* result :=
    implementPlan issueKey (summary ts) (description ts)
                  (JsString.nullish (plan ts) "") (reviewer_notes ts) None in
  if negb (success result) then
    throw (ImplementationFailed (error result) (output result))
  else
    let* pushResult := pushChanges issueKey (summary ts) branchName None in
    if negb (pushed pushResult) then
      throw (NoChangesToPush (reason pushResult))
    else
      unawaited (mergeIntoStaging branchName) ;;;
      waitForStagingWorkflow issueKey branchName (summary ts) ;;;
      smokeTestStaging ;;;
      let* n :=
        github (CreatePullRequest branchName (defaultBranch cfg)
                  (issueKey ++ ": " ++ summary ts)) in
      let pr := pullRequest env n in
      jira (AddLabel issueKey (claudeLabel cfg ++ "-pr-pending")) ;;;
      jira (AddComment issueKey
              (CImplDone branchName (pr_html_url pr) (pr_num pr))) ;;;
      jira (TransitionIssue issueKey "Test") ;;;
      let* implAssignId := getAssignBackId issueKey in
      assignIfSet issueKey implAssignId ;;;
      throw SqlBind.

Definition failedPatch : TaskPatch :=
  mkTaskPatch (Some Failed) None None None None None None None
              None None None None None None.

(** Its [catch] block. *)
Definition reportImplementationError (issueKey : string) (e : Error) : M unit :=
  jira (AddComment issueKey (CImplError e)) ;;;
  let* implErrAssignId := getAssignBackId issueKey in
  assignIfSet issueKey implErrAssignId ;;;
  upsertTask issueKey failedPatch.

Definition handleImplementation (issueKey : string) : M unit :=
  let* busy := isProcessing issueKey in
  if busy then ret tt else
  processingAdd issueKey ;;;
  let* taskState := getTask issueKey in
  match taskState with
  | None => ret tt
  | Some ts =>
      tryFinally
        (tryCatch (implementationChain issueKey ts)
                  (reportImplementationError issueKey))
        (cleanup ;;; processingDelete issueKey)
  end.

(** **** Phase 1b: plan feedback *)

Definition approvalPatch (commentText : string) : TaskPatch :=
  let reviewerNotes := JsString.trim (JsString.substring 7 commentText) in
  mkTaskPatch (Some Approved) None None None None None None None
              (Some (JsString.orNull reviewerNotes)) None None None None None.

(** The [try] block of the feedback branch (the prompt handed to
    [createPlan] is written without its line breaks). *)
Definition replanChain (issueKey commentText : string) (ts : TaskRow) : M unit :=
  jira (AddComment issueKey CAdjusting) ;;;
  let* result :=
    createPlan issueKey (summary ts)
      (description ts ++ " ## Previous Plan: "
         ++ JsString.nullish (plan ts) "null"
         ++ " ## Reviewer Feedback: " ++ commentText) in
  if success result then
    jira (AddComment issueKey (CUpdatedPlan (output result))) ;;;
    let* t := dateNow in
    upsertTask issueKey
      (mkTaskPatch (Some PlanPosted) None None
         (Some (Some (output result))) None None None None None
         (Some (sessionId result))
         (Some (Some (addCost (cost_usd ts) (costUsd result))))
         (Some (Some t)) None None)
  else
    jira (AddComment issueKey (CReplanFailed (error result))) ;;;
    ret tt.

Definition handlePlanFeedback (issueKey commentText : string) : M unit :=
  let* busy := isProcessing issueKey in
  if busy then ret tt else
  let* taskState := getTask issueKey in
  match taskState with
  | None => ret tt
  | Some ts =>
      let textLower := JsString.toLowerCase commentText in
      if JsString.startsWith textLower "approve" then
        upsertTask issueKey (approvalPatch commentText) ;;;
        handleImplementation issueKey
      else
        processingAdd issueKey ;;;
        tryFinally (replanChain issueKey commentText ts)
                   (processingDelete issueKey)
  end.

(** **** Phase 2b: test feedback, rework *)

(** The [try] block of [handleTestFeedback].  The engine passes no
    worktree path to [rework] and [pushRework] and does not await
    [mergeIntoStaging]. *)
Definition reworkChain (issueKey feedback branch : string) (ts : TaskRow)
  : M unit :=
  jira (AddComment issueKey CReviewing) ;;;
  assignIfSet issueKey (claudeAccountId cfg) ;;;
  let* result :=
    rework issueKey (summary ts) (description ts)
           (JsString.nullish (plan ts) "") feedback branch
           (session_id ts) None in
  if negb (success result) then
    throw (ReworkFailed (error result))
  else
    let* pushResult := pushRework issueKey branch feedback None in
    if negb (pushed pushResult) then
      jira (AddComment issueKey CNoChangesNeeded) ;;;
      let* t := dateNow in
      upsertTask issueKey
        (mkTaskPatch None None None None None None None None
           None None None None None (Some (Some t)))
    else
      unawaited (mergeIntoStaging branch) ;;;
      waitForStagingWorkflow issueKey branch (summary ts) ;;;
      smokeTestStaging ;;;
      jira (AddComment issueKey
              (CFixesPushed
                 (if JsString.truthy (output result) then output result
                  else "See latest commits."))) ;;;
      let* testAssignId := getAssignBackId issueKey in
      assignIfSet issueKey testAssignId ;;;
      let* t := dateNow in
      upsertTask issueKey
        (mkTaskPatch None None None None None None None None
           None (Some (sessionId result))
           (Some (Some (addCost (cost_usd ts) (costUsd result))))
           None None (Some (Some t))).

(** Its [catch] block. *)
Definition reportReworkError (issueKey : string) (e : Error) : M unit :=
  jira (AddComment issueKey (CReworkFailed e)) ;;;
  let* testErrAssignId := getAssignBackId issueKey in
  assignIfSet issueKey testErrAssignId.

Definition handleTestFeedback (issueKey feedback : string) : M unit :=
  let* busy := isProcessing issueKey in
  if busy then ret tt else
  let* taskState := getTask issueKey in
  match taskState with
  | None => ret tt
  | Some ts =>
      match branch_name ts with
      | None => ret tt
      | Some branch =>
          if negb (JsString.truthy branch) then ret tt else
          processingAdd issueKey ;;;
          tryFinally
            (tryCatch (reworkChain issueKey feedback branch ts)
                      (reportReworkError issueKey))
            (cleanup ;;; processingDelete issueKey)
      end
  end.

(** **** Phase 3: merge *)

(** The [try] block of [handleMerge]. *)
Definition mergeChain (issueKey : string) : M unit :=
  let* taskState := getTask issueKey in
  let stored := match taskState with
                | Some ts => pr_number ts
                | None => None
                end in
  let* prNumber :=
    (if noNumber stored then
       let* n := jira (GetIssue issueKey) in
       ret (prNumberFromComments (rev (i_comments (issue env n))))
     else ret stored) in
  match prNumber with
  | None => ret tt
  | Some num =>
      if (num =? 0)%Z then ret tt else
      let* n := github (GetPullRequest num) in
      let pr := pullRequest env n in
      if negb (String.eqb (pr_state pr) "open") then
        jira (RemoveLabel issueKey (claudeLabel cfg ++ "-pr-pending")) ;;;
        deleteTask issueKey
      else
        github (MergePullRequest num (issueKey ++ ": " ++ pr_title pr)) ;;;
        jira (RemoveLabel issueKey (claudeLabel cfg ++ "-pr-pending")) ;;;
        jira (AddComment issueKey (CMerged num)) ;;;
        githubDeleteBranch (pr_head_ref pr) ;;;
        deleteTask issueKey
  end.

(** Its [catch] block. *)
Definition reportMergeError (issueKey : string) (e : Error) : M unit :=
  jira (AddComment issueKey (CMergeFailed e)) ;;; ret tt.

Definition handleMerge (issueKey : string) : M unit :=
  let mergeKey := "merge-" ++ issueKey in
  let* busy := isProcessing mergeKey in
  if busy then ret tt else
  processingAdd mergeKey ;;;
  tryFinally
    (tryCatch (mergeChain issueKey) (reportMergeError issueKey))
    (processingDelete mergeKey).

(** **** Reconciliation, step 2: plan approvals by polling comments *)

(** The body of the loop over the [plan-posted] rows. *)
Definition scanPlanTask (taskState : TaskRow) : M unit :=
  let* busy := isProcessing (issue_key taskState) in
  if busy then ret tt else
  tryCatch
    (let* n := jira (GetIssue (issue_key taskState)) in
     let comments := i_comments (issue env n) in
     let planPostedAt :=
       JsString.nullish (plan_posted_at taskState) (updated_at taskState) in
     match newestHumanComment comments planPostedAt with
     | Some text => handlePlanFeedback (issue_key taskState) text
     | None => ret tt
     end)
    (fun _ => ret tt).

Definition reconcilePlanApprovals : M unit :=
  let* planTasks := getTasksByPhase PlanPosted in
  forEach planTasks scanPlanTask.

End Orchestrator.

(** ** Concrete scenarios

    Inputs on which the code is run in the examples below: the task
    [PROJ-1] "Add health check", a tracker, host and git that never fail
    unless stated, and an agent that answers one result event. *)

Definition agentAnswers (text : string) (cost : Q) : Conversation :=
  Yield (EvSystem (Some "sess-1"))
    (Yield (EvAssistant (Some [TextBlock "working"; OtherBlock]))
       (Yield (EvResult (Some "sess-1") (Some cost) None (Some text)) Finished)).

Definition calmEnv : Env :=
  mkEnv (fun _ => 1%nat) (fun _ => None)
        (fun _ => agentAnswers "1. add /health route" 1)
        (fun _ => true) (fun _ => Some 77)
        (fun _ => ("completed", Some "success"))
        (fun _ => "")
        (fun _ => mkPullRequest 42 "https://example.test/pull/42" "open"
                                "claude/PROJ-1-add-health-check" "PROJ-1")
        (fun _ => mkIssue (Some "In Progress") None [])
        (fun _ => mkSmokeResult true true "").

Definition withFailureAt (k : nat) (msg : string) (e : Env) : Env :=
  mkEnv (latency e)
        (fun n => if (n =? k)%nat then Some msg else fails e n)
        (conversation e) (gitDirty e) (foundRun e) (runState e) (jobLogs e)
        (pullRequest e) (issue e) (smoke e).

Definition withConversation (c : nat -> Conversation) (e : Env) : Env :=
  mkEnv (latency e) (fails e) c (gitDirty e) (foundRun e) (runState e)
        (jobLogs e) (pullRequest e) (issue e) (smoke e).

Definition withRunState (s : nat -> string * option string) (e : Env) : Env :=
  mkEnv (latency e) (fails e) (conversation e) (gitDirty e) (foundRun e) s
        (jobLogs e) (pullRequest e) (issue e) (smoke e).

Definition withIssue (i : nat -> Issue) (e : Env) : Env :=
  mkEnv (latency e) (fails e) (conversation e) (gitDirty e) (foundRun e)
        (runState e) (jobLogs e) (pullRequest e) i (smoke e).

Definition baseCfg : Config :=
  mkConfig (Some "acct-claude") "claude-bot" (Some "acct-owner")
           "/srv/repo" "/srv/.orchestrator-worktrees" "main" None 2 None 2.

Definition withWorkflow (file : string) (retries : Z) (c : Config) : Config :=
  mkConfig (claudeAccountId c) (claudeLabel c) (yourAccountId c) (repoPath c)
           (worktreeBase c) (defaultBranch c) (stagingUrl c)
           (maxConcurrentTasks c) (Some file) retries.

Definition withMaxConcurrent (n : Z) (c : Config) : Config :=
  mkConfig (claudeAccountId c) (claudeLabel c) (yourAccountId c) (repoPath c)
           (worktreeBase c) (defaultBranch c) (stagingUrl c) n
           (actionsWorkflowFile c) (actionsMaxRetries c).

Definition emptyWorld : World :=
  mkWorld 0 1000 ∅ [] ∅ [] [] [] ∅ false [].

Definition proj1Row (ph : TaskPhase) : TaskRow :=
  mkTaskRow "PROJ-1" ph "Add health check" "" (Some "1. add /health route")
            None None None None (Some "sess-0") (Some 5%Q) (Some 900)
            None 800 900.

Definition worldWith (r : TaskRow) : World :=
  set_db (<[issue_key r := r]> ∅) [] emptyWorld.

(** [PROJ-1] once implemented: in [test], with its branch and change
    request recorded. *)
Definition proj1InTest : TaskRow :=
  mkTaskRow "PROJ-1" Test "Add health check" "" (Some "1. add /health route")
            (Some "claude/PROJ-1-add-health-check") (Some 42)
            (Some "https://example.test/pull/42") None (Some "sess-0")
            (Some 5%Q) (Some 900) None 800 950.

(** An agent run that has announced its session and written part of its
    answer when the iteration throws. *)
Definition interruptedRun (thrown : Raised) : Conversation :=
  Yield (EvSystem (Some "sess-1"))
    (Yield (EvAssistant (Some [TextBlock "partial answer"])) (Raises thrown)).

Definition interruptedAgent (thrown : Raised) : Env :=
  withConversation (fun _ => interruptedRun thrown) calmEnv.

(** An agent whose every run throws. *)
Definition crashingAgent : Env :=
  withConversation (fun _ => Raises (RaisedValue (Some "agent crashed")))
                   calmEnv.

(** The workflow [ci.yml] is configured with two retries, and every run
    of it completes with a failure. *)
Definition ciCfg : Config := withWorkflow "ci.yml" 2 baseCfg.

Definition redBuild : Env :=
  withRunState (fun _ => ("completed", Some "failure")) calmEnv.

(** The tracker refuses the ninth interaction of a run: with [crashingAgent], the
    comment by which [handleImplementation] reports the failure. *)
Definition refusedReport : Env :=
  withFailureAt 8 "503 Service Unavailable" crashingAgent.

(** The reviewer left one comment on [PROJ-1] after the plan was posted,
    and every agent run throws. *)
Definition feedbackComment : JiraComment :=
  mkJiraComment "please add tests" 950.

Definition stuckReview : Env :=
  withIssue (fun _ => mkIssue (Some "In Progress") None [feedbackComment])
            crashingAgent.

(** [PROJ-1] approved while the only allowed workspace is taken by
    [PROJ-2]. *)
Definition oneWorkspaceCfg : Config := withMaxConcurrent 1 baseCfg.

Definition busyWorld : World :=
  set_activeWorktrees
    {[ "PROJ-2" := "/srv/.orchestrator-worktrees/claude-PROJ-2-fix-login" ]}
    (worldWith (proj1Row Approved)).

(** The merge of the feature branch of [PROJ-1] conflicts: the fifth git
    command of [mergeIntoStaging] (the merge itself) fails. *)
Definition conflictEnv : Env := withFailureAt 4 "CONFLICT (content)" calmEnv.

(** The same conflict while the index of the repository is locked: the
    [merge --abort] that follows fails too. *)
Definition lockedIndexEnv : Env :=
  withFailureAt 5 "fatal: Unable to create '/srv/repo/.git/index.lock': File exists."
                conflictEnv.

Definition proj1Branch : string := "claude/PROJ-1-add-health-check".

Definition proj1Worktree : string :=
  "/srv/.orchestrator-worktrees/claude-PROJ-1-add-health-check".

(** The worktree of [PROJ-1] has been added, on the feature branch. *)
Definition branchedWorld : World :=
  set_gitLog [mkGitRun "/srv/repo" (WorktreeAdd proj1Worktree proj1Branch "main") true]
             emptyWorld.

(** ** Overlapping calls of [mergeIntoStaging]

    The event loop runs one call at a time, from one [await] to the next.
    The only [await] of [mergeIntoStaging] is the sleep inside the
    [while (this.stagingLock)] loop. *)

Inductive MergeCall :=
| NotStarted (branch : string)
| Waiting (branch : string)          (* suspended in the [while] *)
| Returned (r : Outcome bool).

(** One turn given to a call. *)
Definition mergeTurn (env : Env) (cfg : Config) (c : MergeCall) (w : World)
  : MergeCall * World :=
  match c with
  | NotStarted b | Waiting b =>
      if stagingLock w then (Waiting b, (sleep env 500 w).2)
      else
        let '(r, w') :=
          (modW (set_stagingLock true) ;;; mergeLocked env cfg b) w in
        (Returned r, w')
  | Returned _ => (c, w)
  end.

(** A turn given to call number [i]. *)
Definition turn (env : Env) (cfg : Config) (i : nat)
    (st : list MergeCall * World) : list MergeCall * World :=
  match st.1 !! i with
  | Some c => let '(c', w') := mergeTurn env cfg c st.2 in (<[i := c']> st.1, w')
  | None => st
  end.

(** Turns given in the order of [sched]. *)
Definition runSchedule (env : Env) (cfg : Config) (sched : list nat)
    (st : list MergeCall * World) : list MergeCall * World :=
  fold_left (fun st i => turn env cfg i st) sched st.

(** The merges of [order] run one after the other, each to its end. *)
Definition serial (env : Env) (cfg : Config) (branches : list string)
    (order : list nat) (w : World) : World :=
  fold_left
    (fun w i =>
       match branches !! i with
       | Some b => (mergeIntoStaging env cfg b w).2
       | None => w
       end)
    order w.

(** ** The entry points of the engine ([src/config.ts])

    [handleWebhook] and the whole of [reconcile]. *)

(** [JiraWebhookPayload], with the fields the engine reads.  Texts
    ([description], a comment's [body]) are held as [descriptionToText]
    returns them. *)
Record ChangeItem := mkChangeItem {
  ci_field : string;
  ci_toString : option string
}.

Record IssueFields := mkIssueFields {
  f_summary : string;
  f_description : string;
  f_status : option string;            (* [status?.name] *)
  f_labels : option (list string);
  f_assignee : option string;          (* [assignee?.accountId] *)
  f_reporter : option string           (* [reporter?.accountId] *)
}.

Record WebhookIssue := mkWebhookIssue {
  wi_key : string;
  wi_fields : IssueFields
}.

Record JiraWebhookPayload := mkJiraWebhookPayload {
  webhookEvent : string;
  p_issue : option WebhookIssue;
  p_changelog : option (list ChangeItem);
  p_comment : option JiraComment
}.

(** The answers of the two JQL searches of [JiraService], by the number
    of the interaction. *)
Record Searches := mkSearches {
  claudeTasks : nat -> list WebhookIssue;   (* [findClaudeTasks] *)
  doneTasks : nat -> list string            (* keys of [findApprovedTasks] *)
}.

(** [s?.toLowerCase() === t] *)
Definition lowerIs (s : option string) (t : string) : bool :=
  match s with
  | Some v => String.eqb (JsString.toLowerCase v) t
  | None => false
  end.

(** [claudeAccountId && assigneeId === claudeAccountId] *)
Definition assignedTo (claude assignee : option string) : bool :=
  match claude, assignee with
  | Some c, Some a => JsString.truthy c && String.eqb a c
  | _, _ => false
  end.

(** [labels.includes(label)] *)
Definition includes (labels : list string) (label : string) : bool :=
  existsb (String.eqb label) labels.

Definition retryPatch : TaskPatch :=
  mkTaskPatch (Some Approved) None None None None None None None
              None None None None None None.

Section Entry.

Variable env : Env.
Variable cfg : Config.
Variable found : Searches.

(** [handleNewTask(issue)] on an issue object. *)
Definition handleNewIssue (i : WebhookIssue) : M unit :=
  handleNewTask env cfg (wi_key i) (f_summary (wi_fields i))
                (f_description (wi_fields i)) (f_reporter (wi_fields i)).

Definition handleIssueEvent (payload : JiraWebhookPayload) : M unit :=
  match p_issue payload with
  | None => ret tt
  | Some i =>
      let issueKey := wi_key i in
      let status := f_status (wi_fields i) in
      let labels := JsString.nullish (f_labels (wi_fields i)) [] in
      let assigneeId := f_assignee (wi_fields i) in
      let statusChange :=
        List.find (fun item => String.eqb (ci_field item) "status")
                  (JsString.nullish (p_changelog payload) []) in
      if lowerIs (match statusChange with
                  | Some item => ci_toString item
                  | None => None
                  end) "done"
      then handleMerge env cfg issueKey
      else
        let isAssignedToClaude := assignedTo (claudeAccountId cfg) assigneeId in
        (* what follows the re-assignment check *)
        let newTask :=
          if lowerIs status "to do" then
            if isAssignedToClaude || includes labels (claudeLabel cfg)
            then handleNewIssue i
            else ret tt
          else ret tt in
        if isAssignedToClaude then
          let* taskState := getTask issueKey in
          match taskState with
          | Some ts =>
              if bool_decide (phase ts = Failed)
                 || bool_decide (phase ts = Approved)
              then
                upsertTask issueKey retryPatch ;;;
                handleImplementation env cfg issueKey
              else newTask
          | None => newTask
          end
        else newTask
  end.

Definition handleCommentEvent (payload : JiraWebhookPayload) : M unit :=
  match p_issue payload, p_comment payload with
  | Some i, Some comment =>
      let issueKey := wi_key i in
      let* taskState := getTask issueKey in
      match taskState with
      | None => ret tt
      | Some ts =>
          let commentText := JsString.trim (c_text comment) in
          if JsString.startsWith commentText botMarker then ret tt
          else if bool_decide (phase ts = PlanPosted)
          then handlePlanFeedback env cfg issueKey commentText
          else if bool_decide (phase ts = Test)
          then handleTestFeedback env cfg issueKey commentText
          else ret tt
      end
  | _, _ => ret tt
  end.

Definition handleWebhook (payload : JiraWebhookPayload) : M unit :=
  let event := webhookEvent payload in
  if String.eqb event "jira:issue_created"
     || String.eqb event "jira:issue_updated"
  then handleIssueEvent payload
  else if String.eqb event "comment_created"
  then handleCommentEvent payload
  else ret tt.

(** *** [reconcile] *)

(** Step 1: new tasks. *)
Definition reconcileNewTasks : M unit :=
  let* n := external env in
  forEach (claudeTasks found n) handleNewIssue.

(** Step 3, the body of the loop over the rows in [test]. *)
Definition scanTestTask (taskState : TaskRow) : M unit :=
  let* busy := isProcessing (issue_key taskState) in
  if busy then ret tt else
  tryCatch
    (let* n := jira env (GetIssue (issue_key taskState)) in
     if lowerIs (i_status (issue env n)) "done"
     then handleMerge env cfg (issue_key taskState)
     else
       let comments := i_comments (issue env n) in
       let lastCheckTime :=
         JsString.nullish (last_feedback_check taskState)
                          (updated_at taskState) in
       match newestHumanComment comments lastCheckTime with
       | Some text => handleTestFeedback env cfg (issue_key taskState) text
       | None => ret tt
       end)
    (fun _ => ret tt).

Definition reconcileTestFeedback : M unit :=
  let* testTasks := getTasksByPhase Test in
  forEach testTasks scanTestTask.

(** Step 4, the body of the loop over the rows in [failed] and
    [approved]. *)
Definition retryTask (taskState : TaskRow) : M unit :=
  let* busy := isProcessing (issue_key taskState) in
  if busy then ret tt else
  tryCatch
    (let* n := jira env (GetIssue (issue_key taskState)) in
     if assignedTo (claudeAccountId cfg) (i_assignee (issue env n)) then
       upsertTask (issue_key taskState) retryPatch ;;;
       handleImplementation env cfg (issue_key taskState)
     else ret tt)
    (fun _ => ret tt).

Definition reconcileRetries : M unit :=
  let* failedTasks := getTasksByPhase Failed in
  let* approvedTasks := getTasksByPhase Approved in
  forEach (failedTasks ++ approvedTasks) retryTask.

(** Step 5: issues moved to "Done" whose change request is pending. *)
Definition reconcileMerges : M unit :=
  let* n := external env in
  forEach (doneTasks found n) (handleMerge env cfg).

(** The five steps sit in one [try]; its [catch] only logs. *)
Definition reconcile : M unit :=
  tryCatch
    (reconcileNewTasks ;;;
     reconcilePlanApprovals env cfg ;;;
     reconcileTestFeedback ;;;
     reconcileRetries ;;;
     reconcileMerges)
    (fun _ => ret tt).

End Entry.

(** Scenarios: the reviewer comments "approve" on [PROJ-1]. *)
Definition proj1Issue : WebhookIssue :=
  mkWebhookIssue "PROJ-1"
    (mkIssueFields "Add health check" "" (Some "In Progress") None None None).

Definition approvalEvent : JiraWebhookPayload :=
  mkJiraWebhookPayload "comment_created" (Some proj1Issue) None
                       (Some (mkJiraComment "approve" 1000)).

(** A tracker whose searches find nothing. *)
Definition nothingFound : Searches := mkSearches (fun _ => []) (fun _ => []).

(** No account to hand issues back to is configured. *)
Definition noOwnerCfg : Config :=
  mkConfig (Some "acct-claude") "claude-bot" None
           "/srv/repo" "/srv/.orchestrator-worktrees" "main" None 2 None 2.

(** The reviewer approved the plan of [PROJ-1] in a comment, and the
    issue is assigned to Claude. *)
Definition approvedInComment : Env :=
  withIssue (fun _ => mkIssue (Some "In Progress") (Some "acct-claude")
                              [mkJiraComment "approve" 950])
            calmEnv.

(** The clock of the tracker is ahead of the clock of the engine: the
    feedback comment on [PROJ-1] carries a time the engine reaches only
    after the re-planning is over. *)
Definition skewedReview : Env :=
  withIssue (fun _ => mkIssue (Some "In Progress") None
                              [mkJiraComment "please add tests" 1010])
            calmEnv.

(** ** More of the services *)

(** *** [StateManager] ([src/services/state.ts]) *)

(** [SELECT * FROM tasks] *)
Definition getAllTasks : M (list TaskRow) :=
  getW (fun w => snd <$> map_to_list (db w)).

(** *** [ClaudeService] ([src/services/claude.ts]) *)

(** [s.indexOf(d)]; [None] stands for -1. *)
Fixpoint indexOf (s d : string) : option nat :=
  if JsString.startsWith s d then Some O
  else match s with
       | EmptyString => None
       | String _ r => S <$> indexOf r d
       end.

Definition PLAN_DELIMITER : string := "===FUNCTIONAL SUMMARY===".
Definition QUESTIONS_DELIMITER : string := "===QUESTIONS===".

(** [PlanResult extends ClaudeResult] *)
Record PlanResult := mkPlanResult {
  pr_result : ClaudeResult;
  technicalPlan : string;
  functionalSummary : string;
  hasQuestions : bool;
  questions : string
}.

Definition parsePlanResult (result : ClaudeResult) : PlanResult :=
  let output := output result in
  match indexOf output QUESTIONS_DELIMITER with
  | Some questionsIndex =>
      let questions :=
        JsString.trim
          (JsString.substring
             (questionsIndex + String.length QUESTIONS_DELIMITER) output) in
      mkPlanResult result "" "" true questions
  | None =>
      match indexOf output PLAN_DELIMITER with
      | None => mkPlanResult result output output false ""
      | Some delimIndex =>
          let technicalPlan :=
            JsString.trim (JsString.take delimIndex output) in
          let functionalSummary :=
            JsString.trim
              (JsString.substring
                 (delimIndex + String.length PLAN_DELIMITER) output) in
          mkPlanResult result technicalPlan functionalSummary false ""
      end
  end.

Section MoreClaude.

Variable env : Env.
Variable cfg : Config.

(** [prepareReworkWorktree]: a worktree for an existing remote branch. *)
Definition prepareReworkWorktree (issueKey branchName : string) : M string :=
  let worktreePath :=
    worktreeBase cfg ++ "/" ++ JsString.slashesToDashes branchName in
  fsOp env ;;;
  gitQuiet env cfg (WorktreeRemove worktreePath) ;;;
  git env cfg (Fetch branchName) ;;;
  gitQuiet env cfg (BranchDelete branchName) ;;;
  git env cfg (WorktreeAdd worktreePath branchName branchName) ;;;
  modW (fun w => set_activeWorktrees
                   (<[issueKey := worktreePath]> (activeWorktrees w)) w) ;;;
  ret worktreePath.

End MoreClaude.

(** ** Classifying and retrying errors ([src/utils/errors.ts]) *)

(** [s.includes(sub)] *)
Fixpoint stringIncludes (s sub : string) : bool :=
  JsString.startsWith s sub ||
  match s with
  | EmptyString => false
  | String _ r => stringIncludes r sub
  end.

(** A property that may hold an HTTP status: absent (or [null]), a
    number, or something else. *)
Inductive StatusField := NoStatus | StatusNumber (n : Z) | StatusOther.

(** The properties of a thrown value the two classifiers read:
    [message], [status], [response.status] and [statusCode]. *)
Record ErrorFields := mkErrorFields {
  e_message : option string;
  e_status : StatusField;
  e_responseStatus : StatusField;
  e_statusCode : StatusField
}.

(** A thrown value: an object, a function (which also carries
    properties), or a primitive ([null] and [undefined] included). *)
Inductive Thrown :=
| ThrownObject (e : ErrorFields)
| ThrownFunction (e : ErrorFields)
| ThrownPrimitive.

Inductive ErrorCategory := Transient | Conflict | Budget | Permanent.

(** [a ?? b] on status properties *)
Definition statusOr (a b : StatusField) : StatusField :=
  match a with NoStatus => b | _ => a end.

(** [status === 429 || status === 502 || status === 503 || status === 504] *)
Definition retryStatus (s : StatusField) : bool :=
  match s with
  | StatusNumber n => ((n =? 429) || (n =? 502) || (n =? 503) || (n =? 504))%Z
  | _ => false
  end.

Definition fieldsOf (error : Thrown) : option ErrorFields :=
  match error with
  | ThrownObject e | ThrownFunction e => Some e
  | ThrownPrimitive => None
  end.

Definition classifyError (error : Thrown) : ErrorCategory :=
  let msg :=
    match fieldsOf error with
    | Some e => JsString.nullish (e_message e) ""
    | None => ""
    end in
  let status :=
    match fieldsOf error with
    | Some e =>
        statusOr (statusOr (e_status e) (e_responseStatus e)) (e_statusCode e)
    | None => NoStatus
    end in
  if retryStatus status then Transient
  else if stringIncludes msg "ECONNRESET" || stringIncludes msg "ETIMEDOUT"
          || stringIncludes msg "ENOTFOUND" || stringIncludes msg "socket hang up"
  then Transient
  else if stringIncludes (JsString.toLowerCase msg) "merge conflict"
          || stringIncludes msg "CONFLICT"
  then Conflict
  else if stringIncludes msg "budget" || stringIncludes msg "max_turns"
          || stringIncludes msg "Budget exceeded"
  then Budget
  else Permanent.

Definition isTransientError (error : Thrown) : bool :=
  match error with
  | ThrownObject e =>
      let status :=
        statusOr (statusOr (e_status e) (e_responseStatus e)) (e_statusCode e) in
      if retryStatus status then true
      else
        let msg := JsString.nullish (e_message e) "" in
        stringIncludes msg "ECONNRESET" || stringIncludes msg "ETIMEDOUT"
        || stringIncludes msg "ENOTFOUND" || stringIncludes msg "socket hang up"
        || stringIncludes msg "network"
  | _ => false
  end.

(** [RetryOptions], with the defaults of [withRetry] filled in by
    [defaultRetry]. *)
Record RetryOptions := mkRetryOptions {
  maxAttempts : Z;
  baseDelayMs : Z;
  maxDelayMs : Z;
  retryableCheck : Error -> bool
}.

Definition defaultRetry (check : Error -> bool) : RetryOptions :=
  mkRetryOptions 3 1000 30000 check.

(** [setTimeout(r, ms)] with a fractional delay: the delay is truncated,
    and a delay outside [1 .. 2^31 - 1] counts as 1. *)
Definition timerDelay (ms : Q) : Z :=
  if Qle_bool 1 ms && Qle_bool ms 2147483647 then Qfloor ms else 1.

(** [Math.min(baseDelayMs * Math.pow(2, attempt - 1), maxDelayMs)] *)
Definition backoff (o : RetryOptions) (attempt : Z) : Z :=
  Z.min (baseDelayMs o * 2 ^ (attempt - 1)) (maxDelayMs o).

(** [delay * (0.5 + Math.random() * 0.5)] *)
Definition jitter (delay : Z) (rnd : Q) : Q :=
  (inject_Z delay * ((1 # 2) + rnd * (1 # 2)))%Q.

Section Retry.

Variable env : Env.
(** [Math.random()], by the number of the next interaction. *)
Variable random : nat -> Q.
Variable A : Type.
Variable fn : M A.
Variable o : RetryOptions.

(** The wait between attempt [attempt] and the next one. *)
Definition retryPause (attempt : Z) : M unit :=
  let* rnd := getW (fun w => random (tick w)) in
  sleep env (timerDelay (jitter (backoff o attempt) rnd)).

(** The [for (attempt = 1; attempt <= maxAttempts; attempt++)] loop;
    [left] is the number of iterations still allowed by the bound.  The
    [throw new Error('Unreachable')] after the loop is an [External] error
    with that message. *)
Fixpoint retryLoop (left : nat) (attempt : Z) : M A :=
  match left with
  | O => throw (External "Unreachable")
  | S left' =>
      tryCatch fn
        (fun error =>
           if (attempt =? maxAttempts o)%Z || negb (retryableCheck o error)
           then throw error
           else retryPause attempt ;;; retryLoop left' (attempt + 1)%Z)
  end.

Definition withRetry : M A := retryLoop (Z.to_nat (maxAttempts o)) 1.

End Retry.

(** * The text of issues and comments

    [JiraService] of [src/services/github.ts]: comments are sent in the
    tracker's document format, built from Markdown by [markdownToAdf], and
    the documents that come back are flattened by [descriptionToText]. *)

Definition nl : string := String "010" EmptyString.

(** [s.split('\n')] *)
Fixpoint splitLines (s : string) : list string :=
  match s with
  | EmptyString => [EmptyString]
  | String c r =>
      if Ascii.eqb c "010" then EmptyString :: splitLines r
      else match splitLines r with
           | l :: ls => String c l :: ls
           | [] => [String c EmptyString]
           end
  end.

(** [parts.join(sep)] *)
Definition join (sep : string) (parts : list string) : string :=
  String.concat sep parts.

Inductive Mark :=
| Strong
| Code
| Link (href : string).

(** [AdfNode]: [attrs] is written only inside marks. *)
#[warnings="-register-all"]
Inductive AdfNode :=
| mkAdfNode (type : string) (text : option string)
            (content : option (list AdfNode)) (marks : option (list Mark)).

Definition n_type (n : AdfNode) : string :=
  match n with mkAdfNode t _ _ _ => t end.
Definition n_text (n : AdfNode) : option string :=
  match n with mkAdfNode _ t _ _ => t end.
Definition n_content (n : AdfNode) : option (list AdfNode) :=
  match n with mkAdfNode _ _ c _ => c end.
Definition n_marks (n : AdfNode) : option (list Mark) :=
  match n with mkAdfNode _ _ _ m => m end.

Record AdfDoc := mkAdfDoc { d_content : list AdfNode }.

(** The [unknown] argument of [descriptionToText], by the tests made on
    it. *)
Inductive Description :=
| Absent                             (* a falsy value *)
| Plain (s : string)                 (* a string *)
| Document (content : list AdfNode)  (* an object with a [content] *)
| Opaque (json : string).            (* any other value; [JSON.stringify] of it *)

Fixpoint extractText (node : AdfNode) : string :=
  match node with
  | mkAdfNode type text content _ =>
      if String.eqb type "text" then JsString.nullish text ""
      else match content with
           | Some c => join "" (map extractText c)
           | None => ""
           end
  end.

(** [(item, i) => `${i + 1}. ${extractText(item)}`], from index [i]. *)
Fixpoint numbered (i : nat) (items : list AdfNode) : list string :=
  match items with
  | [] => []
  | item :: rest =>
      (pretty (i + 1)%nat ++ ". " ++ extractText item)%string
        :: numbered (S i) rest
  end.

Definition blockText (block : AdfNode) : string :=
  let text := extractText block in
  if String.eqb (n_type block) "heading" then (nl ++ "## " ++ text ++ nl)%string
  else if String.eqb (n_type block) "bulletList" then
    join nl (map (fun item => ("- " ++ extractText item)%string)
                 (JsString.nullish (n_content block) []))
  else if String.eqb (n_type block) "orderedList" then
    join nl (numbered 0 (JsString.nullish (n_content block) []))
  else if String.eqb (n_type block) "codeBlock" then
    ("```" ++ nl ++ text ++ nl ++ "```")%string
  else text.

Definition descriptionToText (description : Description) : string :=
  match description with
  | Absent => ""
  | Plain s => s
  | Document content => join (nl ++ nl)%string (map blockText content)
  | Opaque json => json
  end.

(** *** Inline marks

    The expression of [parseInlineMarks] has three alternatives, tried in
    this order at each position: two stars, a lazy non-empty group of
    [.], two stars; a backquote, a lazy non-empty group of characters
    other than the backquote, a backquote; and an opening bracket, a lazy
    non-empty group without closing bracket, a closing bracket and an
    opening parenthesis, a lazy non-empty group without closing
    parenthesis, a closing parenthesis.  A lazy group takes one
    character, tries what follows it in the pattern, and takes one more
    when that fails. *)

(** What [.] does not match: LF, CR, U+2028 and U+2029 (in UTF-8). *)
Definition atLineTerminator (s : string) : bool :=
  JsString.startsWith s nl
  || JsString.startsWith s (String "013" EmptyString)
  || JsString.startsWith s
       (String "226" (String "128" (String "168" EmptyString)))
  || JsString.startsWith s
       (String "226" (String "128" (String "169" EmptyString))).

(** The group of the first alternative and its closing stars: the
    group, and the text after the match. *)
Fixpoint boldBody (s : string) : option (string * string) :=
  match s with
  | EmptyString => None
  | String c r =>
      if atLineTerminator s then None
      else if JsString.startsWith r "**"
           then Some (String c EmptyString, JsString.substring 2 r)
           else match boldBody r with
                | Some (b, rest) => Some (String c b, rest)
                | None => None
                end
  end.

(** The group of the second alternative and its closing backquote. *)
Fixpoint codeBody (s : string) : option (string * string) :=
  match s with
  | EmptyString => None
  | String c r =>
      if Ascii.eqb c "`" then None
      else if JsString.startsWith r "`"
           then Some (String c EmptyString, JsString.substring 1 r)
           else match codeBody r with
                | Some (b, rest) => Some (String c b, rest)
                | None => None
                end
  end.

(** The second group of the third alternative and its closing
    parenthesis. *)
Fixpoint linkHref (s : string) : option (string * string) :=
  match s with
  | EmptyString => None
  | String c r =>
      if Ascii.eqb c ")" then None
      else if JsString.startsWith r ")"
           then Some (String c EmptyString, JsString.substring 1 r)
           else match linkHref r with
                | Some (h, rest) => Some (String c h, rest)
                | None => None
                end
  end.

(** The third alternative after its opening bracket. *)
Fixpoint linkBody (s : string) : option (string * string * string) :=
  match s with
  | EmptyString => None
  | String c r =>
      if Ascii.eqb c "]" then None
      else match (if JsString.startsWith r "]("
                  then linkHref (JsString.substring 2 r) else None) with
           | Some (h, rest) => Some (String c EmptyString, h, rest)
           | None =>
               match linkBody r with
               | Some (l, h, rest) => Some (String c l, h, rest)
               | None => None
               end
           end
  end.

(** A match by its groups: [match[2]], [match[4]], or [match[6]] and
    [match[7]]. *)
Inductive InlineMatch :=
| Bold (inner : string)
| InlineCode (inner : string)
| Hyperlink (label href : string).

(** The expression tried at the start of [s]: the match and the text
    after it. *)
Definition matchAt (s : string) : option (InlineMatch * string) :=
  match (if JsString.startsWith s "**"
         then boldBody (JsString.substring 2 s) else None) with
  | Some (b, rest) => Some (Bold b, rest)
  | None =>
      match (if JsString.startsWith s "`"
             then codeBody (JsString.substring 1 s) else None) with
      | Some (b, rest) => Some (InlineCode b, rest)
      | None =>
          match (if JsString.startsWith s "["
                 then linkBody (JsString.substring 1 s) else None) with
          | Some (l, h, rest) => Some (Hyperlink l h, rest)
          | None => None
          end
      end
  end.

(** [regex.exec(text)] on the text from [lastIndex] on: the text before
    the leftmost match, the match, the text after it. *)
Fixpoint exec (s : string) : option (string * InlineMatch * string) :=
  match matchAt s with
  | Some (m, rest) => Some (EmptyString, m, rest)
  | None =>
      match s with
      | EmptyString => None
      | String c r =>
          match exec r with
          | Some (pre, m, rest) => Some (String c pre, m, rest)
          | None => None
          end
      end
  end.

Definition textNode (text : string) : AdfNode :=
  mkAdfNode "text" (Some text) None None.

Definition markedNode (m : InlineMatch) : AdfNode :=
  match m with
  | Bold inner => mkAdfNode "text" (Some inner) None (Some [Strong])
  | InlineCode inner => mkAdfNode "text" (Some inner) None (Some [Code])
  | Hyperlink label href => mkAdfNode "text" (Some label) None (Some [Link href])
  end.

(** The [while ((match = regex.exec(text)) !== null)] loop and the push
    of the text left after the last match, on the text from [lastIndex]
    on.  Each match is at least three characters long, so [fuel] above
    the length of the text is never used up. *)
Fixpoint marksFrom (fuel : nat) (s : string) : list AdfNode :=
  match fuel with
  | O => []
  | S fuel' =>
      match exec s with
      | Some (pre, m, rest) =>
          (if JsString.truthy pre then [textNode pre] else [])
            ++ markedNode m :: marksFrom fuel' rest
      | None => if JsString.truthy s then [textNode s] else []
      end
  end.

Definition parseInlineMarks (text : string) : list AdfNode :=
  match marksFrom (S (String.length text)) text with
  | [] => [textNode text]
  | nodes => nodes
  end.

(** *** Blocks *)

Definition isFence (line : string) : bool :=
  JsString.startsWith (JsString.trimStart line) "```".

Definition isRule (line : string) : bool :=
  String.eqb (JsString.trim line) "---".

Definition isBlank (line : string) : bool :=
  String.eqb (JsString.trim line) "".

(** The inner loop of a code block: the lines before the next fence, and
    the lines from that fence on. *)
Fixpoint codeLines (lines : list string) : list string * list string :=
  match lines with
  | [] => ([], [])
  | l :: rest =>
      if isFence l then ([], lines)
      else let (code, after) := codeLines rest in (l :: code, after)
  end.

(** The inner loop of a paragraph. *)
Fixpoint paraLines (lines : list string) : list string * list string :=
  match lines with
  | [] => ([], [])
  | l :: rest =>
      if negb (isBlank l) && negb (isRule l) && negb (isFence l)
      then let (para, after) := paraLines rest in (l :: para, after)
      else ([], lines)
  end.

(** The [while (i < lines.length)] loop on the lines from [i] on.  Every
    turn passes at least one line, so [fuel] above the number of lines is
    never used up. *)
Fixpoint blocksFrom (fuel : nat) (lines : list string) : list AdfNode :=
  match fuel with
  | O => []
  | S fuel' =>
      match lines with
      | [] => []
      | line :: rest =>
          if isFence line then
            let (code, after) := codeLines rest in
            mkAdfNode "codeBlock" None (Some [textNode (join nl code)]) None
              :: blocksFrom fuel' (tail after)
          else if isRule line then
            mkAdfNode "rule" None None None :: blocksFrom fuel' rest
          else if isBlank line then blocksFrom fuel' rest
          else
            let (para, after) := paraLines lines in
            mkAdfNode "paragraph" None
                      (Some (parseInlineMarks (join nl para))) None
              :: blocksFrom fuel' after
      end
  end.

Definition markdownToAdf (text : string) : AdfDoc :=
  let lines := splitLines text in
  match blocksFrom (S (length lines)) lines with
  | [] => mkAdfDoc [mkAdfNode "paragraph" None (Some [textNode text]) None]
  | blocks => mkAdfDoc blocks
  end.

(** What the tracker stores for a comment and hands back as its [body]. *)
Definition asBody (doc : AdfDoc) : Description := Document (d_content doc).

(** * The logs of failed jobs

    [GitHubService.getFailedJobLogs] of [src/services/github.ts], request
    by request. *)

Record Job := mkJob {
  job_id : Z;
  job_name : string;
  job_conclusion : option string
}.

(** What the code host answers about jobs: the jobs of the run and the
    text of a log, by the number of the interaction. *)
Record JobAnswers := mkJobAnswers {
  jobsOf : nat -> list Job;
  logOf : nat -> string
}.

(** [j.conclusion === 'failure'] *)
Definition isFailure (j : Job) : bool :=
  match job_conclusion j with
  | Some c => String.eqb c "failure"
  | None => false
  end.

(** [lines.slice(-n)] *)
Definition lastLines (n : nat) (lines : list string) : list string :=
  drop (length lines - n) lines.

(** [logText.split('\n').slice(-200).join('\n')] *)
Definition logTail (logText : string) : string :=
  join nl (lastLines 200 (splitLines logText)).

Definition jobHeader (job : Job) : string :=
  ("=== Job: " ++ job_name job ++ " (id " ++ pretty (job_id job) ++ ") ===")%string.

Section FailedJobLogs.

Variable env : Env.
Variable random : nat -> Q.
(** What [isTransientError] says of the errors of the requests. *)
Variable transient : Error -> bool.
Variable answers : JobAnswers.

(** [withRetry(() => this.octokit...)] with the default options. *)
Definition request : M nat :=
  withRetry env random nat (external env) (defaultRetry transient).

(** One turn of the loop over the failed jobs: what is pushed on [logs]. *)
Definition jobSection (job : Job) : M string :=
  tryCatch
    (let* n := request in
     let logText := logOf answers n in
     ret (jobHeader job ++ nl ++ logTail logText)%string)
    (fun _ => ret (jobHeader job ++ " [log download failed]")%string).

Fixpoint jobSections (failedJobs : list Job) : M (list string) :=
  match failedJobs with
  | [] => ret []
  | job :: rest =>
      let* s := jobSection job in
      let* more := jobSections rest in
      ret (s :: more)
  end.

Definition getFailedJobLogs (runId : Z) : M string :=
  let* n := request in
  let failedJobs := List.filter isFailure (jobsOf answers n) in
  if (length failedJobs =? 0)%nat then ret "No failed jobs found."
  else
    let* logs := jobSections failedJobs in
    ret (join (nl ++ nl)%string logs).

End FailedJobLogs.
(** * Vocabulary of the statements *)

Open Scope list_scope.

(** [sat P R m]: from a world satisfying [P], [m] ends (it returns or
    throws), in a world satisfying [P] again and related to the first
    by [R]. *)
Definition sat (P : World -> Prop) (R : World -> World -> Prop) {A} (m : M A)
  : Prop :=
  forall w, P w ->
    match m w with
    | (Diverge, _) => False
    | (_, w') => P w' /\ R w w'
    end.

(** A computation is [steady] when it ends and leaves the staging lock as
    it found it; it is [sound] when, started with the lock free, it ends
    with the lock free.  Everything except [mergeIntoStaging] is steady. *)
Definition unlocked (w : World) : Prop := stagingLock w = false.
Definition anyWorld (w : World) : Prop := True.

Definition keepingLock (R : World -> World -> Prop) (w w' : World) : Prop :=
  stagingLock w' = stagingLock w /\ R w w'.

Definition steady (R : World -> World -> Prop) {A} (m : M A) : Prop :=
  sat anyWorld (keepingLock R) m.

Definition sound (R : World -> World -> Prop) {A} (m : M A) : Prop :=
  sat unlocked R m.

(** Preorders that only look at the task table, its write log and the
    agent log. *)
Record Observes (R : World -> World -> Prop) : Prop := mkObserves {
  obs_refl : forall w, R w w;
  obs_trans : forall a b c, R a b -> R b c -> R a c;
  obs_frame : forall w w',
      db w' = db w -> dbLog w' = dbLog w -> agentLog w' = agentLog w -> R w w'
}.

(** Relations that accept any agent call. *)
Definition AcceptsAgent (R : World -> World -> Prop) : Prop :=
  forall w c, R w (set_agentLog (agentLog w ++ [c]) w).

(** The time the first [n] sleeps of [pollWorkflowRun] take at least,
    counted from sleep number [idx]. *)
Fixpoint waits (n idx : nat) : Z :=
  match n with
  | O => 0
  | S n' => delayOf idx + waits n' (S idx)
  end.

(** No write to the task table. *)
Definition quietly (w w' : World) : Prop := db w' = db w /\ dbLog w' = dbLog w.

(** [lastly F m]: [m] ends; when it throws the task table is as it was,
    when it returns the table changed as [F] says. *)
Definition lastly (F : World -> World -> Prop) (m : M unit) : Prop :=
  forall w,
    match m w with
    | (Ok _, w') => F w w'
    | (Throw _, w') => quietly w w'
    | (Diverge, _) => False
    end.

(** [yields Q m]: whenever [m] returns, what it returns is in [Q]. *)
Definition yields {A} (Q : A -> Prop) (m : M A) : Prop :=
  forall w, match m w with (Ok a, _) => Q a | _ => True end.

(** [m] ends by throwing, the task table being as it was. *)
Definition fruitless (m : M unit) : Prop := lastly (fun _ _ => False) m.

(** One [upsertTask] of an existing row of [k], with a patch in [P]. *)
Definition wrote (k : string) (P : TaskPatch -> Prop) (w w' : World) : Prop :=
  forall r, db w !! k = Some r ->
    exists p t, P p /\ db w' = <[k := applyPatch p r t]> (db w) /\
                (dbLog w' = dbLog w ++ [Upsert k p])%list.

(** Nothing, or one [deleteTask] of [k]. *)
Definition removed (k : string) (w w' : World) : Prop :=
  quietly w w' \/
  (db w' = delete k (db w) /\ (dbLog w' = dbLog w ++ [Delete k])%list).

Definition afterQuiet (F : World -> World -> Prop) : Prop :=
  forall w w1 w', quietly w w1 -> F w1 w' -> F w w'.

(** [m] always returns. *)
Definition returns {A} (m : M A) : Prop :=
  forall w, exists a w', m w = (Ok a, w').

(** The world after [this.processing.add(k)]. *)
Definition marked (k : string) (w : World) : World :=
  set_processing ({[k]} ∪ processing w) w.

Definition phaseOf (k : string) (w : World) : option TaskPhase :=
  phase <$> db w !! k.

(** The number of plans ([CPlan] comments) posted on issue [k]. *)
Definition isPlanFor (k : string) (c : JiraCall) : bool :=
  match c with
  | AddComment k' (CPlan _) => String.eqb k' k
  | _ => false
  end.

Definition plansPosted (k : string) (l : list JiraCall) : nat :=
  length (List.filter (isPlanFor k) l).

(** [c] ran successfully. *)
Definition ran (c : GitCmd) (l : list GitRun) : bool :=
  existsb (fun r => bool_decide (cmd r = c) && ok r) l.

(** The git commands run between two worlds. *)
Definition newRuns (w w' : World) : list GitRun :=
  drop (length (gitLog w)) (gitLog w').

(** The branch a directory has checked out after the given runs: the one
    of the last successful checkout run in it, or of the [worktree add]
    that created it; none once the worktree is removed. *)
Definition headStep (dir : string) (head : option string) (r : GitRun)
  : option string :=
  if ok r then
    match cmd r with
    | Checkout b | CheckoutNew b =>
        if String.eqb (cwd r) dir then Some b else head
    | WorktreeAdd path b _ => if String.eqb path dir then Some b else head
    | WorktreeRemove path => if String.eqb path dir then None else head
    | _ => head
    end
  else head.

Definition checkedOut (dir : string) (l : list GitRun) : option string :=
  fold_left (headStep dir) l None.

(** A run in [dir] that neither adds nor removes a worktree: a checkout,
    merge, fetch, pull or push there does not move the head of another
    directory. *)
Definition staysIn (dir : string) (r : GitRun) : Prop :=
  cwd r = dir /\
  match cmd r with WorktreeAdd _ _ _ | WorktreeRemove _ => False | _ => True end.

Definition isPush (c : GitCmd) : bool :=
  match c with
  | PushU _ | Push _ => true
  | _ => false
  end.

(** What holds between turns. *)
Definition betweenTurns (env : Env) (cfg : Config) (branches : list string)
    (w : World) (st : list MergeCall * World) : Prop :=
  unlocked st.2 /\
  exists order,
    NoDup order /\ st.2 = serial env cfg branches order w /\
    forall i,
      (i ∈ order -> exists r, r <> Diverge /\ st.1 !! i = Some (Returned r)) /\
      (i ∉ order -> st.1 !! i = NotStarted <$> branches !! i).

(** The number of agent invocations made to fix a build, and the number
    of merge commands run. *)
Definition fixCalls (l : list AgentCall) : nat :=
  length (List.filter (fun c => bool_decide (a_mode c = FixBuildMode)) l).

Definition isMerge (c : GitCmd) : nat :=
  match c with MergeNoEdit _ => 1 | _ => 0 end.

Definition merges (l : list GitRun) : nat :=
  list_sum (map (fun r => isMerge (cmd r)) l).

(** Every row is stored under its own issue key. *)
Definition wellKeyed (m : gmap string TaskRow) : Prop :=
  forall j r, m !! j = Some r -> issue_key r = j.

Definition keyOf (wr : DbWrite) : string :=
  match wr with Upsert k _ => k | Delete k => k end.

(** The writes that set the phase of [k] to [approved]. *)
Definition isApproval (k : string) (wr : DbWrite) : bool :=
  match wr with
  | Upsert k' p => String.eqb k' k && bool_decide (p_phase p = Some Approved)
  | Delete _ => false
  end.

Definition approvals (k : string) (l : list DbWrite) : nat :=
  length (List.filter (isApproval k) l).

(** The writes made between two worlds. *)
Definition newWrites (w w' : World) : list DbWrite :=
  drop (length (dbLog w)) (dbLog w').

(** Relations between the worlds before and after a computation:
    - [keyed]: rows stay under their keys;
    - [others k]: nothing is written for [k];
    - [noApproval k]: no write approves [k];
    - [advanced k]: no write approves [k], and [k] does not come back to
      [plan-posted];
    - [handled k]: at most one write approves [k], and after it [k] is not
      in [plan-posted]. *)
Definition keyed (w w' : World) : Prop := wellKeyed (db w) -> wellKeyed (db w').

Definition others (k : string) (w w' : World) : Prop :=
  exists l, dbLog w' = dbLog w ++ l /\ (forall wr, wr ∈ l -> keyOf wr <> k) /\
            db w' !! k = db w !! k.

Definition noApproval (k : string) (w w' : World) : Prop :=
  exists l, dbLog w' = dbLog w ++ l /\ approvals k l = 0%nat.

Definition advanced (k : string) (w w' : World) : Prop :=
  exists l, dbLog w' = dbLog w ++ l /\ approvals k l = 0%nat /\
            (phaseOf k w <> Some PlanPosted -> phaseOf k w' <> Some PlanPosted).

Definition handled (k : string) (w w' : World) : Prop :=
  exists l, dbLog w' = dbLog w ++ l /\ (approvals k l <= 1)%nat /\
            (approvals k l = 1%nat -> phaseOf k w' <> Some PlanPosted).


(** The three interactions of a re-planning that posts a new plan, the
    first of them being interaction number [n]: the tracker takes the
    "adjusting" comment, the agent ends normally, the tracker takes the
    new plan. *)
Definition replanSucceeds (env : Env) (n : nat) : Prop :=
  fails env n = None /\ ending (conversation env (S n)) = None /\
  fails env (S (S n)) = None.

(** The watermark of [k]: its [plan_posted_at]. *)
Definition watermark (k : string) (w : World) : option (option Z) :=
  plan_posted_at <$> db w !! k.

(** ** What a computation may do

    A [Policy] says which calls may reach the tracker, the code host, git
    and the agent, which writes may reach the task table, and whether the
    set of keys being processed must come back to what it was. *)
Record Policy := mkPolicy {
  okJira : JiraCall -> Prop;
  okGitHub : GitHubCall -> Prop;
  okGit : GitRun -> Prop;
  okAgent : AgentCall -> Prop;
  okWrite : DbWrite -> Prop;
  okMarks : gset string -> gset string -> Prop
}.

(** [l'] is [l] followed by entries in [P]. *)
Definition grown {A} (P : A -> Prop) (l l' : list A) : Prop :=
  exists d, l' = l ++ d /\ Forall P d.

(** The logs only grew, by entries the policy allows, and the clock did
    not go back. *)
Definition within (pol : Policy) (w w' : World) : Prop :=
  grown (okJira pol) (jiraLog w) (jiraLog w') /\
  grown (okGitHub pol) (githubLog w) (githubLog w') /\
  grown (okGit pol) (gitLog w) (gitLog w') /\
  grown (okAgent pol) (agentLog w) (agentLog w') /\
  grown (okWrite pol) (dbLog w) (dbLog w') /\
  okMarks pol (processing w) (processing w') /\
  (tick w <= tick w')%nat /\ (now w <= now w')%Z.

(** [keeps R m]: whenever [m] ends, by returning or by throwing, the worlds
    before and after are related by [R]. *)
Definition keeps (R : World -> World -> Prop) {A} (m : M A) : Prop :=
  forall w,
    match m w with
    | (Diverge, _) => True
    | (_, w') => R w w'
    end.

Definition anything {A} (a : A) : Prop := True.
Definition nothing {A} (a : A) : Prop := False.
Definition anyMarks (s s' : gset string) : Prop := True.
Definition sameMarks (s s' : gset string) : Prop := s' = s.

(** The issue a tracker call is about. *)
Definition issueOf (c : JiraCall) : string :=
  match c with
  | TransitionIssue k _ | AddComment k _ | AssignIssue k _
  | AddLabel k _ | RemoveLabel k _ | GetIssue k => k
  end.

(** Policies of the handlers of task [k]. *)
Definition aboutIssue (k : string) (c : JiraCall) : Prop := issueOf c = k.

Definition upsertOf (k : string) (wr : DbWrite) : Prop :=
  exists p, wr = Upsert k p.

Definition deleteOf (k : string) (wr : DbWrite) : Prop := wr = Delete k.

(** The calls of [handleMerge]. *)
Definition merging (c : GitHubCall) : Prop :=
  match c with
  | GetPullRequest _ | MergePullRequest _ _ | DeleteBranch _ => True
  | _ => False
  end.

(** Git commands that record or publish no change: no commit, no merge,
    no push. *)
Definition harmless (r : GitRun) : Prop :=
  match cmd r with
  | CommitF _ | PushU _ | Push _ | MergeNoEdit _ | MergeAbort => False
  | _ => True
  end.

Definition planning (a : AgentCall) : Prop := a_mode a = PlanMode.
Definition coding (a : AgentCall) : Prop := a_mode a <> PlanMode.

(** A new task: the tracker about [k] and the agent in plan mode; no
    git, nothing on the code host, no write to the task table. *)
Definition newTaskPolicy (k : string) : Policy :=
  mkPolicy (aboutIssue k) nothing nothing planning nothing sameMarks.

(** Planning again: the same, and upserts of the row of [k]. *)
Definition planPolicy (k : string) : Policy :=
  mkPolicy (aboutIssue k) nothing nothing planning (upsertOf k) sameMarks.

(** Implementation and rework: the tracker about [k], nothing on the code
    host, git commands that neither commit nor merge nor push, the agent
    out of plan mode, upserts of the row of [k]. *)
Definition buildPolicy (k : string) : Policy :=
  mkPolicy (aboutIssue k) nothing harmless coding (upsertOf k) sameMarks.

(** The final merge: no git, no agent, the row of [k] deleted at most. *)
Definition mergePolicy (k : string) : Policy :=
  mkPolicy (aboutIssue k) merging nothing nothing (deleteOf k) sameMarks.

Definition rowOf (k : string) (wr : DbWrite) : Prop := keyOf wr = k.

(** An event about issue [k]: the tracker about [k], writes to the row of
    [k]. *)
Definition issuePolicy (k : string) : Policy :=
  mkPolicy (aboutIssue k) anything anything anything (rowOf k) sameMarks.

(** A reconciliation pass: the marks come back to what they were. *)
Definition passPolicy : Policy :=
  mkPolicy anything anything anything anything anything sameMarks.

(** Reading issues, and nothing else. *)
Definition readingIssue (c : JiraCall) : Prop :=
  match c with GetIssue _ => True | _ => False end.

Definition quietPolicy : Policy :=
  mkPolicy readingIssue nothing nothing nothing nothing sameMarks.

(** ** Shapes of strings *)

Fixpoint allChars (P : ascii -> bool) (s : string) : bool :=
  match s with
  | EmptyString => true
  | String c r => P c && allChars P r
  end.

Definition isDash (c : ascii) : bool := Ascii.eqb c "-".

Definition startsWithDash (s : string) : bool :=
  match s with
  | String c _ => isDash c
  | EmptyString => false
  end.

(** No two dashes in a row. *)
Fixpoint noDoubleDash (s : string) : bool :=
  match s with
  | EmptyString => true
  | String c r => negb (isDash c && startsWithDash r) && noDoubleDash r
  end.

(** A character a slug may hold: [a-z], [0-9] or a dash. *)
Definition slugOrDash (c : ascii) : bool := JsString.isSlugChar c || isDash c.

(** ** Attempts of [withRetry]

    [Tries fn pause a n w r w']: starting in [w] with attempt number [a],
    [n] calls of [fn] were made; all but the last threw an error the
    check accepts, each followed by the pause of its attempt; the last one
    ended with [r] in [w']. *)
Inductive Tries {A} (fn : M A) (check : Error -> bool)
    (pause : Z -> World -> World)
  : Z -> nat -> World -> Outcome A -> World -> Prop :=
| tries_last a w r w' :
    fn w = (r, w') -> Tries fn check pause a 1 w r w'
| tries_more a n w e w1 r w' :
    fn w = (Throw e, w1) -> check e = true ->
    Tries fn check pause (a + 1)%Z n (pause a w1) r w' ->
    Tries fn check pause a (S n) w r w'.

(** The world after the pause that follows attempt [a]. *)
Definition pauseWorld (env : Env) (random : nat -> Q) (o : RetryOptions)
    (a : Z) (w : World) : World :=
  (retryPause env random o a w).2.

(** ** What the events of an agent run say

    The output text an event carries (a non-empty assistant turn or a
    non-empty result text), the session it announces, and the cost a result
    event reports ([null] when it reports none). *)
Definition eventText (e : SdkEvent) : option string :=
  match e with
  | EvAssistant (Some blocks) => JsString.orNull (turnText blocks)
  | EvResult _ _ _ (Some t) => JsString.orNull t
  | _ => None
  end.

Definition eventSession (e : SdkEvent) : option string :=
  match e with
  | EvSystem s => s
  | EvResult s _ _ _ => s
  | _ => None
  end.

Definition eventCost (e : SdkEvent) : option (option Q) :=
  match e with
  | EvResult _ c1 c2 _ => Some (orElse c1 c2)
  | _ => None
  end.

(** ** Shapes of documents *)

(** A text node with a text that is not empty. *)
Definition solidText (n : AdfNode) : bool :=
  String.eqb (n_type n) "text"
  && match n_text n with Some t => JsString.truthy t | None => false end.

(** A paragraph holds at least one node, all of them solid text. *)
Definition solidBlock (b : AdfNode) : bool :=
  if String.eqb (n_type b) "paragraph" then
    match n_content b with
    | Some (n :: ns) => forallb solidText (n :: ns)
    | _ => false
    end
  else String.eqb (n_type b) "codeBlock" || String.eqb (n_type b) "rule".

(** Characters that start no inline mark. *)
Definition plainChar (c : ascii) : bool :=
  negb (Ascii.eqb c "*" || Ascii.eqb c "`" || Ascii.eqb c "[").

(** A line that continues a paragraph. *)
Definition plainLine (l : string) : bool :=
  negb (isBlank l) && negb (isRule l) && negb (isFence l).

(** A text without equals sign. *)
Definition notEquals (c : ascii) : bool := negb (Ascii.eqb c "=").

(** A text without line feed. *)
Definition oneLine (l : string) : bool :=
  allChars (fun c => negb (Ascii.eqb c "010")) l.
(** * Reasoning about computations *)

Section Sat.

Variable P : World -> Prop.
Variable R : World -> World -> Prop.
Hypothesis R_refl : forall w, R w w.
Hypothesis R_trans : forall a b c, R a b -> R b c -> R a c.

Lemma sat_ret {A} (a : A) : sat P R (ret a).
Proof. intros w HP; simpl; auto. Qed.

Lemma sat_throw {A} (e : Error) : sat P R (@throw A e).
Proof. intros w HP; simpl; auto. Qed.

Lemma sat_getW {A} (f : World -> A) : sat P R (getW f).
Proof. intros w HP; simpl; auto. Qed.

Lemma sat_bind {A B} (m : M A) (k : A -> M B) :
  sat P R m -> (forall a, sat P R (k a)) -> sat P R (bind m k).
Proof.
  intros Hm Hk w HP. unfold bind. specialize (Hm w HP).
  destruct (m w) as [[a | e |] w1]; try tauto.
  destruct Hm as [HP1 HR1]. specialize (Hk a w1 HP1).
  destruct (k a w1) as [[b | e |] w2]; intuition eauto.
Qed.

Lemma sat_tryCatch {A} (body : M A) (handler : Error -> M A) :
  sat P R body -> (forall e, sat P R (handler e)) -> sat P R (tryCatch body handler).
Proof.
  intros Hm Hk w HP. unfold tryCatch. specialize (Hm w HP).
  destruct (body w) as [[a | e |] w1]; try tauto.
  destruct Hm as [HP1 HR1]. specialize (Hk e w1 HP1).
  destruct (handler e w1) as [[b | e' |] w2]; intuition eauto.
Qed.

Lemma sat_tryFinally {A} (body : M A) (fin : M unit) :
  sat P R body -> sat P R fin -> sat P R (tryFinally body fin).
Proof.
  intros Hm Hk w HP. unfold tryFinally. specialize (Hm w HP).
  destruct (body w) as [[a | e |] w1]; try tauto;
    destruct Hm as [HP1 HR1]; specialize (Hk w1 HP1);
    destruct (fin w1) as [[b | e' |] w2]; intuition eauto.
Qed.

Lemma sat_forEach {A} (l : list A) (body : A -> M unit) :
  (forall x, x ∈ l -> sat P R (body x)) -> sat P R (forEach l body).
Proof.
  induction l as [| x l IH]; intros H; simpl.
  - apply sat_ret.
  - apply sat_bind; [apply H; left | intros _; apply IH].
    intros y Hy; apply H; right; exact Hy.
Qed.

Lemma sat_when (b : bool) (m : M unit) : sat P R m -> sat P R (when b m).
Proof. intros H; destruct b; simpl; [exact H | apply sat_ret]. Qed.

End Sat.

(** Strengthening the invariant and weakening the relation. *)
Lemma sat_weaken (P P' : World -> Prop) (R R' : World -> World -> Prop)
    {A} (m : M A) :
  (forall w, P' w -> P w) ->
  (forall w w', P' w -> P w' -> R w w' -> P' w' /\ R' w w') ->
  sat P R m -> sat P' R' m.
Proof.
  intros HPP HRR Hm w HP'. specialize (Hm w (HPP w HP')).
  destruct (m w) as [[a | e |] w1]; try tauto; destruct Hm; eauto.
Qed.

(** ** Steady and sound computations

    A computation is [steady] when it ends and leaves the staging lock as
    it found it; it is [sound] when, started with the lock free, it ends
    with the lock free.  Everything except [mergeIntoStaging] is steady. *)

Lemma keepingLock_refl R : Observes R -> forall w, keepingLock R w w.
Proof. intros H w; split; [reflexivity | apply (obs_refl R H)]. Qed.

Lemma keepingLock_trans R :
  Observes R -> forall a b c, keepingLock R a b -> keepingLock R b c -> keepingLock R a c.
Proof.
  intros H a b c [L1 R1] [L2 R2]; split; [congruence |].
  eapply (obs_trans R H); eassumption.
Qed.

Lemma steady_sound R {A} (m : M A) : steady R m -> sound R m.
Proof.
  apply sat_weaken; [intros; exact I |].
  unfold unlocked, keepingLock; intros w w' Hw _ [HL HR]; split; [congruence | exact HR].
Qed.

Create HintDb orch discriminated.

(** Reflexivity and transitivity side conditions of the [sat] rules. *)
Ltac rel_side :=
  solve
    [ assumption
    | apply keepingLock_refl; eauto with orch
    | apply keepingLock_trans; eauto with orch
    | refine (obs_refl _ _); eauto with orch
    | refine (obs_trans _ _); eauto with orch ].

(** One step of structural decomposition of a [sat] goal. *)
Ltac sat_step :=
  first
    [ apply sat_ret; rel_side
    | apply sat_throw; rel_side
    | apply sat_getW; rel_side
    | apply sat_bind; [rel_side | | intros ?]
    | apply sat_tryCatch; [rel_side | | intros ?]
    | apply sat_tryFinally; [rel_side | |]
    | match goal with
      | |- sat _ _ (let _ := _ in _) => cbv zeta
      | |- sat _ _ (if ?b then _ else _) => destruct b
      | |- sat _ _ (match ?x with _ => _ end) => destruct x
      end ].

Ltac sat_go := unfold steady, sound in *; repeat sat_step.

Section Steady.

Variable env : Env.
Variable cfg : Config.
Variable R : World -> World -> Prop.
Hypothesis HR : Observes R.
Hypothesis HA : AcceptsAgent R.

(** A state change that touches neither the lock nor what [R] observes. *)
Lemma steady_modW (f : World -> World) :
  (forall w, stagingLock (f w) = stagingLock w /\ db (f w) = db w /\
             dbLog (f w) = dbLog w /\ agentLog (f w) = agentLog w) ->
  steady R (modW f).
Proof.
  intros H w _; simpl. destruct (H w) as (? & ? & ? & ?).
  repeat split; auto. apply (obs_frame R HR); auto.
Qed.

Lemma steady_interact : steady R (interact env).
Proof.
  intros w _; simpl. repeat split; auto. apply (obs_frame R HR); reflexivity.
Qed.

Lemma steady_sleep ms : steady R (sleep env ms).
Proof.
  intros w _; simpl. repeat split; auto. apply (obs_frame R HR); reflexivity.
Qed.

Ltac leaf :=
  first [ apply steady_interact | apply steady_sleep
        | apply steady_modW; intros ?; solve [repeat split; reflexivity] ].

Lemma steady_external : steady R (external env).
Proof. unfold external. sat_go; leaf. Qed.

Lemma steady_dateNow : steady R dateNow.
Proof. unfold dateNow; sat_go. Qed.

Lemma steady_jira c : steady R (jira env c).
Proof. unfold jira. sat_go; leaf. Qed.

Lemma steady_github c : steady R (github env c).
Proof. unfold github. sat_go; leaf. Qed.

Lemma steady_githubDeleteBranch ref : steady R (githubDeleteBranch env ref).
Proof. unfold githubDeleteBranch. sat_go; leaf. Qed.

Lemma steady_fsOp : steady R (fsOp env).
Proof. unfold fsOp. sat_go; leaf. Qed.

Lemma steady_getTask k : steady R (getTask k).
Proof. unfold getTask; sat_go. Qed.

Lemma steady_getTasksByPhase ph : steady R (getTasksByPhase ph).
Proof. unfold getTasksByPhase; sat_go. Qed.

Lemma steady_isProcessing k : steady R (isProcessing k).
Proof. unfold isProcessing; sat_go. Qed.

Lemma steady_processingAdd k : steady R (processingAdd k).
Proof. apply steady_modW; intros w; auto. Qed.

Lemma steady_processingDelete k : steady R (processingDelete k).
Proof. apply steady_modW; intros w; auto. Qed.

Lemma steady_gitAt dir c : steady R (gitAt env dir c).
Proof. unfold gitAt. sat_go; leaf. Qed.

Lemma steady_git c : steady R (git env cfg c).
Proof. apply steady_gitAt. Qed.

Lemma steady_gitQuiet c : steady R (gitQuiet env cfg c).
Proof. unfold gitQuiet. sat_go; leaf. Qed.

Lemma steady_assignIfSet k id : steady R (assignIfSet env k id).
Proof. unfold assignIfSet. sat_go; leaf. Qed.

Lemma steady_getAssignBackId k : steady R (getAssignBackId cfg k).
Proof. unfold getAssignBackId. sat_go. Qed.

Lemma steady_createBranch k s : steady R (createBranch env cfg k s).
Proof. unfold createBranch. sat_go; leaf. Qed.

Lemma steady_gitIn wt c : steady R (gitIn env wt c).
Proof. apply steady_gitAt. Qed.

Lemma steady_commitMsgFile wt : steady R (commitMsgFile wt).
Proof. unfold commitMsgFile. sat_go. Qed.

Lemma steady_commitAndPush wt push why :
  steady R (commitAndPush env wt push why).
Proof.
  unfold commitAndPush. sat_go;
    first [leaf | apply steady_gitIn | apply steady_commitMsgFile
          | apply steady_fsOp].
Qed.

Lemma steady_smokeTestStaging : steady R (smokeTestStaging env cfg).
Proof. unfold smokeTestStaging. sat_go; leaf. Qed.

Lemma steady_runClaudeSDK mode dir resume :
  steady R (runClaudeSDK env cfg mode dir resume).
Proof.
  unfold runClaudeSDK.
  apply sat_bind; [rel_side | apply steady_interact | intros n].
  apply sat_bind; [rel_side | | intros _].
  { intros w _; simpl; repeat split; try reflexivity. apply HA. }
  destruct (iterate _ _) as [[[out sid] cost] [[| message] |]]; sat_go.
Qed.

Lemma steady_cleanupWorktree k : steady R (cleanupWorktree env cfg k).
Proof. unfold cleanupWorktree. sat_go; leaf. Qed.

Lemma steady_cleanup : steady R (cleanup env cfg).
Proof.
  unfold cleanup. sat_go; try leaf.
  apply sat_forEach; try rel_side.
  intros x _; apply steady_cleanupWorktree.
Qed.

Ltac steady_base :=
  first [ apply steady_interact | apply steady_sleep | apply steady_external
        | apply steady_dateNow | apply steady_jira | apply steady_github
        | apply steady_githubDeleteBranch | apply steady_fsOp
        | apply steady_getTask | apply steady_getTasksByPhase
        | apply steady_isProcessing | apply steady_processingAdd
        | apply steady_processingDelete | apply steady_gitAt
        | apply steady_git | apply steady_gitQuiet | apply steady_assignIfSet
        | apply steady_getAssignBackId | apply steady_createBranch
        | apply steady_gitIn | apply steady_commitMsgFile
        | apply steady_commitAndPush | apply steady_smokeTestStaging
        | apply steady_runClaudeSDK | apply steady_cleanupWorktree
        | apply steady_cleanup ].

(** *** The polling loop ends within its fuel *)

Lemma pollLoop_S (fuel : nat) (runId start : Z) (idx : nat) :
  pollLoop env (S fuel) runId start idx =
    (let* t := dateNow in
     if (t - start <? maxPollTime)%Z then
       let* n := github env (GetWorkflowRunStatus runId) in
       let '(status, concl) := runState env n in
       if String.eqb status "completed" then
         ret (mkPollResult
                (match concl with
                 | Some c => String.eqb c "success"
                 | None => false
                 end) concl)
       else
         sleep env (delayOf idx) ;;;
         pollLoop env fuel runId start (S idx)
     else ret (mkPollResult false (Some "timed_out"))).
Proof. reflexivity. Qed.

Lemma pollLoop_ends (fuel : nat) :
  forall (idx : nat) (runId start : Z) (w : World),
    (maxPollTime <= now w - start + waits fuel idx)%Z ->
    match pollLoop env (S fuel) runId start idx w with
    | (Diverge, _) => False
    | (_, w') => keepingLock R w w'
    end.
Proof.
  induction fuel as [| fuel IH]; intros idx runId start w Hb.
  - simpl in Hb. rewrite pollLoop_S. unfold bind, dateNow, getW.
    destruct (now w - start <? maxPollTime)%Z eqn:E; [apply Z.ltb_lt in E; lia |].
    simpl. apply keepingLock_refl, HR.
  - rewrite pollLoop_S. unfold bind at 1. unfold dateNow, getW.
    destruct (now w - start <? maxPollTime)%Z eqn:E;
      [| simpl; apply keepingLock_refl, HR].
    unfold bind at 1.
    pose proof (steady_github (GetWorkflowRunStatus runId) w I) as Hg.
    assert (Ht : (now w <= now (github env (GetWorkflowRunStatus runId) w).2)%Z).
    { unfold github, external, interact, bind, modW, ret, throw.
      destruct (fails env (tick w)); simpl; lia. }
    destruct (github env (GetWorkflowRunStatus runId) w) as [[n | e |] w1];
      try tauto.
    destruct Hg as [_ Hg]. simpl in Ht.
    destruct (runState env n) as [status concl].
    destruct (String.eqb status "completed"); [exact Hg |].
    unfold bind at 1. unfold sleep at 1.
    set (w2 := set_clock _ _ w1).
    specialize (IH (S idx) runId start w2).
    assert (Hb2 : (maxPollTime <= now w2 - start + waits fuel (S idx))%Z).
    { subst w2. simpl in *. lia. }
    specialize (IH Hb2).
    destruct (pollLoop env (S fuel) runId start (S idx) w2) as [[a | e |] w3];
      try tauto; (eapply keepingLock_trans; [exact HR | | exact IH]);
      (eapply keepingLock_trans; [exact HR | exact Hg |]);
      subst w2; split; try reflexivity; apply (obs_frame R HR); reflexivity.
Qed.

Lemma steady_pollWorkflowRun k runId : steady R (pollWorkflowRun env k runId).
Proof.
  intros w _. unfold pollWorkflowRun, bind, dateNow, getW.
  pose proof (pollLoop_ends 12 0 runId (now w) w) as H.
  assert (Hw : waits 12 0 = 645000%Z) by reflexivity.
  assert (Hb : (maxPollTime <= now w - now w + waits 12 0)%Z)
    by (rewrite Hw; unfold maxPollTime; lia).
  specialize (H Hb). unfold pollFuel.
  destruct (pollLoop env 13 runId (now w) 0 w) as [[a | e |] w3]; try tauto;
    split; auto; exact I.
Qed.

Lemma steady_findRunLoop tries wf t : steady R (findRunLoop env tries wf t).
Proof.
  induction tries as [| tries IH]; simpl; unfold steady in *;
    repeat first [ exact IH | steady_base | sat_step ].
Qed.

(** *** Staging merges *)

Lemma mergeLocked_ends b w :
  match mergeLocked env cfg b w with
  | (Diverge, _) => False
  | (_, w') => stagingLock w' = false /\ R w w'
  end.
Proof.
  unfold mergeLocked, tryFinally.
  match goal with |- context [?body w] =>
    assert (Hb : steady R body)
      by (unfold steady; repeat first [ steady_base | sat_step ]);
    specialize (Hb w I); destruct (body w) as [[a | e |] w1]
  end; try tauto; simpl; destruct Hb as [_ [_ Hb]]; split; auto;
    (eapply (obs_trans R HR); [exact Hb |]); apply (obs_frame R HR); reflexivity.
Qed.

Lemma sound_mergeIntoStaging b : sound R (mergeIntoStaging env cfg b).
Proof.
  intros w Hw. unfold mergeIntoStaging. rewrite Hw.
  unfold bind, modW.
  pose proof (mergeLocked_ends b (set_stagingLock true w)) as H.
  destruct (mergeLocked env cfg b (set_stagingLock true w)) as [[a | e |] w1];
    try tauto; destruct H as [HL H]; split; auto;
    (eapply (obs_trans R HR); [| exact H]); apply (obs_frame R HR); reflexivity.
Qed.

(** A merge that is not awaited ends at once and leaves the lock as it
    found it: held, nothing runs; free, the merge runs to its end and
    frees the lock again. *)
Lemma steady_unawaited_merge b :
  steady R (unawaited (mergeIntoStaging env cfg b)).
Proof.
  intros w _. unfold unawaited, mergeIntoStaging.
  destruct (stagingLock w) eqn:Hl.
  - split; [exact I |]. apply keepingLock_refl, HR.
  - unfold bind, modW.
    pose proof (mergeLocked_ends b (set_stagingLock true w)) as H.
    destruct (mergeLocked env cfg b (set_stagingLock true w))
      as [[a | e |] w1]; try tauto; destruct H as [HL H];
      (split; [exact I |]); (split; [congruence |]);
      (eapply (obs_trans R HR); [| exact H]); apply (obs_frame R HR);
      reflexivity.
Qed.

Ltac steady_lemma :=
  first [ steady_base | apply steady_pollWorkflowRun | apply steady_findRunLoop
        | apply steady_unawaited_merge ].

Ltac sound_lemma :=
  first [ apply steady_sound; steady_lemma | apply sound_mergeIntoStaging ].

Ltac orch :=
  unfold steady, sound in *;
  repeat first [ steady_lemma | sound_lemma | sat_step ].

Lemma steady_fixBuildFailure k s b logs attempt wt :
  steady R (fixBuildFailure env cfg k s b logs attempt wt).
Proof. unfold fixBuildFailure. orch. Qed.

Lemma steady_attemptLoop left :
  forall attempt wf k b s, steady R (attemptLoop env cfg left attempt wf k b s).
Proof.
  induction left as [| left IH]; intros; simpl.
  - orch.
  - unfold steady in *.
    repeat first [ steady_lemma | apply steady_fixBuildFailure | apply IH
                 | sat_step ].
Qed.

Lemma steady_waitForStagingWorkflow k b s :
  steady R (waitForStagingWorkflow env cfg k b s).
Proof.
  unfold waitForStagingWorkflow.
  destruct (actionsWorkflowFile cfg); [| orch].
  destruct (negb _); [orch |]. apply steady_attemptLoop.
Qed.

End Steady.

(** The same automation for use with a given relation: leaves are closed
    by the lemmas above, the rest by the structural rules. *)
Ltac steady_lemma :=
  first [ apply steady_interact | apply steady_sleep | apply steady_external
        | apply steady_dateNow | apply steady_jira | apply steady_github
        | apply steady_githubDeleteBranch | apply steady_fsOp
        | apply steady_getTask | apply steady_getTasksByPhase
        | apply steady_isProcessing | apply steady_processingAdd
        | apply steady_processingDelete | apply steady_gitAt
        | apply steady_git | apply steady_gitQuiet | apply steady_assignIfSet
        | apply steady_getAssignBackId | apply steady_createBranch
        | apply steady_gitIn | apply steady_commitMsgFile
        | apply steady_commitAndPush | apply steady_smokeTestStaging
        | apply steady_runClaudeSDK | apply steady_cleanupWorktree
        | apply steady_cleanup | apply steady_pollWorkflowRun
        | apply steady_findRunLoop | apply steady_fixBuildFailure
        | apply steady_unawaited_merge | apply steady_attemptLoop
        | apply steady_waitForStagingWorkflow ];
  solve [eauto with orch].

Ltac sound_lemma :=
  first [ apply steady_sound; steady_lemma
        | apply sound_mergeIntoStaging; solve [eauto with orch] ].

Ltac orch :=
  unfold steady, sound in *;
  repeat first [ steady_lemma | sound_lemma | sat_step ].


(** ** Quiet computations and final writes *)

Lemma quietly_observes : Observes quietly.
Proof.
  split; unfold quietly.
  - auto.
  - intros a b c [H1 H2] [H3 H4]; split; congruence.
  - auto.
Qed.

Lemma quietly_agent : AcceptsAgent quietly.
Proof. intros w c; split; reflexivity. Qed.

#[export] Hint Resolve quietly_observes quietly_agent : orch.

Lemma wrote_afterQuiet k P : afterQuiet (wrote k P).
Proof.
  intros w w1 w' [Hd Hl] H r Hr. rewrite <- Hd in Hr.
  destruct (H r Hr) as (p & t & HP & H1 & H2).
  exists p, t. rewrite <- Hd, <- Hl. auto.
Qed.

Lemma removed_afterQuiet k : afterQuiet (removed k).
Proof.
  intros w w1 w' [Hd Hl] [[H1 H2] | [H1 H2]]; [left | right];
    split; congruence.
Qed.

Lemma never_afterQuiet : afterQuiet (fun _ _ => False).
Proof. intros w w1 w' _ []. Qed.

#[export] Hint Resolve wrote_afterQuiet removed_afterQuiet never_afterQuiet : orch.

(** [m] is quiet, and what follows it behaves as [F] says on each value
    [m] can return. *)
Lemma lastly_bind_yields F {A} (Q : A -> Prop) (m : M A) (k : A -> M unit) :
  afterQuiet F -> steady quietly m -> yields Q m ->
  (forall a, Q a -> lastly F (k a)) ->
  lastly F (bind m k).
Proof.
  intros HF Hm HQ Hk w. unfold bind. specialize (Hm w I). specialize (HQ w).
  destruct (m w) as [[a | e |] w1]; try tauto.
  - destruct Hm as [_ [_ Hq]]. specialize (Hk a HQ w1).
    destruct (k a w1) as [[[] | e |] w2]; try tauto.
    + eapply HF; eauto.
    + eapply (obs_trans _ quietly_observes); eauto.
  - destruct Hm as [_ [_ Hq]]. exact Hq.
Qed.

Lemma lastly_bind F {A} (m : M A) (k : A -> M unit) :
  afterQuiet F -> steady quietly m -> (forall a, lastly F (k a)) ->
  lastly F (bind m k).
Proof.
  intros HF Hm Hk.
  apply (lastly_bind_yields F (fun _ => True)); auto.
  intros w. destruct (m w) as [[a | e |] w1]; exact I.
Qed.

Lemma lastly_throw F e : lastly F (throw e).
Proof. intros w; simpl; split; reflexivity. Qed.

Lemma lastly_ret F : (forall w, F w w) -> lastly F (ret tt).
Proof. intros H w; simpl; auto. Qed.

Lemma lastly_upsert k (P : TaskPatch -> Prop) p :
  P p -> lastly (wrote k P) (upsertTask k p).
Proof.
  intros HP w. unfold upsertTask.
  destruct (unknownColumn p); [split; reflexivity |].
  destruct (db w !! k) as [r |] eqn:E.
  - intros r' Hr'. exists p, (now w).
    assert (r' = r) as -> by congruence. auto.
  - destruct (insertRow k p (now w)).
    + intros r' Hr'. congruence.
    + split; reflexivity.
Qed.

Lemma lastly_delete k : lastly (removed k) (deleteTask k).
Proof. intros w; simpl; right; auto. Qed.

Ltac late :=
  repeat first
    [ apply lastly_upsert
    | apply lastly_delete
    | apply lastly_throw
    | apply lastly_ret; solve [intros ?; left; split; reflexivity]
    | apply lastly_bind; [solve [eauto with orch] | solve [orch] | intros ?]
    | match goal with
      | |- lastly _ (if ?b then _ else _) => destruct b
      | |- lastly _ (match ?x with _ => _ end) => destruct x
      end ].

(** *** Pushing without a worktree path *)

(** Called without a worktree path, the three push functions never
    return [pushed: true]: with changes in the directory the [join] that
    builds the name of the commit message file throws. *)
Lemma commitAndPush_nowhere env push why :
  yields (fun res => pushed res = false) (commitAndPush env None push why).
Proof.
  intros w. unfold commitAndPush, gitIn, commitMsgFile.
  unfold bind at 1.
  destruct (gitAt env _ StatusPorcelain w) as [[n | e |] w1]; [| exact I ..].
  destruct (negb (gitDirty env n)); [reflexivity |].
  unfold bind at 1.
  destruct (gitAt env _ AddAll w1) as [[n2 | e |] w2]; exact I.
Qed.

Lemma implementationChain_fruitless env cfg k ts :
  fruitless (implementationChain env cfg k ts).
Proof.
  unfold fruitless, implementationChain.
  apply lastly_bind; [eauto with orch | orch | intros _].
  apply lastly_bind; [eauto with orch | orch | intros _].
  apply lastly_bind; [eauto with orch | orch | intros info].
  cbv zeta.
  apply lastly_bind; [eauto with orch | unfold implementPlan; orch | intros result].
  destruct (negb (success result)); [apply lastly_throw |].
  apply (lastly_bind_yields _ (fun res => pushed res = false));
    [eauto with orch | unfold pushChanges; orch
    | apply commitAndPush_nowhere |].
  intros res ->. apply lastly_throw.
Qed.

Lemma reportImplementationError_lastly env cfg k e :
  lastly (wrote k (fun p => p = failedPatch))
         (reportImplementationError env cfg k e).
Proof. unfold reportImplementationError. late. reflexivity. Qed.

(** The [try] block of [handleTestFeedback] writes at most the time of
    the feedback check. *)
Lemma reworkChain_lastly env cfg k fb b ts :
  lastly (wrote k (fun p => p_phase p = None /\ p_cost_usd p = None))
         (reworkChain env cfg k fb b ts).
Proof.
  unfold reworkChain.
  apply lastly_bind; [eauto with orch | orch | intros _].
  apply lastly_bind; [eauto with orch | orch | intros _].
  apply lastly_bind; [eauto with orch | unfold rework; orch | intros result].
  destruct (negb (success result)); [apply lastly_throw |].
  apply (lastly_bind_yields _ (fun res => pushed res = false));
    [eauto with orch | unfold pushRework; orch
    | apply commitAndPush_nowhere |].
  intros res ->. cbn [negb].
  late. split; reflexivity.
Qed.

Lemma mergeChain_lastly env cfg k : lastly (removed k) (mergeChain env cfg k).
Proof. unfold mergeChain. late. Qed.

Lemma returns_bind {A B} (m : M A) (k : A -> M B) :
  returns m -> (forall a, returns (k a)) -> returns (bind m k).
Proof.
  intros Hm Hk w. destruct (Hm w) as (a & w1 & E). unfold bind. rewrite E. apply Hk.
Qed.

Lemma returns_gitQuiet env cfg c : returns (gitQuiet env cfg c).
Proof.
  intros w. unfold gitQuiet, tryCatch, git, gitAt, bind, interact, modW, ret, throw.
  destruct (fails env (tick w)); eauto.
Qed.

Lemma returns_cleanupWorktree env cfg k : returns (cleanupWorktree env cfg k).
Proof.
  unfold cleanupWorktree. apply returns_bind; [intros w; unfold getW; eauto |].
  intros [path |]; [| intros w; unfold ret; eauto].
  destruct (JsString.truthy path); [| intros w; unfold ret; eauto].
  apply returns_bind; [apply returns_gitQuiet | intros _ w; unfold modW; eauto].
Qed.

Lemma returns_forEach {A} (l : list A) (body : A -> M unit) :
  (forall x, returns (body x)) -> returns (forEach l body).
Proof.
  intros H; induction l as [| x l IH]; simpl.
  - intros w; unfold ret; eauto.
  - apply returns_bind; auto.
Qed.

Lemma returns_cleanup env cfg : returns (cleanup env cfg).
Proof.
  unfold cleanup. apply returns_bind; [intros w; unfold getW; eauto |].
  intros keys. apply returns_bind; [| intros _; apply returns_gitQuiet].
  apply returns_forEach. intros x; apply returns_cleanupWorktree.
Qed.

Lemma returns_finalizer env cfg k : returns (cleanup env cfg ;;; processingDelete k).
Proof.
  apply returns_bind; [apply returns_cleanup |].
  intros _ w; unfold processingDelete, modW; eauto.
Qed.

Lemma isProcessing_false k w : k ∉ processing w -> isProcessing k w = (Ok false, w).
Proof. intros H. unfold isProcessing, getW. by rewrite bool_decide_eq_false_2. Qed.

Lemma isProcessing_true k w : k ∈ processing w -> isProcessing k w = (Ok true, w).
Proof. intros H. unfold isProcessing, getW. by rewrite bool_decide_eq_true_2. Qed.

Lemma handleImplementation_unfold env cfg k w ts :
  k ∉ processing w -> db w !! k = Some ts ->
  handleImplementation env cfg k w =
    tryFinally
      (tryCatch (implementationChain env cfg k ts)
                (reportImplementationError env cfg k))
      (cleanup env cfg ;;; processingDelete k) (marked k w).
Proof.
  intros Hp Hdb. unfold handleImplementation.
  unfold bind at 1. rewrite (isProcessing_false _ _ Hp).
  unfold bind at 1. unfold processingAdd, modW.
  unfold bind at 1. unfold getTask, getW. cbn [db set_processing].
  rewrite Hdb. reflexivity.
Qed.

(** The finalizer of the handlers: quiet, keeps the lock, returns. *)
Lemma finalizer_run env cfg k w :
  exists w', (cleanup env cfg ;;; processingDelete k) w = (Ok tt, w') /\
             stagingLock w' = stagingLock w /\ quietly w w'.
Proof.
  destruct (returns_finalizer env cfg k w) as ([] & w' & E).
  exists w'. split; [exact E |].
  assert (H : steady quietly (cleanup env cfg ;;; processingDelete k)) by orch.
  specialize (H w I). rewrite E in H. destruct H as [_ H]. exact H.
Qed.

(** [handleImplementation] on a tracked task that is not being processed:
    its chain always throws and the error is reported; once the report is
    through, the one write made is that of the phase [failed]; when the
    report itself throws, that error leaves the handler and the task table
    is as it was. *)
Lemma implementation_outcomes env cfg k w ts :
  k ∉ processing w -> db w !! k = Some ts ->
  let '(r, w') := handleImplementation env cfg k w in
  match r with
  | Ok _ =>
      exists t, db w' = <[k := applyPatch failedPatch ts t]> (db w) /\
                dbLog w' = (dbLog w ++ [Upsert k failedPatch])%list
  | Throw _ => quietly w w'
  | Diverge => False
  end.
Proof.
  intros Hp Hdb.
  rewrite (handleImplementation_unfold env cfg k w ts Hp Hdb).
  unfold tryFinally, tryCatch.
  pose proof (implementationChain_fruitless env cfg k ts (marked k w)) as Hc.
  destruct (implementationChain env cfg k ts (marked k w)) as [[[] | e |] wc];
    try tauto.
  destruct Hc as [Hqd Hql]. simpl in Hqd, Hql.
  pose proof (reportImplementationError_lastly env cfg k e wc) as Hr.
  destruct (reportImplementationError env cfg k e wc) as [[[] | e' |] wr];
    try tauto.
  - assert (Hdbc : db wc !! k = Some ts) by (rewrite Hqd; exact Hdb).
    destruct (Hr ts Hdbc) as (p & t & HP & Hd & Hl).
    destruct (finalizer_run env cfg k wr) as (w' & E & _ & [Hq Hq2]).
    rewrite E. subst p. exists t.
    rewrite Hq, Hq2, Hd, Hl, Hqd, Hql. split; reflexivity.
  - destruct Hr as [Hrd Hrl].
    destruct (finalizer_run env cfg k wr) as (w' & E & _ & [Hq Hq2]).
    rewrite E. split; congruence.
Qed.
(** ** What the handlers leave in the task table *)

Lemma reportReworkError_steady env cfg k e :
  steady quietly (reportReworkError env cfg k e).
Proof. unfold reportReworkError. orch. Qed.

(** [handleTestFeedback] ends and writes neither a phase nor a cost,
    whatever happens. *)
Lemma handleTestFeedback_keeps_phase env cfg k fb w ts :
  db w !! k = Some ts ->
  let '(r, w') := handleTestFeedback env cfg k fb w in
  r <> Diverge /\
  phaseOf k w' = Some (phase ts) /\
  cost_usd <$> db w' !! k = Some (cost_usd ts).
Proof.
  intros Hdb. unfold handleTestFeedback.
  assert (Hsame : phaseOf k w = Some (phase ts) /\
                  cost_usd <$> db w !! k = Some (cost_usd ts))
    by (unfold phaseOf; rewrite Hdb; split; reflexivity).
  unfold bind at 1. unfold isProcessing, getW.
  destruct (bool_decide (k ∈ processing w));
    [simpl; split; [discriminate | exact Hsame] |].
  unfold bind at 1. unfold getTask, getW. rewrite Hdb.
  destruct (branch_name ts) as [branch |];
    [| simpl; split; [discriminate | exact Hsame]].
  destruct (negb (JsString.truthy branch));
    [simpl; split; [discriminate | exact Hsame] |].
  unfold bind at 1. unfold processingAdd, modW. fold (marked k w).
  unfold tryFinally, tryCatch.
  pose proof (reworkChain_lastly env cfg k fb branch ts (marked k w)) as Hc.
  destruct (reworkChain env cfg k fb branch ts (marked k w)) as [[[] | e |] wc];
    try tauto.
  - destruct (Hc ts Hdb) as (p & t & [HP HC] & Hd & Hl).
    destruct (finalizer_run env cfg k wc) as (w' & E & _ & [Hq _]).
    rewrite E. split; [discriminate |].
    unfold phaseOf. rewrite Hq, Hd, lookup_insert_eq. simpl.
    unfold patched. rewrite HP, HC. split; reflexivity.
  - destruct Hc as [Hqd Hql].
    pose proof (reportReworkError_steady env cfg k e wc I) as Hr.
    destruct (reportReworkError env cfg k e wc) as [[[] | e' |] wr]; try tauto;
      destruct Hr as [_ [_ [Hrd Hrl]]];
      destruct (finalizer_run env cfg k wr) as (w' & E & _ & [Hq _]);
      rewrite E; (split; [discriminate |]);
      unfold phaseOf; rewrite Hq, Hrd, Hqd; exact Hsame.
Qed.

Lemma reportMergeError_steady env k e : steady quietly (reportMergeError env k e).
Proof. unfold reportMergeError. orch. Qed.

Lemma handleMerge_outcomes env cfg k w :
  ("merge-" ++ k)%string ∉ processing w ->
  let '(rc, _) := mergeChain env cfg k (marked ("merge-" ++ k)%string w) in
  let '(r, w') := handleMerge env cfg k w in
  r <> Diverge /\
  match rc with
  | Throw _ => db w' = db w
  | _ => db w' = db w \/ db w' = delete k (db w)
  end.
Proof.
  intros Hp. unfold handleMerge. cbv zeta.
  unfold bind at 1. rewrite (isProcessing_false _ _ Hp).
  unfold bind at 1. unfold processingAdd, modW. fold (marked ("merge-" ++ k)%string w).
  unfold tryFinally, tryCatch.
  pose proof (mergeChain_lastly env cfg k (marked ("merge-" ++ k)%string w)) as Hc.
  destruct (mergeChain env cfg k (marked ("merge-" ++ k)%string w)) as [[[] | e |] wc];
    try tauto.
  - unfold processingDelete, modW. simpl.
    split; [discriminate |].
    destruct Hc as [[Hd _] | [Hd _]]; [left | right]; exact Hd.
  - destruct Hc as [Hqd Hql].
    pose proof (reportMergeError_steady env k e wc I) as Hr.
    destruct (reportMergeError env k e wc) as [[[] | e' |] wr]; try tauto;
      destruct Hr as [_ [_ [Hrd Hrl]]]; unfold processingDelete, modW; simpl;
      (split; [discriminate |]); simpl in Hqd; congruence.
Qed.
(** ** Running straight-line code *)

(** Projections of updated worlds. *)
Ltac world_simpl :=
  cbn [tick now db dbLog processing jiraLog githubLog agentLog activeWorktrees
       stagingLock gitLog set_clock set_db set_processing set_jiraLog
       set_githubLog set_agentLog set_activeWorktrees set_stagingLock
       set_gitLog fst snd].

(** Symbolic execution of straight-line handler code. *)
Ltac run_defs :=
  cbv beta iota zeta delta
    [bind ret throw diverge tryCatch tryFinally getW modW when
     interact external sleep dateNow jira github githubDeleteBranch fsOp
     getTask upsertTask deleteTask isProcessing processingAdd processingDelete
     assignIfSet getAssignBackId orElse createPlan runClaudeSDK
     planChain reportPlanningError replanChain marked
     gitAt git gitIn gitQuiet commitMsgFile mergeLocked mergeIntoStaging
     unawaited];
  cbn [tick now db dbLog processing jiraLog githubLog agentLog activeWorktrees
       stagingLock gitLog set_clock set_db set_processing set_jiraLog
       set_githubLog set_agentLog set_activeWorktrees set_stagingLock
       set_gitLog fst snd].

Ltac fork :=
  match goal with
  | |- context [fails ?e ?n] =>
      let E := fresh "Hf" in
      destruct (fails e n) eqn:E;
      cbn [tick now db dbLog processing jiraLog githubLog agentLog
           activeWorktrees stagingLock gitLog set_clock set_db set_processing
           set_jiraLog set_githubLog set_agentLog set_activeWorktrees
           set_stagingLock set_gitLog fst snd]
  end.


(** Case analysis on whatever decides the next step of a handler being
    run: the failure of the next interaction, an account to assign to, the
    truth of a string. *)
Ltac run_simpl :=
  cbn [tick now db dbLog processing jiraLog githubLog agentLog activeWorktrees
       stagingLock gitLog set_clock set_db set_processing set_jiraLog
       set_githubLog set_agentLog set_activeWorktrees set_stagingLock
       set_gitLog fst snd
       success negb output sessionId costUsd error unknownColumn
       p_worktree_path p_creator_account_id pushed reason].

Ltac crunch :=
  repeat
    (run_simpl;
     match goal with
     | |- context [fails ?e ?n] => destruct (fails e n) eqn:?
     | |- context [match (match ?c with Some _ => ?c | None => ?y end)
                   with _ => _ end] =>
         destruct (match c with Some _ => c | None => y end) eqn:?
     | |- context [if JsString.truthy ?a then _ else _] =>
         destruct (JsString.truthy a) eqn:?
     end);
  run_simpl.
(** * Properties *)

(** ** The agent wrapper *)

Lemma iterate_spec (c : Conversation) (acc : string * option string * option Q) :
  iterate c acc = (fold_left (fun a e => onEvent e a) (events c) acc, ending c).
Proof.
  revert acc; induction c as [| thrown | e rest IH]; intros acc; simpl;
    try reflexivity.
  apply IH.
Qed.

(** What [runClaudeSDK] does, by the way the conversation ends: it returns
    a result built from the locals, except when [null] or [undefined] was
    thrown, where its [catch] block throws. *)
Lemma runClaudeSDK_outcomes (env : Env) (cfg : Config) (mode : AgentMode)
    (cwd resume : option string) (w : World) :
  let c := conversation env (tick w) in
  let '(out, sid, cost) :=
    fold_left (fun a e => onEvent e a) (events c) initialAcc in
  (runClaudeSDK env cfg mode cwd resume w).1 =
    match ending c with
    | None => Ok (mkClaudeResult true out sid cost None)
    | Some (RaisedValue message) => Ok (mkClaudeResult false out sid cost message)
    | Some RaisedNullish => Throw ReadOfNullish
    end.
Proof.
  cbv zeta. unfold runClaudeSDK, bind, interact, modW. cbn [fst snd].
  rewrite iterate_spec.
  destruct (fold_left _ _ _) as [[out sid] cost].
  destruct (ending _) as [[| message] |]; reflexivity.
Qed.

(** C10.  An agent run that has announced its session and written part of
    its answer when the SDK throws [undefined]: the [catch] block of
    [runClaudeSDK] reads [.message] of the thrown value, which throws a
    [TypeError], so the call throws instead of returning [success: false]
    with the text and the session accumulated so far.  When the value
    thrown is an error object the call returns as the claim says. *)
Theorem runClaudeSDK_throws_on_nullish :
  let run thrown :=
    (runClaudeSDK (interruptedAgent thrown) baseCfg ImplementMode None None
                  emptyWorld).1 in
  run RaisedNullish = Throw ReadOfNullish /\
  run (RaisedValue (Some "socket hang up")) =
    Ok (mkClaudeResult false "partial answer" (Some "sess-1") None
                       (Some "socket hang up")).
Proof. split; reflexivity. Qed.
(** ** Approval and feedback comments *)

Lemma handlePlanFeedback_feedback env cfg k text w ts :
  k ∉ processing w -> db w !! k = Some ts ->
  JsString.startsWith (JsString.toLowerCase text) "approve" = false ->
  handlePlanFeedback env cfg k text w =
    tryFinally (replanChain env cfg k text ts) (processingDelete k) (marked k w).
Proof.
  intros Hp Hdb Hs. unfold handlePlanFeedback.
  unfold bind at 1. rewrite (isProcessing_false _ _ Hp).
  unfold bind at 1. unfold getTask, getW. rewrite Hdb, Hs. reflexivity.
Qed.

Lemma replan_outcomes env cfg k text w ts :
  db w !! k = Some ts ->
  let '(r, w') :=
    tryFinally (replanChain env cfg k text ts) (processingDelete k) (marked k w) in
  r <> Diverge /\
  (db w' = db w \/
   exists p t, db w' = <[k := applyPatch p ts t]> (db w) /\
               p_phase p = Some PlanPosted /\ p_reviewer_notes p = None).
Proof.
  intros Hdb. run_defs.
  fork; [split; [discriminate | left; reflexivity] |].
  rewrite iterate_spec. destruct (fold_left _ _ _) as [[out sid] cost].
  destruct (ending _) as [[| message] |]; crunch;
    try (split; [discriminate | left; reflexivity]).
  rewrite Hdb. cbn. split; [discriminate | right].
  eexists _, _. split; [reflexivity |]. split; reflexivity.
Qed.

(** C2, as amended.  For a task in [plan-posted] that is not being
    processed, a comment whose lower-cased text starts with [approve] sets
    the phase to [approved] and stores as reviewer notes exactly the text
    after the first seven characters, trimmed ([null] when empty), before
    implementation starts; for the comment "approve, keep it minimal" the
    notes are ", keep it minimal".  Any other comment runs the re-planning
    chain, which ends, leaves the phase [plan-posted] and does not touch the
    notes. *)
Theorem plan_comment_classification env cfg k text w ts :
  k ∉ processing w -> db w !! k = Some ts -> phase ts = PlanPosted ->
  let notes := JsString.orNull (JsString.trim (JsString.substring 7 text)) in
  (text = "approve, keep it minimal" -> notes = Some ", keep it minimal") /\
  if JsString.startsWith (JsString.toLowerCase text) "approve" then
    exists w1,
      upsertTask k (approvalPatch text) w = (Ok tt, w1) /\
      phaseOf k w1 = Some Approved /\
      reviewer_notes <$> db w1 !! k = Some notes /\
      handlePlanFeedback env cfg k text w = handleImplementation env cfg k w1
  else
    handlePlanFeedback env cfg k text w =
      tryFinally (replanChain env cfg k text ts) (processingDelete k) (marked k w) /\
    let '(r, w') := handlePlanFeedback env cfg k text w in
    r <> Diverge /\ phaseOf k w' = Some PlanPosted /\
    reviewer_notes <$> db w' !! k = Some (reviewer_notes ts).
Proof.
  intros Hp Hdb Hph notes. split.
  { intros ->. reflexivity. }
  destruct (JsString.startsWith _ _) eqn:Hs.
  - eexists. split.
    { unfold upsertTask. rewrite Hdb. reflexivity. }
    split; [unfold phaseOf; cbn; rewrite lookup_insert_eq; reflexivity |].
    split; [cbn; rewrite lookup_insert_eq; reflexivity |].
    unfold handlePlanFeedback. unfold bind at 1. rewrite (isProcessing_false _ _ Hp).
    unfold bind at 1. unfold getTask, getW. rewrite Hdb, Hs.
    unfold bind at 1. unfold upsertTask at 1. rewrite Hdb. reflexivity.
  - rewrite (handlePlanFeedback_feedback env cfg k text w ts Hp Hdb Hs).
    split; [reflexivity |].
    pose proof (replan_outcomes env cfg k text w ts Hdb) as H.
    destruct (tryFinally _ _ _) as [r w']. destruct H as [Hr H].
    split; [exact Hr |]. unfold phaseOf.
    destruct H as [-> | (p & t & -> & Hpp & Hpn)].
    + rewrite Hdb. simpl. rewrite Hph. auto.
    + rewrite lookup_insert_eq. simpl. unfold patched. rewrite Hpp, Hpn. auto.
Qed.

(** The theorem on the comment "Approve - ship it". *)
Lemma plan_comment_classification_witness :
  let w := worldWith (proj1Row PlanPosted) in
  ("PROJ-1" ∉ processing w) /\
  db w !! "PROJ-1" = Some (proj1Row PlanPosted) /\
  phase (proj1Row PlanPosted) = PlanPosted /\
  exists w1,
    upsertTask "PROJ-1" (approvalPatch "Approve - ship it") w = (Ok tt, w1) /\
    phaseOf "PROJ-1" w1 = Some Approved /\
    reviewer_notes <$> db w1 !! "PROJ-1" = Some (Some "- ship it") /\
    handlePlanFeedback calmEnv baseCfg "PROJ-1" "Approve - ship it" w =
      handleImplementation calmEnv baseCfg "PROJ-1" w1.
Proof.
  cbv zeta.
  assert (H1 : "PROJ-1" ∉ processing (worldWith (proj1Row PlanPosted)))
    by (cbn; apply not_elem_of_empty).
  assert (H2 : db (worldWith (proj1Row PlanPosted)) !! "PROJ-1"
               = Some (proj1Row PlanPosted)) by (vm_compute; reflexivity).
  split; [exact H1 |]. split; [exact H2 |]. split; [reflexivity |].
  exact (proj2 (plan_comment_classification calmEnv baseCfg "PROJ-1"
                  "Approve - ship it" _ _ H1 H2 eq_refl)).
Defined.

(** The literal example of the specification: the notes stored for
    "approve, keep it minimal" are not "keep it minimal"; the comma stays. *)
Lemma approve_example_keeps_the_comma :
  let w' := (handlePlanFeedback calmEnv baseCfg "PROJ-1"
               "approve, keep it minimal" (worldWith (proj1Row PlanPosted))).2 in
  reviewer_notes <$> db w' !! "PROJ-1" <> Some (Some "keep it minimal") /\
  reviewer_notes <$> db w' !! "PROJ-1" = Some (Some ", keep it minimal").
Proof. vm_compute. split; [discriminate | reflexivity]. Qed.
(** ** New tasks *)

Lemma plansPosted_app k l1 l2 :
  plansPosted k (l1 ++ l2) = (plansPosted k l1 + plansPosted k l2)%nat.
Proof. unfold plansPosted. rewrite List.filter_app, length_app. reflexivity. Qed.

Lemma handleNewTask_planPosted env cfg k s d c w :
  phaseOf k w = Some PlanPosted ->
  handleNewTask env cfg k s d c w = (Ok tt, w).
Proof.
  unfold phaseOf. intros H. unfold handleNewTask.
  unfold bind at 1. unfold isProcessing, getW.
  destruct (bool_decide (k ∈ processing w)); [reflexivity |].
  unfold bind at 1. unfold getTask, getW.
  destruct (db w !! k) as [r |]; [| discriminate].
  simpl in H. injection H as H. rewrite bool_decide_eq_true_2 by exact H.
  reflexivity.
Qed.

Lemma handleNewTask_unguarded env cfg k s d c w :
  phaseOf k w <> Some PlanPosted -> k ∉ processing w ->
  handleNewTask env cfg k s d c w =
    tryFinally
      (tryCatch (planChain env cfg k s d c) (reportPlanningError env cfg k c))
      (processingDelete k) (marked k w).
Proof.
  intros Hph Hp. unfold handleNewTask.
  unfold bind at 1. rewrite (isProcessing_false _ _ Hp).
  unfold bind at 1. unfold getTask, getW.
  destruct (db w !! k) as [r |] eqn:E.
  - rewrite bool_decide_eq_false_2; [reflexivity |].
    intros H. apply Hph. unfold phaseOf. rewrite E. simpl. congruence.
  - reflexivity.
Qed.

(** C1, as amended.  A "new task" event for an issue whose row is in
    [plan-posted] changes nothing, so two events in a row change nothing
    either: no plan is produced or posted and the row stays as it is.  The
    guard looks for [plan-posted] only: for an issue in any other phase, or
    not tracked, that is not being processed, the agent is run in plan mode
    as soon as the tracker has taken the transition and the first comment,
    and the plan is posted when that run ends normally and the tracker
    takes the comment. *)
Theorem new_task_idempotent env cfg k s d c w :
  (phaseOf k w = Some PlanPosted ->
   handleNewTask env cfg k s d c w = (Ok tt, w) /\
   (handleNewTask env cfg k s d c ;;; handleNewTask env cfg k s d c) w
   = (Ok tt, w)) /\
  (phaseOf k w <> Some PlanPosted -> k ∉ processing w ->
   fails env (tick w) = None -> fails env (S (tick w)) = None ->
   let '(r, w') := handleNewTask env cfg k s d c w in
   agentLog w' = agentLog w ++ [mkAgentCall PlanMode (repoPath cfg) None] /\
   (ending (conversation env (S (S (tick w)))) = None ->
    fails env (S (S (S (tick w)))) = None ->
    plansPosted k (jiraLog w') = (plansPosted k (jiraLog w) + 1)%nat)).
Proof.
  split.
  - intros H. pose proof (handleNewTask_planPosted env cfg k s d c w H) as E.
    split; [exact E |]. unfold bind. rewrite E. exact E.
  - intros Hph Hp Hf0 Hf1.
    rewrite (handleNewTask_unguarded env cfg k s d c w Hph Hp).
    run_defs. rewrite Hf0. world_simpl. rewrite Hf1. world_simpl.
    rewrite iterate_spec.
    destruct (fold_left _ _ _) as [[out sid] cost].
    destruct (ending _) as [[| message] |] eqn:He; crunch;
      (split; [reflexivity |]); intros Hend Hpost; try discriminate;
      rewrite ?plansPosted_app; unfold plansPosted; simpl;
      rewrite ?String.eqb_refl; simpl; lia.
Qed.

(** The theorem on [PROJ-1]: two events while its plan awaits approval,
    and one event once the plan is approved. *)
Lemma new_task_idempotent_witness :
  (let w := worldWith (proj1Row PlanPosted) in
   (handleNewTask calmEnv baseCfg "PROJ-1" "Add health check" "" None ;;;
    handleNewTask calmEnv baseCfg "PROJ-1" "Add health check" "" None) w
   = (Ok tt, w)) /\
  (let w := worldWith (proj1Row Approved) in
   let '(r, w') :=
     handleNewTask calmEnv baseCfg "PROJ-1" "Add health check" "" None w in
   agentLog w' = agentLog w ++ [mkAgentCall PlanMode "/srv/repo" None] /\
   plansPosted "PROJ-1" (jiraLog w') = (plansPosted "PROJ-1" (jiraLog w) + 1)%nat).
Proof.
  split.
  - exact (proj2 (proj1 (new_task_idempotent calmEnv baseCfg "PROJ-1"
                           "Add health check" "" None
                           (worldWith (proj1Row PlanPosted))) eq_refl)).
  - cbv zeta.
    pose proof (proj2 (new_task_idempotent calmEnv baseCfg "PROJ-1"
                         "Add health check" "" None
                         (worldWith (proj1Row Approved)))
                  ltac:(vm_compute; discriminate)
                  ltac:(cbn; apply not_elem_of_empty) eq_refl eq_refl) as H.
    destruct (handleNewTask calmEnv baseCfg "PROJ-1" "Add health check" ""
                None (worldWith (proj1Row Approved))) as [r w'].
    destruct H as [Ha Hb]. split; [exact Ha | exact (Hb eq_refl eq_refl)].
Defined.

(** A row in [approved], a phase after [plan-posted], does not stop the
    handler: the agent plans the task again and the plan is posted on the
    issue. *)
Lemma new_task_replans_an_approved_task :
  let w := worldWith (proj1Row Approved) in
  let w' :=
    (handleNewTask calmEnv baseCfg "PROJ-1" "Add health check" "" None w).2 in
  phaseOf "PROJ-1" w = Some Approved /\
  agentLog w' = [mkAgentCall PlanMode "/srv/repo" None] /\
  plansPosted "PROJ-1" (jiraLog w') = 1%nat /\
  handleNewTask calmEnv baseCfg "PROJ-1" "Add health check" "" None w
  <> (Ok tt, w).
Proof.
  vm_compute. repeat split; try reflexivity. discriminate.
Qed.
(** ** Accrued cost *)

(** The sums written by [handlePlanFeedback], [handleImplementation] and
    [handleTestFeedback] never go below the stored total. *)
Lemma addCost_ge_stored (stored invoked : option Q) :
  (0 <= JsString.nullish invoked 0)%Q ->
  (JsString.nullish stored 0 <= addCost stored invoked)%Q.
Proof.
  intros H. unfold addCost.
  rewrite <- (Qplus_0_r (JsString.nullish stored 0%Q)) at 1.
  apply Qplus_le_r. exact H.
Qed.

(** C7.  [handleNewTask] on a row that already carries a cost: the row of
    [PROJ-1], failed with 5 accrued, is planned again by one invocation of
    the agent that costs 1.  The only write of the handler names the column
    [creator_account_id], which the table lacks, and is refused: the
    handler reports a planning failure on the issue, nothing is written and
    the stored cost is still 5, not 6. *)
Lemma new_task_drops_the_planning_cost :
  let w := worldWith (proj1Row Failed) in
  let '(r, w') :=
    handleNewTask calmEnv baseCfg "PROJ-1" "Add health check" "" None w in
  cost_usd <$> db w !! "PROJ-1" = Some (Some 5%Q) /\
  agentLog w' = [mkAgentCall PlanMode "/srv/repo" None] /\
  (runClaudeSDK calmEnv baseCfg PlanMode None None w).1
    = Ok (mkClaudeResult true "1. add /health route" (Some "sess-1")
            (Some 1%Q) None) /\
  r = Ok tt /\
  last (jiraLog w')
    = Some (AssignIssue "PROJ-1" "acct-owner") /\
  In (AddComment "PROJ-1" (CPlanningFailed (SqlNoColumn "creator_account_id")))
     (jiraLog w') /\
  dbLog w' = [] /\
  cost_usd <$> db w' !! "PROJ-1" = Some (Some 5%Q) /\
  phaseOf "PROJ-1" w' = Some Failed.
Proof. vm_compute. repeat split; try reflexivity. tauto. Qed.

(** ** The ceiling on concurrent workspaces *)

(** C6.  With one workspace allowed and one active, [canAcceptTask] is
    false, yet [createBranch] adds a second worktree, and
    [handleImplementation] for [PROJ-1] goes on to create it and to run
    the agent on the task: neither consults [canAcceptTask].  (The run
    then stops at the push, which the engine starts without the path of
    the worktree, and the task is recorded as [failed].) *)
Lemma workspace_created_beyond_ceiling :
  let wt := "/srv/.orchestrator-worktrees/claude-PROJ-1-add-health-check" in
  let br := "claude/PROJ-1-add-health-check" in
  canAcceptTask oneWorkspaceCfg busyWorld = false /\
  (let '(r, w') :=
     createBranch calmEnv oneWorkspaceCfg "PROJ-1" "Add health check" busyWorld in
   r = Ok (mkBranchInfo br wt) /\ size (activeWorktrees w') = 2%nat) /\
  (let '(r, w') := handleImplementation calmEnv oneWorkspaceCfg "PROJ-1" busyWorld in
   r = Ok tt /\ ran (WorktreeAdd wt br "main") (gitLog w') = true /\
   agentLog w' = [mkAgentCall ImplementMode "/srv/repo" None] /\
   phaseOf "PROJ-1" w' = Some Failed).
Proof. vm_compute. repeat split; reflexivity. Qed.
(** ** Merge conflicts *)

Lemma newRuns_app w w' l : gitLog w' = gitLog w ++ l -> newRuns w w' = l.
Proof. unfold newRuns. intros ->. apply drop_app_length. Qed.

Lemma checkedOut_last dir l b :
  last l = Some (mkGitRun dir (Checkout b) true) -> checkedOut dir l = Some b.
Proof.
  destruct l as [| x l] using rev_ind; [discriminate |].
  rewrite last_snoc. intros [= ->]. unfold checkedOut.
  rewrite fold_left_app. simpl. unfold headStep. simpl.
  rewrite String.eqb_refl. reflexivity.
Qed.

Lemma checkedOut_elsewhere dir other l runs :
  other <> dir -> Forall (staysIn dir) runs ->
  checkedOut other (l ++ runs) = checkedOut other l.
Proof.
  intros Hne H. unfold checkedOut. rewrite fold_left_app.
  generalize (fold_left (headStep other) l None) as head.
  induction H as [| r runs [Hc Hk] _ IH]; intros head; [reflexivity |].
  simpl. rewrite IH. unfold headStep. rewrite Hc.
  assert (He : String.eqb dir other = false)
    by (apply String.eqb_neq; congruence).
  rewrite He. destruct (ok r), (cmd r); try reflexivity; contradiction.
Qed.

(** C4, as amended.  When the merge command of [mergeIntoStaging] fails,
    the call throws with the staging lock released; every git command it
    ran was run in the main repository and none is a push; the branch
    checked out in any other directory, the worktree of the task among
    them, is the one it was; the failed merge is followed at once by
    [merge --abort]; and when the abort and the checkout after it succeed,
    the error is the conflict error and the main repository is left on the
    default branch, otherwise the error of the failing abort or checkout is
    thrown. *)
Theorem mergeIntoStaging_conflict env cfg b w :
  unlocked w ->
  let '(r, w') := mergeIntoStaging env cfg b w in
  let runs := newRuns w w' in
  mkGitRun (repoPath cfg) (MergeNoEdit b) false ∈ runs ->
  stagingLock w' = false /\
  (forall run, run ∈ runs -> cwd run = repoPath cfg /\ isPush (cmd run) = false) /\
  (forall dir, dir <> repoPath cfg ->
     checkedOut dir (gitLog w') = checkedOut dir (gitLog w)) /\
  (exists pre aborted post,
     runs = pre ++ [mkGitRun (repoPath cfg) (MergeNoEdit b) false;
                    mkGitRun (repoPath cfg) MergeAbort aborted] ++ post) /\
  ((r = Throw (MergeConflict b) /\
    last runs = Some (mkGitRun (repoPath cfg) (Checkout (defaultBranch cfg)) true) /\
    checkedOut (repoPath cfg) (gitLog w') = Some (defaultBranch cfg)) \/
   (exists msg c,
      r = Throw (External msg) /\
      last runs = Some (mkGitRun (repoPath cfg) c false) /\
      (c = MergeAbort \/ c = Checkout (defaultBranch cfg)))).
Proof.
  intros Hw. unfold mergeIntoStaging. rewrite Hw.
  run_defs.
  repeat fork.
  all: cbv zeta; unfold newRuns; world_simpl; rewrite <- ?app_assoc, drop_app_length; simpl app.
  all: intros Hin.
  all: try solve [exfalso; rewrite list_elem_of_In in Hin; simpl in Hin;
                  intuition discriminate].
  all: split; [reflexivity |].
  all: split;
    [intros run Hr; rewrite list_elem_of_In in Hr; simpl in Hr;
     intuition (subst; auto) |].
  all: split;
    [intros dir Hne; apply checkedOut_elsewhere with (dir := repoPath cfg);
     [exact Hne | repeat constructor] |].
  all: split;
    [first [ eexists [_; _; _; _], _, _; reflexivity
           | eexists [_; _; _; _; _], _, _; reflexivity
           | eexists [_; _; _; _; _; _], _, _; reflexivity
           | eexists [_; _; _; _; _; _; _], _, _; reflexivity ] |].
  all: first
    [ left; split; [reflexivity |]; split; [reflexivity |];
      apply checkedOut_last; rewrite last_app; reflexivity
    | right; eexists _, _; split; [reflexivity |]; split; [reflexivity |];
      first [left; reflexivity | right; reflexivity] ].
Qed.

(** The conflict of [PROJ-1]'s branch, with staging present and the
    worktree of the task on the feature branch. *)
Lemma mergeIntoStaging_conflict_witness :
  let '(r, w') := mergeIntoStaging conflictEnv baseCfg proj1Branch branchedWorld in
  unlocked branchedWorld /\
  (mkGitRun (repoPath baseCfg) (MergeNoEdit proj1Branch) false
     ∈ newRuns branchedWorld w') /\
  r = Throw (MergeConflict proj1Branch) /\ stagingLock w' = false /\
  checkedOut (repoPath baseCfg) (gitLog w') = Some "main" /\
  checkedOut proj1Worktree (gitLog w') = Some proj1Branch.
Proof.
  pose proof (mergeIntoStaging_conflict conflictEnv baseCfg proj1Branch
                branchedWorld eq_refl) as H.
  destruct (mergeIntoStaging conflictEnv baseCfg proj1Branch branchedWorld)
    as [r w'] eqn:E.
  cbv zeta in H. vm_compute in E. injection E as <- <-.
  match type of H with
  | ?P -> _ => assert (Hin : P) by (apply list_elem_of_In; vm_compute; tauto)
  end.
  destruct (H Hin) as (HL & _ & Hd & _ & [(Hr & _ & Hc) | (msg & c & Hr & _)]);
    [| discriminate].
  split; [reflexivity |]. split; [exact Hin |]. split; [exact Hr |].
  split; [exact HL |]. split; [exact Hc |].
  rewrite (Hd proj1Worktree ltac:(discriminate)). reflexivity.
Defined.

(** The merge conflicts and the abort fails: the error raised is that of
    [merge --abort], not the conflict error, the default branch is not
    checked out, and the main repository stays on [staging]. *)
Lemma failed_abort_hides_the_conflict :
  let '(r, w') :=
    mergeIntoStaging lockedIndexEnv baseCfg proj1Branch branchedWorld in
  (mkGitRun "/srv/repo" (MergeNoEdit proj1Branch) false ∈ gitLog w') /\
  r = Throw (External "fatal: Unable to create '/srv/repo/.git/index.lock': File exists.") /\
  r <> Throw (MergeConflict proj1Branch) /\
  last (gitLog w') = Some (mkGitRun "/srv/repo" MergeAbort false) /\
  checkedOut "/srv/repo" (gitLog w') = Some "staging".
Proof.
  vm_compute. repeat split; try reflexivity; try discriminate.
  apply list_elem_of_In. simpl. tauto.
Qed.
(** ** Failures at the phase boundaries *)

(** [handleImplementation] when its chain throws: the error is handed to
    the [catch] block, whose outcome is that of the handler. *)
Lemma implementation_failure env cfg k w ts e wc :
  k ∉ processing w -> db w !! k = Some ts ->
  implementationChain env cfg k ts (marked k w) = (Throw e, wc) ->
  let '(r, w') := handleImplementation env cfg k w in
  match (reportImplementationError env cfg k e wc).1 with
  | Ok _ => r = Ok tt /\ phaseOf k w' = Some Failed
  | Throw e' => r = Throw e' /\ db w' = db w
  | Diverge => False
  end.
Proof.
  intros Hp Hdb Hc.
  rewrite (handleImplementation_unfold env cfg k w ts Hp Hdb).
  unfold tryFinally, tryCatch. rewrite Hc.
  pose proof (implementationChain_fruitless env cfg k ts (marked k w)) as Hq.
  rewrite Hc in Hq. destruct Hq as [Hqd Hql]. simpl in Hqd.
  pose proof (reportImplementationError_lastly env cfg k e wc) as Hr.
  destruct (reportImplementationError env cfg k e wc) as [[[] | e' |] wr];
    simpl; try tauto.
  - assert (Hdbc : db wc !! k = Some ts) by (rewrite Hqd; exact Hdb).
    destruct (Hr ts Hdbc) as (p & t & HP & Hd & Hl).
    destruct (finalizer_run env cfg k wr) as (w' & E & _ & [Hq _]).
    rewrite E. split; [reflexivity |]. subst p.
    unfold phaseOf. rewrite Hq, Hd, lookup_insert_eq. reflexivity.
  - destruct Hr as [Hrd _].
    destruct (finalizer_run env cfg k wr) as (w' & E & _ & [Hq _]).
    rewrite E. split; [reflexivity | congruence].
Qed.



(** ** One staging merge at a time *)

Lemma mergeIntoStaging_unlocked env cfg b w :
  unlocked w ->
  (mergeIntoStaging env cfg b w).1 <> Diverge /\
  unlocked (mergeIntoStaging env cfg b w).2.
Proof.
  intros Hw.
  pose proof (sound_mergeIntoStaging env cfg quietly quietly_observes b w Hw) as H.
  destruct (mergeIntoStaging env cfg b w) as [[a | e |] w']; simpl;
    try tauto; destruct H as [H _]; split; [discriminate | exact H | discriminate | exact H].
Qed.

Lemma mergeTurn_free env cfg b w :
  unlocked w ->
  mergeTurn env cfg (NotStarted b) w =
    (Returned (mergeIntoStaging env cfg b w).1, (mergeIntoStaging env cfg b w).2).
Proof.
  intros Hw. unfold mergeTurn, mergeIntoStaging. rewrite Hw.
  destruct ((modW (set_stagingLock true) ;;; mergeLocked env cfg b) w); reflexivity.
Qed.

Lemma turn_betweenTurns env cfg branches w i st :
  betweenTurns env cfg branches w st ->
  betweenTurns env cfg branches w (turn env cfg i st).
Proof.
  intros (Hw & order & Hnd & Hser & Hcalls). destruct st as [calls w']. simpl in *.
  unfold turn. simpl.
  destruct (calls !! i) as [c |] eqn:Ec; [| split; eauto].
  destruct (decide (i ∈ order)) as [Hi | Hi].
  - destruct (proj1 (Hcalls i) Hi) as (r & Hr & Er).
    assert (c = Returned r) as -> by congruence. simpl.
    rewrite list_insert_id by exact Ec. split; eauto.
  - pose proof (proj2 (Hcalls i) Hi) as Ei. rewrite Ec in Ei.
    destruct (branches !! i) as [b |] eqn:Eb; [| discriminate].
    simpl in Ei. injection Ei as ->.
    rewrite (mergeTurn_free env cfg b w' Hw).
    destruct (mergeIntoStaging_unlocked env cfg b w' Hw) as [Hnd' Hw''].
    split; [exact Hw'' |]. exists (order ++ [i]). simpl.
    split; [apply NoDup_app; repeat split; auto;
            [intros x Hx ->%list_elem_of_singleton; auto | apply NoDup_singleton] |].
    split.
    { unfold serial. rewrite fold_left_app. simpl. rewrite Eb.
      fold (serial env cfg branches order w). rewrite <- Hser. reflexivity. }
    intros j. destruct (decide (j = i)) as [-> | Hji].
    + split; [| intros Hn; exfalso; apply Hn, elem_of_app; right;
                apply list_elem_of_singleton; reflexivity].
      intros _. eexists. split; [exact Hnd' |].
      apply list_lookup_insert_eq. eapply lookup_lt_Some; eauto.
    + rewrite list_lookup_insert_ne by auto. split.
      * intros [Hj | Hj%list_elem_of_singleton]%elem_of_app; [| congruence].
        apply Hcalls; exact Hj.
      * intros Hj. apply Hcalls. intros Hj'. apply Hj, elem_of_app. left; exact Hj'.
Qed.

Lemma runSchedule_betweenTurns env cfg branches w sched :
  forall st, betweenTurns env cfg branches w st ->
             betweenTurns env cfg branches w (runSchedule env cfg sched st).
Proof.
  induction sched as [| i sched IH]; intros st H; simpl; [exact H |].
  apply IH, turn_betweenTurns, H.
Qed.

(** C9.  Calls of [mergeIntoStaging] for the branches of [branches] are
    given turns in any order, starting with the lock free.  Between turns
    the lock is free; the world reached is the one reached by running the
    started merges one after the other, each to its end, in the order in
    which they were first given a turn; every started call has returned or
    thrown and none is left suspended.  A merge started with the lock free
    ends with the lock free on every exit path, and a call that finds the
    lock held suspends without running any git command. *)
Theorem staging_merges_serialized env cfg branches sched w :
  unlocked w ->
  let '(calls, w') := runSchedule env cfg sched (NotStarted <$> branches, w) in
  unlocked w' /\
  (exists order,
     NoDup order /\ w' = serial env cfg branches order w /\
     forall i c, calls !! i = Some c ->
       match c with
       | Returned r => (i ∈ order) /\ r <> Diverge
       | NotStarted b => (i ∉ order) /\ branches !! i = Some b
       | Waiting _ => False
       end) /\
  (forall b w0, unlocked w0 ->
     (mergeIntoStaging env cfg b w0).1 <> Diverge /\
     unlocked (mergeIntoStaging env cfg b w0).2) /\
  (forall b w0, stagingLock w0 = true ->
     exists w1, mergeTurn env cfg (NotStarted b) w0 = (Waiting b, w1) /\
                gitLog w1 = gitLog w0 /\ stagingLock w1 = true).
Proof.
  intros Hw.
  assert (H0 : betweenTurns env cfg branches w (NotStarted <$> branches, w)).
  { split; [exact Hw |]. exists []. split; [constructor |]. split; [reflexivity |].
    intros i. split; [intros Hi; inversion Hi |].
    intros _. simpl. apply list_lookup_fmap. }
  pose proof (runSchedule_betweenTurns env cfg branches w sched _ H0) as H.
  destruct (runSchedule env cfg sched (NotStarted <$> branches, w)) as [calls w'].
  destruct H as (Hw' & order & Hnd & Hser & Hcalls). simpl in *.
  split; [exact Hw' |]. split; [| split].
  - exists order. split; [exact Hnd |]. split; [exact Hser |].
    intros i c Ec. destruct (decide (i ∈ order)) as [Hi | Hi].
    + destruct (proj1 (Hcalls i) Hi) as (r & Hr & Er).
      assert (c = Returned r) as -> by congruence. auto.
    + pose proof (proj2 (Hcalls i) Hi) as Ei. rewrite Ec in Ei.
      destruct (branches !! i) as [b |]; [| discriminate].
      simpl in Ei. injection Ei as ->. auto.
  - intros b w0 H0'. apply mergeIntoStaging_unlocked, H0'.
  - intros b w0 Hl. unfold mergeTurn. rewrite Hl. eexists.
    split; [reflexivity |]. split; [reflexivity | exact Hl].
Qed.

(** Two overlapping merges, the first of which conflicts. *)
Lemma staging_merges_serialized_witness :
  let branches := [proj1Branch; "claude/PROJ-2-fix-login"] in
  let st := runSchedule conflictEnv baseCfg [1; 0; 1; 0]%nat
                        (NotStarted <$> branches, emptyWorld) in
  unlocked emptyWorld /\ unlocked st.2 /\
  st.2 = serial conflictEnv baseCfg branches [1; 0]%nat emptyWorld.
Proof.
  cbv zeta.
  pose proof (staging_merges_serialized conflictEnv baseCfg
                [proj1Branch; "claude/PROJ-2-fix-login"] [1; 0; 1; 0]%nat
                emptyWorld eq_refl) as H.
  destruct (runSchedule conflictEnv baseCfg [1; 0; 1; 0]%nat
              (NotStarted <$> [proj1Branch; "claude/PROJ-2-fix-login"], emptyWorld))
    as [calls w'] eqn:E.
  destruct H as (Hw' & _). split; [reflexivity |].
  cbn [fst snd]. split; [exact Hw' |].
  replace w' with (snd (calls, w')) by reflexivity. rewrite <- E.
  vm_compute. reflexivity.
Defined.
(** ** The recovery loop of the staging workflow *)

(** Two continuations that agree on what [m] returns. *)
Lemma bind_cong {A B} (m : M A) (k1 k2 : A -> M B) w :
  (forall a w1, m w = (Ok a, w1) -> k1 a w1 = k2 a w1) ->
  bind m k1 w = bind m k2 w.
Proof.
  intros H. unfold bind. destruct (m w) as [[a | e |] w1]; auto.
Qed.

(** The loop over the attempts never starts a second round: the push of
    the build fix, made without the path of the worktree, never reports
    [pushed: true], and the round ends with an error. *)
Lemma attemptLoop_one_round env cfg left attempt wf k b s w :
  attemptLoop env cfg (S left) attempt wf k b s w
  = attemptLoop env cfg 1 attempt wf k b s w.
Proof.
  cbn [attemptLoop]. cbv zeta.
  apply bind_cong; intros t w1 _.
  apply bind_cong; intros [runId |] w2 _; [| reflexivity].
  destruct (runId =? 0)%Z; [reflexivity |].
  apply bind_cong; intros res w3 _.
  destruct (poll_success res); [reflexivity |].
  destruct (attempt >=? actionsMaxRetries cfg + 1)%Z; [reflexivity |].
  apply bind_cong; intros n w4 _.
  apply bind_cong; intros _ w5 _.
  apply bind_cong; intros fixResult w6 _.
  destruct (negb (success fixResult)); [reflexivity |].
  apply bind_cong; intros res' w7 Hpush.
  pose proof (commitAndPush_nowhere env (Push b) "No changes made by build fix" w6)
    as Hp.
  unfold pushBuildFix in Hpush. rewrite Hpush in Hp. rewrite Hp. reflexivity.
Qed.

(** C3.  The recovery loop with two retries configured and a workflow
    whose every run fails.  Whatever the bound, the loop never starts a
    second round.  Run on [PROJ-1], it asks the agent for one fix, then
    stops inside the push of that fix, where the name of the commit
    message file is built from a path that was not passed: the error
    raised is that [TypeError], not the permanent failure; nothing is
    pushed and nothing is merged again.  Reached through
    [handleImplementation], the loop is not entered at all: the push of the
    implementation stops in the same way before it. *)
Theorem recovery_loop_stops_in_first_cycle :
  (forall env cfg left attempt wf k b s w,
     attemptLoop env cfg (S left) attempt wf k b s w
     = attemptLoop env cfg 1 attempt wf k b s w) /\
  actionsMaxRetries ciCfg = 2%Z /\
  (let '(r, w') :=
     waitForStagingWorkflow redBuild ciCfg "PROJ-1" proj1Branch
                            "Add health check" emptyWorld in
   r = Throw PathNotString /\
   r <> Throw (WorkflowFailed 3 (Some "failure")) /\
   fixCalls (agentLog w') = 1%nat /\
   merges (gitLog w') = 0%nat /\
   existsb (fun run => isPush (cmd run)) (gitLog w') = false) /\
  (let '(r, w') :=
     handleImplementation redBuild ciCfg "PROJ-1"
                          (worldWith (proj1Row Approved)) in
   r = Ok tt /\
   fixCalls (agentLog w') = 0%nat /\
   githubLog w' = [] /\
   phaseOf "PROJ-1" w' = Some Failed).
Proof.
  split; [exact attemptLoop_one_round |].
  vm_compute. repeat split; try reflexivity. discriminate.
Qed.
(** ** Plan comments seen by the reconciliation pass *)

Lemma approvals_app k l1 l2 :
  approvals k (l1 ++ l2) = (approvals k l1 + approvals k l2)%nat.
Proof. unfold approvals. rewrite List.filter_app, length_app. reflexivity. Qed.

Lemma approvals_others k l : (forall wr, wr ∈ l -> keyOf wr <> k) -> approvals k l = 0%nat.
Proof.
  induction l as [| wr l IH]; intros H; [reflexivity |].
  unfold approvals in *. simpl.
  assert (Hwr : isApproval k wr = false).
  { pose proof (H wr ltac:(left)) as Hk. destruct wr as [k' p | k']; [| reflexivity].
    simpl in *. apply String.eqb_neq in Hk. rewrite Hk. reflexivity. }
  rewrite Hwr. apply IH. intros x Hx. apply H. right. exact Hx.
Qed.

Lemma keyed_observes : Observes keyed.
Proof.
  split; unfold keyed.
  - auto.
  - auto.
  - intros w w' -> _ _. auto.
Qed.

Lemma keyed_agent : AcceptsAgent keyed.
Proof. intros w c H. exact H. Qed.

Lemma others_observes k : Observes (others k).
Proof.
  split; unfold others.
  - intros w. exists []. rewrite app_nil_r. split; [reflexivity |].
    split; [intros wr H; inversion H | reflexivity].
  - intros a b c (l1 & E1 & H1 & D1) (l2 & E2 & H2 & D2).
    exists (l1 ++ l2). rewrite E2, E1, app_assoc. split; [reflexivity |].
    split; [| congruence].
    intros wr [H | H]%elem_of_app; auto.
  - intros w w' Hd Hl _. exists []. rewrite app_nil_r, Hd. split; [exact Hl |].
    split; [intros wr H; inversion H | reflexivity].
Qed.

Lemma others_agent k : AcceptsAgent (others k).
Proof.
  intros w c. exists []. rewrite app_nil_r. split; [reflexivity |].
  split; [intros wr H; inversion H | reflexivity].
Qed.

Lemma noApproval_observes k : Observes (noApproval k).
Proof.
  split; unfold noApproval.
  - intros w. exists []. rewrite app_nil_r. auto.
  - intros a b c (l1 & E1 & H1) (l2 & E2 & H2).
    exists (l1 ++ l2). rewrite E2, E1, app_assoc, approvals_app. split; [reflexivity | lia].
  - intros w w' Hd Hl _. exists []. rewrite app_nil_r. auto.
Qed.

Lemma noApproval_agent k : AcceptsAgent (noApproval k).
Proof. intros w c. exists []. rewrite app_nil_r. split; reflexivity. Qed.

Lemma advanced_observes k : Observes (advanced k).
Proof.
  split; unfold advanced.
  - intros w. exists []. rewrite app_nil_r. auto.
  - intros a b c (l1 & E1 & H1 & P1) (l2 & E2 & H2 & P2).
    exists (l1 ++ l2). rewrite E2, E1, app_assoc, approvals_app.
    split; [reflexivity |]. split; [lia | auto].
  - intros w w' Hd Hl _. exists []. rewrite app_nil_r. split; [exact Hl |].
    split; [reflexivity |]. unfold phaseOf. rewrite Hd. auto.
Qed.

Lemma advanced_agent k : AcceptsAgent (advanced k).
Proof.
  intros w c. exists []. rewrite app_nil_r. split; [reflexivity |].
  split; [reflexivity | auto].
Qed.

#[export] Hint Resolve keyed_observes keyed_agent others_observes others_agent
  noApproval_observes noApproval_agent advanced_observes advanced_agent : orch.

(** *** What one [upsertTask] does to these relations *)

Lemma upsertTask_run k p w :
  match upsertTask k p w with
  | (Ok _, w') =>
      stagingLock w' = stagingLock w /\
      dbLog w' = dbLog w ++ [Upsert k p] /\
      (forall j, j <> k -> db w' !! j = db w !! j) /\
      exists r, db w' !! k = Some r /\ issue_key r = match db w !! k with
                                                    | Some r0 => issue_key r0
                                                    | None => k
                                                    end /\
                phase r = match p_phase p, db w !! k with
                          | Some ph, _ => ph
                          | None, Some r0 => phase r0
                          | None, None => Planning
                          end
  | (Throw _, w') => w' = w
  | (Diverge, _) => False
  end.
Proof.
  unfold upsertTask, insertRow.
  destruct (unknownColumn p); [reflexivity |].
  destruct (db w !! k) as [r0 |] eqn:E.
  - simpl. repeat split; auto.
    + intros j Hj. apply lookup_insert_ne. auto.
    + eexists. rewrite lookup_insert_eq. split; [reflexivity |].
      split; [reflexivity |]. simpl. destruct (p_phase p); reflexivity.
  - destruct (p_phase p) as [ph |]; [| reflexivity].
    simpl. repeat split; auto.
    + intros j Hj. apply lookup_insert_ne. auto.
    + eexists. rewrite lookup_insert_eq. split; [reflexivity |].
      split; reflexivity.
Qed.

Lemma upsertTask_approval k text w ts :
  db w !! k = Some ts ->
  upsertTask k (approvalPatch text) w
  = (Ok tt, set_db (<[k := applyPatch (approvalPatch text) ts (now w)]> (db w))
                   (dbLog w ++ [Upsert k (approvalPatch text)]) w).
Proof. intros H. unfold upsertTask. rewrite H. reflexivity. Qed.

Lemma sound_upsert_keyed k p : sound keyed (upsertTask k p).
Proof.
  intros w Hw. pose proof (upsertTask_run k p w) as H.
  destruct (upsertTask k p w) as [[[] | e |] w']; try tauto.
  - destruct H as (HL & _ & Hne & r & Hr & Hk & _).
    split; [unfold unlocked in *; congruence |].
    intros Hwk j r' Hj. destruct (decide (j = k)) as [-> | Hjk].
    + assert (r' = r) as -> by congruence. rewrite Hk.
      destruct (db w !! k) as [r0 |] eqn:E; [apply Hwk; exact E | reflexivity].
    + rewrite Hne in Hj by exact Hjk. apply Hwk; exact Hj.
  - subst w'. split; [exact Hw | intros H'; exact H'].
Qed.

Lemma sound_upsert_others k j p : j <> k -> sound (others k) (upsertTask j p).
Proof.
  intros Hjk w Hw. pose proof (upsertTask_run j p w) as H.
  destruct (upsertTask j p w) as [[[] | e |] w']; try tauto.
  - destruct H as (HL & Hl & Hne & _).
    split; [unfold unlocked in *; congruence |].
    exists [Upsert j p]. split; [exact Hl |].
    split; [intros wr ->%list_elem_of_singleton; exact Hjk |].
    apply Hne. auto.
  - subst w'. split; [exact Hw | apply (obs_refl _ (others_observes k))].
Qed.

Lemma sound_upsert_noApproval k j p :
  p_phase p <> Some Approved -> sound (noApproval k) (upsertTask j p).
Proof.
  intros Hp w Hw. pose proof (upsertTask_run j p w) as H.
  destruct (upsertTask j p w) as [[[] | e |] w']; try tauto.
  - destruct H as (HL & Hl & _).
    split; [unfold unlocked in *; congruence |].
    exists [Upsert j p]. split; [exact Hl |].
    unfold approvals. simpl. rewrite bool_decide_eq_false_2 by exact Hp.
    rewrite andb_false_r. reflexivity.
  - subst w'. split; [exact Hw | apply (obs_refl _ (noApproval_observes k))].
Qed.

Lemma sound_upsert_advanced k p ph :
  p_phase p = Some ph -> ph <> Approved -> ph <> PlanPosted ->
  sound (advanced k) (upsertTask k p).
Proof.
  intros Hp Ha Hpp w Hw. pose proof (upsertTask_run k p w) as H.
  destruct (upsertTask k p w) as [[[] | e |] w']; try tauto.
  - destruct H as (HL & Hl & _ & r & Hr & _ & Hph).
    split; [unfold unlocked in *; congruence |].
    exists [Upsert k p]. split; [exact Hl |]. split.
    + unfold approvals. simpl. rewrite bool_decide_eq_false_2 by congruence.
      rewrite andb_false_r. reflexivity.
    + intros _. unfold phaseOf. rewrite Hr. simpl. rewrite Hph, Hp. congruence.
  - subst w'. split; [exact Hw | apply (obs_refl _ (advanced_observes k))].
Qed.

Ltac orch_with leaf :=
  unfold steady, sound in *;
  repeat first [ leaf | steady_lemma | sound_lemma | sat_step ].

Lemma sound_handleImplementation_keyed env cfg j :
  sound keyed (handleImplementation env cfg j).
Proof. orch_with ltac:(apply sound_upsert_keyed). Qed.

Lemma sound_handlePlanFeedback_keyed env cfg j text :
  sound keyed (handlePlanFeedback env cfg j text).
Proof. orch_with ltac:(apply sound_upsert_keyed). Qed.

Lemma sound_handleImplementation_others env cfg k j :
  j <> k -> sound (others k) (handleImplementation env cfg j).
Proof. intros H. orch_with ltac:(apply sound_upsert_others; exact H). Qed.

Lemma sound_handlePlanFeedback_others env cfg k j text :
  j <> k -> sound (others k) (handlePlanFeedback env cfg j text).
Proof. intros H. orch_with ltac:(apply sound_upsert_others; exact H). Qed.

Lemma sound_handleImplementation_advanced env cfg k :
  sound (advanced k) (handleImplementation env cfg k).
Proof.
  orch_with ltac:(first
    [ apply (sound_upsert_advanced k _ Test); [reflexivity | discriminate | discriminate]
    | apply (sound_upsert_advanced k _ Failed); [reflexivity | discriminate | discriminate] ]).
Qed.

Lemma sound_replan_noApproval env cfg k text ts :
  sound (noApproval k)
        (tryFinally (replanChain env cfg k text ts) (processingDelete k)).
Proof.
  orch_with ltac:(apply sound_upsert_noApproval; discriminate).
Qed.
(** *** Composing relations that are not preorders *)

Lemma sat_seq (P : World -> Prop) (Q R S : World -> World -> Prop)
    {A B} (m : M A) (k : A -> M B) :
  (forall a b c, Q a b -> R b c -> S a c) ->
  (forall a b, Q a b -> S a b) ->
  sat P Q m -> (forall a, sat P R (k a)) -> sat P S (bind m k).
Proof.
  intros HQR HQ Hm Hk w HP. unfold bind. specialize (Hm w HP).
  destruct (m w) as [[a | e |] w1]; try tauto.
  - destruct Hm as [HP1 HR1]. specialize (Hk a w1 HP1).
    destruct (k a w1) as [[b | e |] w2]; intuition eauto.
  - destruct Hm as [HP1 HR1]. eauto.
Qed.

Lemma sat_swallow (P : World -> Prop) (R : World -> World -> Prop) (m : M unit) :
  sat P R m -> sat P R (tryCatch m (fun _ => ret tt)).
Proof.
  intros Hm w HP. unfold tryCatch. specialize (Hm w HP).
  destruct (m w) as [[a | e |] w1]; simpl; tauto.
Qed.

Lemma handled_refl k w : handled k w w.
Proof.
  exists []. rewrite app_nil_r. split; [reflexivity |].
  split; [unfold approvals; simpl; lia | unfold approvals; simpl; discriminate].
Qed.

Lemma others_then_handled k a b c : others k a b -> handled k b c -> handled k a c.
Proof.
  intros (l1 & E1 & H1 & D1) (l2 & E2 & H2 & P2).
  exists (l1 ++ l2). rewrite E2, E1, app_assoc, approvals_app.
  rewrite (approvals_others k l1 H1). split; [reflexivity |].
  split; [exact H2 | exact P2].
Qed.

Lemma handled_then_others k a b c : handled k a b -> others k b c -> handled k a c.
Proof.
  intros (l1 & E1 & H1 & P1) (l2 & E2 & H2 & D2).
  exists (l1 ++ l2). rewrite E2, E1, app_assoc, approvals_app.
  rewrite (approvals_others k l2 H2), Nat.add_0_r. split; [reflexivity |].
  split; [exact H1 |]. unfold phaseOf in *. rewrite D2. exact P1.
Qed.

Lemma others_handled k a b : others k a b -> handled k a b.
Proof.
  intros H. apply (others_then_handled k a b b H), handled_refl.
Qed.

Lemma noApproval_handled k a b : noApproval k a b -> handled k a b.
Proof.
  intros (l & E & H). exists l. split; [exact E |]. rewrite H.
  split; [lia | discriminate].
Qed.

(** *** One comment *)

Lemma sound_handlePlanFeedback_handled env cfg k text :
  sound (handled k) (handlePlanFeedback env cfg k text).
Proof.
  intros w Hw. unfold handlePlanFeedback.
  unfold bind at 1. unfold isProcessing, getW.
  destruct (bool_decide _); [split; [exact Hw | apply handled_refl] |].
  unfold bind at 1. unfold getTask, getW.
  destruct (db w !! k) as [ts |] eqn:Hdb; [| split; [exact Hw | apply handled_refl]].
  cbv zeta. destruct (JsString.startsWith _ _).
  - unfold bind at 1. rewrite (upsertTask_approval k text w ts Hdb).
    set (w1 := set_db _ _ w).
    assert (Hw1 : unlocked w1) by exact Hw.
    pose proof (sound_handleImplementation_advanced env cfg k w1 Hw1) as H.
    destruct (handleImplementation env cfg k w1) as [[[] | e |] w2]; try tauto;
      destruct H as [Hw2 (l & El & Hl & Hp)].
    all: split; [exact Hw2 |].
    all: exists (Upsert k (approvalPatch text) :: l).
    all: split; [rewrite El; subst w1; cbn [dbLog set_db];
                 rewrite <- app_assoc; reflexivity |].
    all: assert (Ha : approvals k (Upsert k (approvalPatch text) :: l) = 1%nat)
      by (change (Upsert k (approvalPatch text) :: l)
            with ([Upsert k (approvalPatch text)] ++ l);
          rewrite approvals_app, Hl; unfold approvals; simpl;
          rewrite String.eqb_refl; reflexivity).
    all: rewrite Ha; split; [lia |]; intros _; apply Hp.
    all: subst w1; unfold phaseOf; cbn [db set_db]; rewrite lookup_insert_eq;
      simpl; discriminate.
  - pose proof (sound_replan_noApproval env cfg k text ts) as H.
    unfold bind at 1. unfold processingAdd, modW.
    specialize (H (set_processing ({[k]} ∪ processing w) w) Hw).
    destruct (tryFinally _ _ _) as [[[] | e |] w2]; try tauto;
      destruct H as [Hw2 H]; (split; [exact Hw2 |]);
      apply noApproval_handled in H; destruct H as (l & E & H); exists l;
      (split; [exact E | exact H]).
Qed.
(** *** One task of the pass *)

Lemma sound_scanPlanTask_keyed env cfg ts : sound keyed (scanPlanTask env cfg ts).
Proof. orch_with ltac:(apply sound_handlePlanFeedback_keyed). Qed.

Lemma sound_scanPlanTask_others env cfg k ts :
  issue_key ts <> k -> sound (others k) (scanPlanTask env cfg ts).
Proof.
  intros H. orch_with ltac:(apply sound_handlePlanFeedback_others; exact H).
Qed.

Lemma sound_scanPlanTask_handled env cfg ts :
  sound (handled (issue_key ts)) (scanPlanTask env cfg ts).
Proof.
  unfold scanPlanTask.
  eapply (sat_seq _ (others (issue_key ts))).
  - apply others_then_handled.
  - apply others_handled.
  - orch.
  - intros [].
    + intros w Hw. split; [exact Hw | apply handled_refl].
    + apply sat_swallow.
      eapply (sat_seq _ (others (issue_key ts))).
      * apply others_then_handled.
      * apply others_handled.
      * orch.
      * intros n. cbv zeta. destruct (newestHumanComment _ _).
        -- apply sound_handlePlanFeedback_handled.
        -- intros w Hw. split; [exact Hw | apply handled_refl].
Qed.

Lemma scanPlanTask_catches env cfg ts w e : (scanPlanTask env cfg ts w).1 <> Throw e.
Proof.
  unfold scanPlanTask, bind, isProcessing, getW.
  destruct (bool_decide _); [discriminate |].
  unfold tryCatch.
  match goal with |- (let (o, w') := ?m in _).1 <> _ =>
    destruct m as [[[] | e' |] w1]; discriminate
  end.
Qed.

(** *** The loop over the tasks *)

Lemma pass_catches env cfg l w e :
  (forEach l (scanPlanTask env cfg) w).1 <> Throw e.
Proof.
  revert w; induction l as [| ts l IH]; intros w; simpl; [discriminate |].
  unfold bind. pose proof (scanPlanTask_catches env cfg ts w) as H.
  destruct (scanPlanTask env cfg ts w) as [[[] | e' |] w1].
  - apply IH.
  - destruct (H e' eq_refl).
  - discriminate.
Qed.

Lemma sound_pass_others env cfg k l :
  (forall ts, ts ∈ l -> issue_key ts <> k) ->
  sound (others k) (forEach l (scanPlanTask env cfg)).
Proof.
  intros H. apply sat_forEach.
  - apply (obs_refl _ (others_observes k)).
  - apply (obs_trans _ (others_observes k)).
  - intros ts Hts. apply sound_scanPlanTask_others, H, Hts.
Qed.

Lemma sound_pass_handled env cfg k l :
  NoDup (issue_key <$> l) -> sound (handled k) (forEach l (scanPlanTask env cfg)).
Proof.
  induction l as [| ts l IH]; intros Hnd.
  - intros w Hw. split; [exact Hw | apply handled_refl].
  - rewrite fmap_cons in Hnd. apply NoDup_cons in Hnd as [Hts Hl].
    change (forEach (ts :: l) (scanPlanTask env cfg))
      with (scanPlanTask env cfg ts ;;; forEach l (scanPlanTask env cfg)).
    destruct (decide (issue_key ts = k)) as [<- | Hk].
    + eapply (sat_seq _ (handled (issue_key ts)) (others (issue_key ts))).
      * apply handled_then_others.
      * auto.
      * apply sound_scanPlanTask_handled.
      * intros _. apply sound_pass_others. intros x Hx E. apply Hts.
        rewrite <- E. apply list_elem_of_fmap. exists x. split; [reflexivity | exact Hx].
    + eapply (sat_seq _ (others k) (handled k)).
      * apply others_then_handled.
      * apply others_handled.
      * apply sound_scanPlanTask_others, Hk.
      * intros _. apply IH, Hl.
Qed.

(** *** The rows the pass visits *)

Lemma planTasks_rows (m : gmap string TaskRow) ts :
  ts ∈ filter (fun r => phase r = PlanPosted) (snd <$> map_to_list m) ->
  phase ts = PlanPosted /\ exists j, m !! j = Some ts.
Proof.
  intros [Hph Hin]%list_elem_of_filter. split; [exact Hph |].
  apply list_elem_of_fmap in Hin as ([j r] & -> & Hin).
  exists j. apply elem_of_map_to_list in Hin. exact Hin.
Qed.

Lemma planTasks_NoDup (m : gmap string TaskRow) :
  wellKeyed m ->
  NoDup (issue_key <$> filter (fun r => phase r = PlanPosted) (snd <$> map_to_list m)).
Proof.
  intros Hm.
  eapply sublist_NoDup; [| apply fmap_sublist, sublist_filter].
  rewrite <- list_fmap_compose.
  assert (E : (issue_key ∘ snd) <$> map_to_list m = fst <$> map_to_list m).
  { apply list_fmap_ext. intros i [j r] Hi. simpl.
    apply Hm. apply elem_of_map_to_list. eapply list_elem_of_lookup_2. exact Hi. }
  rewrite E. apply NoDup_fst_map_to_list.
Qed.
(** *** The re-planning and the watermark *)

Lemma replan_watermark env cfg k text w ts :
  db w !! k = Some ts ->
  let '(r, w') :=
    tryFinally (replanChain env cfg k text ts) (processingDelete k) (marked k w) in
  r <> Diverge /\ now w <= now w' /\ (k ∉ processing w') /\
  (replanSucceeds env (tick w) ->
     r = Ok tt /\ phaseOf k w' = Some PlanPosted /\
     watermark k w' = Some (Some (now w'))) /\
  (~ replanSucceeds env (tick w) -> quietly w w').
Proof.
  intros Hdb. unfold replanSucceeds, watermark, phaseOf, quietly. run_defs.
  assert (Hk : forall X : gset string, k ∉ ({[k]} ∪ X) ∖ {[k]}).
  { intros X [_ H]%elem_of_difference. apply H, elem_of_singleton. reflexivity. }
  destruct (fails env (tick w)) eqn:Hf0; world_simpl.
  { split; [discriminate |]. split; [lia |]. split; [apply Hk |].
    split; [intros [F _]; discriminate | intros _; split; reflexivity]. }
  rewrite iterate_spec. destruct (fold_left _ _ _) as [[out sid] cost].
  destruct (ending _) as [[| message] |] eqn:He; crunch.
  all: rewrite ?Hdb; world_simpl.
  all: split; [discriminate |].
  all: split; [lia |].
  all: split; [apply Hk |].
  all: first
    [ split; [intros (F1 & F2 & F3); discriminate | intros _; split; reflexivity]
    | split; [| intros F; destruct F; auto];
      intros _; split; [reflexivity |]; rewrite lookup_insert_eq;
      split; reflexivity ].
Qed.

Lemma newWrites_app w w' l : dbLog w' = dbLog w ++ l -> newWrites w w' = l.
Proof. intros E. unfold newWrites. rewrite E. apply drop_app_length. Qed.

(** *** The approval *)

Lemma handlePlanFeedback_approves env cfg k text w ts :
  unlocked w -> k ∉ processing w -> db w !! k = Some ts ->
  JsString.startsWith (JsString.toLowerCase text) "approve" = true ->
  let '(r, w') := handlePlanFeedback env cfg k text w in
  r <> Diverge /\ approvals k (newWrites w w') = 1%nat /\
  phaseOf k w' <> Some PlanPosted.
Proof.
  intros Hw Hp Hdb Hs. unfold handlePlanFeedback.
  unfold bind at 1. rewrite (isProcessing_false _ _ Hp).
  unfold bind at 1. unfold getTask, getW. rewrite Hdb, Hs.
  unfold bind at 1. rewrite (upsertTask_approval k text w ts Hdb).
  set (w1 := set_db _ _ w).
  assert (Hw1 : unlocked w1) by exact Hw.
  pose proof (sound_handleImplementation_advanced env cfg k w1 Hw1) as H.
  destruct (handleImplementation env cfg k w1) as [[[] | e |] w2]; try tauto;
    destruct H as [Hw2 (l & El & Hl & Hph)].
  all: split; [discriminate |].
  all: assert (E : dbLog w2 = dbLog w ++ Upsert k (approvalPatch text) :: l)
    by (rewrite El; subst w1; cbn [dbLog set_db]; rewrite <- app_assoc; reflexivity).
  all: rewrite (newWrites_app _ _ _ E).
  all: split;
    [ change (Upsert k (approvalPatch text) :: l)
        with ([Upsert k (approvalPatch text)] ++ l);
      rewrite approvals_app, Hl; unfold approvals; simpl;
      rewrite String.eqb_refl; reflexivity
    | apply Hph; subst w1; unfold phaseOf; cbn [db set_db];
      rewrite lookup_insert_eq; simpl; discriminate ].
Qed.

(** *** One pass *)

Lemma reconcilePlanApprovals_run env cfg k w :
  unlocked w -> wellKeyed (db w) ->
  exists w',
    reconcilePlanApprovals env cfg w = (Ok tt, w') /\
    unlocked w' /\ wellKeyed (db w') /\ handled k w w' /\
    (phaseOf k w <> Some PlanPosted -> others k w w').
Proof.
  intros Hw Hk. unfold reconcilePlanApprovals, bind, getTasksByPhase, getW.
  set (l := filter _ _).
  assert (Hl : forall ts, ts ∈ l -> phase ts = PlanPosted /\ db w !! issue_key ts = Some ts).
  { intros ts Hts. apply planTasks_rows in Hts as [Hph [j Hj]].
    split; [exact Hph |]. rewrite (Hk j ts Hj). exact Hj. }
  assert (Ho : phaseOf k w <> Some PlanPosted ->
               sound (others k) (forEach l (scanPlanTask env cfg))).
  { intros Hph. apply sound_pass_others. intros ts Hts <-. apply Hph.
    destruct (Hl ts Hts) as [H1 H2]. unfold phaseOf. rewrite H2. simpl.
    rewrite H1. reflexivity. }
  assert (Ho' : phaseOf k w <> Some PlanPosted ->
                match forEach l (scanPlanTask env cfg) w with
                | (Diverge, _) => False
                | (_, w') => unlocked w' /\ others k w w'
                end) by (intros Hph; exact (Ho Hph w Hw)).
  pose proof (sound_pass_handled env cfg k l (planTasks_NoDup (db w) Hk) w Hw) as Hh.
  assert (Hkeyed : sound keyed (forEach l (scanPlanTask env cfg))).
  { apply sat_forEach; [intros ? H; exact H | intros a b c H1 H2 H; auto |].
    intros ts _. apply sound_scanPlanTask_keyed. }
  specialize (Hkeyed w Hw).
  pose proof (pass_catches env cfg l w) as Hc.
  destruct (forEach l (scanPlanTask env cfg) w) as [[[] | e |] w'].
  - exists w'. split; [reflexivity |]. destruct Hh as [Hw' Hh].
    split; [exact Hw' |]. split; [apply Hkeyed, Hk |]. split; [exact Hh |].
    intros Hph. apply Ho', Hph.
  - destruct (Hc e eq_refl).
  - destruct Hh.
Qed.

(** *** Two passes *)

Lemma two_passes env cfg k w :
  unlocked w -> wellKeyed (db w) ->
  exists w1 w2,
    reconcilePlanApprovals env cfg w = (Ok tt, w1) /\
    reconcilePlanApprovals env cfg w1 = (Ok tt, w2) /\
    (approvals k (newWrites w w2) <= 1)%nat /\
    (approvals k (newWrites w w1) = 1%nat ->
       phaseOf k w1 <> Some PlanPosted /\
       forall wr, wr ∈ newWrites w1 w2 -> keyOf wr <> k).
Proof.
  intros Hw Hk.
  destruct (reconcilePlanApprovals_run env cfg k w Hw Hk)
    as (w1 & E1 & Hw1 & Hk1 & (l1 & L1 & A1 & P1) & _).
  destruct (reconcilePlanApprovals_run env cfg k w1 Hw1 Hk1)
    as (w2 & E2 & _ & _ & (l2 & L2 & A2 & _) & O2).
  exists w1, w2. split; [exact E1 |]. split; [exact E2 |].
  rewrite (newWrites_app w w1 l1 L1).
  assert (L : dbLog w2 = dbLog w ++ (l1 ++ l2)) by (rewrite L2, L1, app_assoc; reflexivity).
  rewrite (newWrites_app w w2 _ L), approvals_app.
  destruct (decide (approvals k l1 = 1%nat)) as [E | NE].
  - destruct (O2 (P1 E)) as (l & L' & Hl & _).
    assert (El : l2 = l) by (rewrite L2 in L'; apply app_inv_head in L'; exact L').
    subst l.
    rewrite (approvals_others k l2 Hl). split; [lia |].
    intros _. split; [exact (P1 E) |]. rewrite (newWrites_app w1 w2 l2 L2). exact Hl.
  - split; [lia |]. intros E; destruct (NE E).
Qed.

(** *** What the scan hands to the handler *)

Lemma scanNewestFirst_none l wm :
  (forall c, c ∈ l ->
     JsString.startsWith (JsString.trim (c_text c)) botMarker = false ->
     c_created c <= wm) ->
  scanNewestFirst l wm = None.
Proof.
  induction l as [| c l IH]; intros H; [reflexivity |]. simpl.
  destruct (JsString.startsWith _ _) eqn:E.
  - apply IH. intros c' Hc'. apply H. right. exact Hc'.
  - assert (Hc : c_created c <= wm) by (apply H; [left | exact E]).
    apply Z.leb_le in Hc. rewrite Hc. reflexivity.
Qed.

(** With no comment of a human newer than the watermark of the row, the
    scan of one task reads the issue and does nothing else. *)
Lemma scanPlanTask_nothing_new env cfg ts w :
  (forall c, c ∈ i_comments (issue env (tick w)) ->
     JsString.startsWith (JsString.trim (c_text c)) botMarker = false ->
     c_created c <= JsString.nullish (plan_posted_at ts) (updated_at ts)) ->
  let '(r, w') := scanPlanTask env cfg ts w in
  r = Ok tt /\ agentLog w' = agentLog w /\ quietly w w'.
Proof.
  intros H. unfold scanPlanTask, quietly.
  unfold bind at 1. unfold isProcessing, getW.
  destruct (bool_decide _); [repeat split; reflexivity |].
  run_defs.
  destruct (fails env (tick w)); world_simpl; [repeat split; reflexivity |].
  unfold newestHumanComment. rewrite scanNewestFirst_none.
  - repeat split; reflexivity.
  - intros c Hc. apply H. apply list_elem_of_In, in_rev, list_elem_of_In, Hc.
Qed.

(** With a comment of a human newer than the watermark, the scan hands
    its text to [handlePlanFeedback]. *)
Lemma scanPlanTask_picks env cfg ts w text :
  issue_key ts ∉ processing w -> fails env (tick w) = None ->
  newestHumanComment (i_comments (issue env (tick w)))
    (JsString.nullish (plan_posted_at ts) (updated_at ts)) = Some text ->
  scanPlanTask env cfg ts w
  = tryCatch (handlePlanFeedback env cfg (issue_key ts) text) (fun _ => ret tt)
             (jira env (GetIssue (issue_key ts)) w).2.
Proof.
  intros Hp Hf Hn. unfold scanPlanTask.
  unfold bind at 1. rewrite (isProcessing_false _ _ Hp).
  unfold tryCatch at 1. unfold bind at 1.
  unfold jira, external, interact, bind, modW, ret. rewrite Hf. world_simpl.
  cbv zeta. rewrite Hn. unfold tryCatch.
  destruct (handlePlanFeedback _ _ _ _ _) as [[[] | e |] w1]; reflexivity.
Qed.

(** *** The watermark and the single approval *)

Lemma wellKeyed_worldWith r : wellKeyed (db (worldWith r)).
Proof.
  intros j r' H. unfold worldWith in H. cbn [db set_db] in H.
  apply lookup_insert_Some in H as [[<- <-] | [_ H]]; [reflexivity |].
  rewrite lookup_empty in H. discriminate.
Defined.



(** * What the handlers may do *)

(** ** Rules for [keeps] *)

Section Keeps.

Variable R : World -> World -> Prop.
Hypothesis R_refl : forall w, R w w.
Hypothesis R_trans : forall a b c, R a b -> R b c -> R a c.

Lemma keeps_ret {A} (a : A) : keeps R (ret a).
Proof. intros w; simpl; auto. Qed.

Lemma keeps_throw {A} (e : Error) : keeps R (@throw A e).
Proof. intros w; simpl; auto. Qed.

Lemma keeps_diverge {A} : keeps R (@diverge A).
Proof. intros w; exact I. Qed.

Lemma keeps_getW {A} (f : World -> A) : keeps R (getW f).
Proof. intros w; simpl; auto. Qed.

Lemma keeps_bind {A B} (m : M A) (k : A -> M B) :
  keeps R m -> (forall a, keeps R (k a)) -> keeps R (bind m k).
Proof.
  intros Hm Hk w. unfold bind. specialize (Hm w).
  destruct (m w) as [[a | e |] w1]; auto.
  specialize (Hk a w1). destruct (k a w1) as [[b | e |] w2]; eauto.
Qed.

Lemma keeps_tryCatch {A} (body : M A) (handler : Error -> M A) :
  keeps R body -> (forall e, keeps R (handler e)) -> keeps R (tryCatch body handler).
Proof.
  intros Hm Hk w. unfold tryCatch. specialize (Hm w).
  destruct (body w) as [[a | e |] w1]; auto.
  specialize (Hk e w1). destruct (handler e w1) as [[b | e' |] w2]; eauto.
Qed.

Lemma keeps_tryFinally {A} (body : M A) (fin : M unit) :
  keeps R body -> keeps R fin -> keeps R (tryFinally body fin).
Proof.
  intros Hm Hk w. unfold tryFinally. specialize (Hm w).
  destruct (body w) as [[a | e |] w1]; auto;
    specialize (Hk w1); destruct (fin w1) as [[b | e' |] w2]; eauto.
Qed.

Lemma keeps_forEach {A} (l : list A) (body : A -> M unit) :
  (forall x, x ∈ l -> keeps R (body x)) -> keeps R (forEach l body).
Proof.
  induction l as [| x l IH]; intros H; simpl.
  - apply keeps_ret.
  - apply keeps_bind; [apply H; left | intros _; apply IH].
    intros y Hy; apply H; right; exact Hy.
Qed.

End Keeps.

(** A computation that ends: what it keeps, it relates. *)
Lemma keeps_sound R Q {A} (m : M A) w :
  keeps R m -> sound Q m -> unlocked w ->
  match m w with
  | (Diverge, _) => False
  | (_, w') => unlocked w' /\ R w w'
  end.
Proof.
  intros HK HS Hw. specialize (HK w). specialize (HS w Hw).
  destruct (m w) as [[a | e |] w']; try tauto.
Qed.

(** ** [within] is a preorder *)

Lemma grown_refl {A} (P : A -> Prop) l : grown P l l.
Proof. exists []. rewrite app_nil_r. split; [reflexivity | constructor]. Qed.

Lemma grown_trans {A} (P : A -> Prop) a b c :
  grown P a b -> grown P b c -> grown P a c.
Proof.
  intros (d1 & -> & H1) (d2 & -> & H2). exists (d1 ++ d2).
  rewrite app_assoc. split; [reflexivity | apply Forall_app; auto].
Qed.

Lemma grown_one {A} (P : A -> Prop) l x : P x -> grown P l (l ++ [x]).
Proof. intros H. exists [x]. split; [reflexivity | repeat constructor; exact H]. Qed.

Lemma grown_weaken {A} (P Q : A -> Prop) l l' :
  (forall x, P x -> Q x) -> grown P l l' -> grown Q l l'.
Proof.
  intros H (d & -> & Hd). exists d. split; [reflexivity |].
  eapply Forall_impl; eauto.
Qed.

Section Within.

Variable pol : Policy.
Hypothesis marks_refl : forall s, okMarks pol s s.
Hypothesis marks_trans :
  forall a b c, okMarks pol a b -> okMarks pol b c -> okMarks pol a c.

Lemma within_refl w : within pol w w.
Proof.
  unfold within. repeat split; try apply grown_refl; auto; lia.
Qed.

Lemma within_trans a b c : within pol a b -> within pol b c -> within pol a c.
Proof.
  intros (J1 & G1 & T1 & A1 & D1 & M1 & K1 & N1)
         (J2 & G2 & T2 & A2 & D2 & M2 & K2 & N2).
  unfold within. repeat split; try (eapply grown_trans; eassumption);
    eauto; lia.
Qed.

End Within.
(** ** The primitives *)

Ltac within_now :=
  unfold within;
  cbn [tick now db dbLog processing jiraLog githubLog agentLog activeWorktrees
       stagingLock gitLog set_clock set_db set_processing set_jiraLog
       set_githubLog set_agentLog set_activeWorktrees set_stagingLock
       set_gitLog];
  repeat split;
  first [ apply grown_refl | apply grown_one; assumption | solve [auto] | lia ].

Lemma delayOf_pos idx : 0 < delayOf idx.
Proof.
  unfold delayOf, intervals. cbn [length Nat.sub].
  destruct idx as [| [| [| idx]]]; cbn; lia.
Qed.

Section Primitives.

Variable env : Env.
Variable cfg : Config.
Variable pol : Policy.
Hypothesis marks_refl : forall s, okMarks pol s s.
Hypothesis marks_trans :
  forall a b c, okMarks pol a b -> okMarks pol b c -> okMarks pol a c.

Lemma keeps_interact : keeps (within pol) (interact env).
Proof. intros w; simpl. within_now. Qed.

Lemma keeps_sleep ms : 0 <= ms -> keeps (within pol) (sleep env ms).
Proof. intros H w; simpl. within_now. Qed.

Lemma keeps_jira c : okJira pol c -> keeps (within pol) (jira env c).
Proof.
  intros H w. unfold jira, external, interact, bind, modW, ret, throw.
  destruct (fails env (tick w)); within_now.
Qed.

Lemma keeps_github c : okGitHub pol c -> keeps (within pol) (github env c).
Proof.
  intros H w. unfold github, external, interact, bind, modW, ret, throw.
  destruct (fails env (tick w)); within_now.
Qed.

Lemma keeps_githubDeleteBranch ref :
  okGitHub pol (DeleteBranch ref) -> keeps (within pol) (githubDeleteBranch env ref).
Proof.
  intros H w. unfold githubDeleteBranch, interact, bind, modW, ret.
  destruct (fails env (tick w)); within_now.
Qed.

Lemma keeps_external : keeps (within pol) (external env).
Proof.
  intros w. unfold external, interact, bind, ret, throw.
  destruct (fails env (tick w)); within_now.
Qed.

Lemma keeps_gitAt dir c :
  (forall b, okGit pol (mkGitRun dir c b)) -> keeps (within pol) (gitAt env dir c).
Proof.
  intros H w. unfold gitAt, interact, bind, modW, ret, throw.
  pose proof (H true). pose proof (H false).
  destruct (fails env (tick w)); within_now.
Qed.

Lemma keeps_runClaudeSDK mode dir resume :
  okAgent pol (mkAgentCall mode (JsString.nullish dir (repoPath cfg)) resume) ->
  keeps (within pol) (runClaudeSDK env cfg mode dir resume).
Proof.
  intros H w. unfold runClaudeSDK, interact, bind, modW, ret, throw.
  cbn [fst snd].
  destruct (iterate _ _) as [[[out sid] cost] [[| message] |]]; within_now.
Qed.

Lemma keeps_upsertTask k p :
  (unknownColumn p = None -> okWrite pol (Upsert k p)) ->
  keeps (within pol) (upsertTask k p).
Proof.
  intros H w. unfold upsertTask.
  destruct (unknownColumn p); [within_now |]. specialize (H eq_refl).
  destruct (db w !! k); [within_now |].
  destruct (insertRow k p (now w)); within_now.
Qed.

Lemma keeps_deleteTask k :
  okWrite pol (Delete k) -> keeps (within pol) (deleteTask k).
Proof. intros H w. unfold deleteTask, modW. within_now. Qed.

Lemma keeps_processingAdd k :
  (forall s, okMarks pol s ({[k]} ∪ s)) -> keeps (within pol) (processingAdd k).
Proof. intros H w. unfold processingAdd, modW. pose proof (H (processing w)). within_now. Qed.

Lemma keeps_processingDelete k :
  (forall s, okMarks pol s (s ∖ {[k]})) -> keeps (within pol) (processingDelete k).
Proof. intros H w. unfold processingDelete, modW. pose proof (H (processing w)). within_now. Qed.

Lemma keeps_setWorktrees f :
  keeps (within pol) (modW (fun w => set_activeWorktrees (f w) w)).
Proof. intros w. unfold modW. within_now. Qed.

Lemma keeps_setLock b : keeps (within pol) (modW (set_stagingLock b)).
Proof. intros w. unfold modW. within_now. Qed.

End Primitives.
(** ** Automation *)

Lemma sameMarks_refl s : sameMarks s s.
Proof. reflexivity. Qed.

Lemma sameMarks_trans a b c : sameMarks a b -> sameMarks b c -> sameMarks a c.
Proof. unfold sameMarks. congruence. Qed.

(** Side conditions: what the policy has to allow. *)
Ltac allowed :=
  solve
    [ exact I
    | reflexivity
    | assumption
    | eexists; reflexivity
    | discriminate
    | intros ?;
      first [ exact I | assumption | discriminate | eexists; reflexivity ]
    | cbn; first [ exact I | assumption | reflexivity | discriminate ] ].

Ltac keeps_leaf :=
  first
    [ apply keeps_interact
    | apply keeps_external
    | apply keeps_sleep
    | apply keeps_jira
    | apply keeps_github
    | apply keeps_githubDeleteBranch
    | apply keeps_gitAt
    | apply keeps_runClaudeSDK
    | apply keeps_upsertTask
    | apply keeps_deleteTask
    | apply keeps_setWorktrees
    | apply keeps_setLock ];
  first [ exact sameMarks_refl | lia | apply Z.lt_le_incl, delayOf_pos | allowed ].

(** One structural step; the context holds the reflexivity and the
    transitivity of the relation. *)
Ltac keeps_step :=
  first
    [ apply keeps_ret; assumption
    | apply keeps_throw; assumption
    | apply keeps_getW; assumption
    | apply keeps_bind; [assumption | | intros ?]
    | apply keeps_tryCatch; [assumption | | intros ?]
    | apply keeps_tryFinally; [assumption | |]
    | apply keeps_forEach; [assumption | assumption | intros ? _]
    | progress unfold assignIfSet, smokeTestStaging, getAssignBackId, fsOp,
        gitQuiet, git, createPlan, implementPlan, rework, fixBuildFailure,
        createBranch, gitIn, cleanupWorktree, cleanup, dateNow, getTask,
        isProcessing
    | match goal with
      | |- keeps _ (let _ := _ in _) => cbv zeta
      | |- keeps _ (if ?b then _ else _) => destruct b
      | |- keeps _ (match ?x with _ => _ end) => destruct x
      end ].

Ltac keeps_start pol :=
  let Hr := fresh "Hrefl" in
  let Ht := fresh "Htrans" in
  pose proof (within_refl pol sameMarks_refl) as Hr;
  pose proof (within_trans pol sameMarks_trans) as Ht.

Ltac keeps_go := repeat first [ keeps_leaf | keeps_step ].

(** ** Planning *)

Lemma keeps_planChain env cfg k s d c :
  keeps (within (newTaskPolicy k)) (planChain env cfg k s d c).
Proof. keeps_start (newTaskPolicy k). keeps_go. Qed.

Lemma keeps_reportPlanningError env cfg k c e :
  keeps (within (newTaskPolicy k)) (reportPlanningError env cfg k c e).
Proof. keeps_start (newTaskPolicy k). keeps_go. Qed.

Lemma keeps_replanChain env cfg k text ts :
  keeps (within (planPolicy k)) (replanChain env cfg k text ts).
Proof. keeps_start (planPolicy k). keeps_go. Qed.
(** ** Implementation and rework *)

Lemma keeps_bind_val R {A B} (Q : A -> Prop) (m : M A) (k : A -> M B) :
  (forall a b c, R a b -> R b c -> R a c) ->
  keeps R m -> yields Q m ->
  (forall a, Q a -> keeps R (k a)) -> keeps R (bind m k).
Proof.
  intros Ht Hm HQ Hk w. unfold bind. specialize (Hm w). specialize (HQ w).
  destruct (m w) as [[a | e |] w1]; auto.
  specialize (Hk a HQ w1).
  destruct (k a w1) as [[b | e |] w2]; eauto.
Qed.

Section Building.

Variable env : Env.
Variable cfg : Config.
Variable k : string.

(** A push started without a worktree path asks for the status of the
    directory of the process, adds its changes and stops. *)
Lemma keeps_commitAndPush_nowhere push why :
  keeps (within (buildPolicy k)) (commitAndPush env None push why).
Proof.
  keeps_start (buildPolicy k). unfold commitAndPush.
  apply keeps_bind; [assumption | keeps_go | intros n].
  destruct (negb _); [keeps_go |].
  apply keeps_bind; [assumption | keeps_go | intros _].
  apply (keeps_bind_val _ (fun _ => False));
    [assumption | unfold commitMsgFile; keeps_go | intros w; exact I
    | intros ? []].
Qed.

Lemma keeps_cleanup : keeps (within (buildPolicy k)) (cleanup env cfg).
Proof. keeps_start (buildPolicy k). keeps_go. Qed.

Lemma keeps_reworkChain fb b ts :
  keeps (within (buildPolicy k)) (reworkChain env cfg k fb b ts).
Proof.
  keeps_start (buildPolicy k). unfold reworkChain.
  apply keeps_bind; [assumption | keeps_go | intros _].
  apply keeps_bind; [assumption | keeps_go | intros _].
  apply keeps_bind; [assumption | keeps_go | intros result].
  destruct (negb (success result)); [keeps_go |].
  apply (keeps_bind_val _ (fun res => pushed res = false));
    [assumption | apply keeps_commitAndPush_nowhere
    | apply commitAndPush_nowhere |].
  intros res ->. cbn [negb]. keeps_go.
Qed.

Lemma keeps_reportReworkError e :
  keeps (within (buildPolicy k)) (reportReworkError env cfg k e).
Proof. keeps_start (buildPolicy k). keeps_go. Qed.

Lemma keeps_reportImplementationError e :
  keeps (within (buildPolicy k)) (reportImplementationError env cfg k e).
Proof. keeps_start (buildPolicy k). keeps_go. Qed.

Lemma keeps_implementationChain ts :
  keeps (within (buildPolicy k)) (implementationChain env cfg k ts).
Proof.
  keeps_start (buildPolicy k). unfold implementationChain.
  apply keeps_bind; [assumption | keeps_go | intros _].
  apply keeps_bind; [assumption | keeps_go | intros _].
  apply keeps_bind; [assumption | keeps_go | intros info]. cbv zeta.
  apply keeps_bind; [assumption | keeps_go | intros result].
  destruct (negb (success result)); [keeps_go |].
  apply (keeps_bind_val _ (fun res => pushed res = false));
    [assumption | apply keeps_commitAndPush_nowhere
    | apply commitAndPush_nowhere |].
  intros res ->. cbn [negb]. keeps_go.
Qed.

End Building.

(** ** The final merge *)

Lemma keeps_mergeChain env cfg k :
  keeps (within (mergePolicy k)) (mergeChain env cfg k).
Proof. keeps_start (mergePolicy k). unfold mergeChain. keeps_go. Qed.

Lemma keeps_reportMergeError env k e :
  keeps (within (mergePolicy k)) (reportMergeError env k e).
Proof. keeps_start (mergePolicy k). keeps_go. Qed.
(** ** Weakening a policy *)

Lemma within_weaken (p q : Policy) w w' :
  (forall c, okJira p c -> okJira q c) ->
  (forall c, okGitHub p c -> okGitHub q c) ->
  (forall c, okGit p c -> okGit q c) ->
  (forall c, okAgent p c -> okAgent q c) ->
  (forall c, okWrite p c -> okWrite q c) ->
  (forall s s', okMarks p s s' -> okMarks q s s') ->
  within p w w' -> within q w w'.
Proof.
  intros HJ HG HT HA HD HM (J & G & T & A & D & M & K & N).
  unfold within. repeat split; eauto using grown_weaken.
Qed.

Lemma keeps_weaken (R R' : World -> World -> Prop) {A} (m : M A) :
  (forall w w', R w w' -> R' w w') -> keeps R m -> keeps R' m.
Proof.
  intros H Hm w. specialize (Hm w). destruct (m w) as [[a | e |] w']; auto.
Qed.

(** ** The mark of a handler

    A handler marks its key, runs its [try] block and unmarks the key in
    [finally]: the marks come back to what they were. *)

Lemma unmark_marked (k : string) (s : gset string) :
  k ∉ s -> ({[k]} ∪ s) ∖ {[k]} = s.
Proof.
  intros H. apply set_eq. intros x.
  rewrite elem_of_difference, elem_of_union, !elem_of_singleton. split.
  - intros [[-> | Hx] Hn]; [contradiction | exact Hx].
  - intros Hx. split; [right; exact Hx | intros ->; contradiction].
Qed.

Lemma marked_finally (pol : Policy) (k : string) (body fin : M unit) w :
  (forall s s', okMarks pol s s' <-> s' = s) ->
  keeps (within pol) body -> keeps (within pol) fin -> returns fin ->
  k ∉ processing w ->
  match tryFinally body (fin ;;; processingDelete k) (marked k w) with
  | (Diverge, _) => True
  | (_, w') => within pol w w'
  end.
Proof.
  intros Hm Hb Hf Hr Hk. unfold tryFinally.
  specialize (Hb (marked k w)).
  assert (Hend : forall w1, within pol (marked k w) w1 ->
            exists w2, (fin ;;; processingDelete k) w1 = (Ok tt, w2) /\
                       within pol w w2).
  { intros w1 (J & G & T & A & D & M & K & N). unfold bind.
    specialize (Hf w1). destruct (Hr w1) as ([] & w2 & E). rewrite E in *.
    destruct Hf as (J2 & G2 & T2 & A2 & D2 & M2 & K2 & N2).
    eexists. split; [reflexivity |].
    unfold within.
    cbn [marked tick now db dbLog processing jiraLog githubLog agentLog
         activeWorktrees stagingLock gitLog set_processing] in *.
    repeat split; try (eapply grown_trans; eassumption); try lia.
    apply Hm. apply Hm in M, M2. rewrite M2, M. apply unmark_marked, Hk. }
  destruct (body (marked k w)) as [[[] | e |] w1]; auto;
    destruct (Hend w1 Hb) as (w2 & E & H); rewrite E; exact H.
Qed.

Lemma returns_ret {A} (a : A) : returns (ret a).
Proof. intros w. eexists _, _. reflexivity. Qed.

(** The same with nothing but the unmarking in [finally]. *)
Lemma marked_finally_plain (pol : Policy) (k : string) (body : M unit) w :
  (forall s s', okMarks pol s s' <-> s' = s) ->
  keeps (within pol) body -> k ∉ processing w ->
  match tryFinally body (processingDelete k) (marked k w) with
  | (Diverge, _) => True
  | (_, w') => within pol w w'
  end.
Proof.
  intros Hm Hb Hk.
  change (processingDelete k) with (ret tt ;;; processingDelete k).
  apply marked_finally; auto.
  - apply keeps_ret. intros w0. apply within_refl. intros s. apply Hm. reflexivity.
  - apply returns_ret.
Qed.

Lemma sameMarks_iff s s' : sameMarks s s' <-> s' = s.
Proof. reflexivity. Qed.
(** ** The handlers end *)

Lemma steady_upsert_keyed k p : steady keyed (upsertTask k p).
Proof.
  intros w _. pose proof (upsertTask_run k p w) as H.
  destruct (upsertTask k p w) as [[[] | e |] w']; try tauto.
  - destruct H as (HL & _ & Hne & r & Hr & Hk & _).
    split; [exact I |]. split; [exact HL |].
    intros Hwk j r' Hj. destruct (decide (j = k)) as [-> | Hjk].
    + assert (r' = r) as -> by congruence. rewrite Hk.
      destruct (db w !! k) as [r0 |] eqn:E; [apply Hwk; exact E | reflexivity].
    + rewrite Hne in Hj by exact Hjk. apply Hwk; exact Hj.
  - subst w'. split; [exact I |]. split; [reflexivity | intros H'; exact H'].
Qed.

Lemma steady_delete_keyed k : steady keyed (deleteTask k).
Proof.
  intros w _. unfold deleteTask, modW. split; [exact I |].
  split; [reflexivity |]. intros Hwk j r Hj. cbn [db set_db] in Hj.
  apply lookup_delete_Some in Hj as [_ Hj]. apply Hwk, Hj.
Qed.

Ltac keyed_leaf :=
  first [ apply steady_upsert_keyed | apply steady_delete_keyed
        | apply sound_upsert_keyed
        | apply steady_sound; first [ apply steady_upsert_keyed
                                    | apply steady_delete_keyed ] ].

Lemma steady_handleNewTask_keyed env cfg k s d c :
  steady keyed (handleNewTask env cfg k s d c).
Proof. orch_with keyed_leaf. Qed.

Lemma steady_handleMerge_keyed env cfg k : steady keyed (handleMerge env cfg k).
Proof. orch_with keyed_leaf. Qed.

Lemma steady_handleImplementation_keyed env cfg k :
  steady keyed (handleImplementation env cfg k).
Proof. orch_with keyed_leaf. Qed.

Lemma steady_handleTestFeedback_keyed env cfg k fb :
  steady keyed (handleTestFeedback env cfg k fb).
Proof. orch_with keyed_leaf. Qed.

Lemma steady_replan_keyed env cfg k text ts :
  steady keyed (tryFinally (replanChain env cfg k text ts) (processingDelete k)).
Proof. orch_with keyed_leaf. Qed.

(** Whatever a computation that ends keeps, it has done. *)
Lemma keeps_steady R Q {A} (m : M A) w :
  keeps R m -> steady Q m ->
  let '(r, w') := m w in r <> Diverge /\ R w w'.
Proof.
  intros HK HS. specialize (HK w). specialize (HS w I).
  destruct (m w) as [[a | e |] w']; try tauto; split; auto; discriminate.
Qed.

(** ** The handlers, with their mark *)

Lemma keeps_handleNewTask env cfg k s d c :
  keeps (within (newTaskPolicy k)) (handleNewTask env cfg k s d c).
Proof.
  keeps_start (newTaskPolicy k).
  intros w. unfold handleNewTask.
  unfold bind at 1. unfold isProcessing, getW.
  destruct (bool_decide (k ∈ processing w)) eqn:E; [apply Hrefl |].
  apply bool_decide_eq_false in E.
  unfold bind at 1. unfold getTask, getW.
  destruct (match db w !! k with Some _ => _ | None => _ end); [apply Hrefl |].
  unfold bind at 1. unfold processingAdd, modW. fold (marked k w).
  apply marked_finally_plain; [apply sameMarks_iff | | exact E].
  apply keeps_tryCatch; [assumption | apply keeps_planChain |].
  intros e; apply keeps_reportPlanningError.
Qed.

Lemma keeps_replan env cfg k text ts w :
  k ∉ processing w ->
  match tryFinally (replanChain env cfg k text ts) (processingDelete k)
                   (marked k w) with
  | (Diverge, _) => True
  | (_, w') => within (planPolicy k) w w'
  end.
Proof.
  intros E. apply marked_finally_plain; [apply sameMarks_iff | | exact E].
  apply keeps_replanChain.
Qed.
Lemma keeps_handleMerge env cfg k :
  keeps (within (mergePolicy k)) (handleMerge env cfg k).
Proof.
  keeps_start (mergePolicy k).
  intros w. unfold handleMerge. cbv zeta.
  unfold bind at 1. unfold isProcessing, getW.
  destruct (bool_decide (_ ∈ processing w)) eqn:E; [apply Hrefl |].
  apply bool_decide_eq_false in E.
  unfold bind at 1. unfold processingAdd, modW.
  fold (marked ("merge-" ++ k)%string w).
  apply marked_finally_plain; [apply sameMarks_iff | | exact E].
  apply keeps_tryCatch; [assumption | apply keeps_mergeChain |].
  intros e; apply keeps_reportMergeError.
Qed.

Lemma handleImplementation_within env cfg k w ts :
  db w !! k = Some ts ->
  match handleImplementation env cfg k w with
  | (Diverge, _) => True
  | (_, w') => within (buildPolicy k) w w'
  end.
Proof.
  intros Hdb.
  keeps_start (buildPolicy k).
  unfold handleImplementation.
  unfold bind at 1. unfold isProcessing, getW.
  destruct (bool_decide (k ∈ processing w)) eqn:E; [apply Hrefl |].
  apply bool_decide_eq_false in E.
  unfold bind at 1. unfold processingAdd, modW. fold (marked k w).
  unfold bind at 1. unfold getTask, getW.
  replace (db (marked k w) !! k) with (Some ts) by (symmetry; exact Hdb).
  apply marked_finally; [apply sameMarks_iff | | | apply returns_cleanup | exact E].
  - apply keeps_tryCatch; [assumption | apply keeps_implementationChain |].
    intros e; apply keeps_reportImplementationError.
  - apply keeps_cleanup.
Qed.

Lemma handleTestFeedback_within env cfg k fb w :
  match handleTestFeedback env cfg k fb w with
  | (Diverge, _) => True
  | (_, w') => within (buildPolicy k) w w'
  end.
Proof.
  keeps_start (buildPolicy k).
  unfold handleTestFeedback.
  unfold bind at 1. unfold isProcessing, getW.
  destruct (bool_decide (k ∈ processing w)) eqn:E; [apply Hrefl |].
  apply bool_decide_eq_false in E.
  unfold bind at 1. unfold getTask, getW.
  destruct (db w !! k) as [ts |] eqn:Hdb; [| apply Hrefl].
  destruct (branch_name ts) as [b |] eqn:Hb; [| apply Hrefl].
  destruct (negb (JsString.truthy b)); [apply Hrefl |].
  unfold bind at 1. unfold processingAdd, modW. fold (marked k w).
  apply marked_finally; [apply sameMarks_iff | | | apply returns_cleanup | exact E].
  - apply keeps_tryCatch; [assumption | apply keeps_reworkChain |].
    intros e; apply keeps_reportReworkError.
  - apply keeps_cleanup.
Qed.

(** * Names of branches and worktrees *)

Lemma isSlugChar_no_dash c : JsString.isSlugChar c = true -> isDash c = false.
Proof.
  intros H. unfold isDash. destruct (Ascii.eqb_spec c "-") as [-> |]; [| reflexivity].
  discriminate H.
Qed.

Lemma collapse_shape b s :
  allChars slugOrDash (JsString.collapse b s) = true /\
  noDoubleDash (JsString.collapse b s) = true /\
  (b = true -> startsWithDash (JsString.collapse b s) = false).
Proof.
  revert b; induction s as [| c r IH]; intros b; [simpl; auto |].
  simpl. destruct (JsString.isSlugChar c) eqn:Ec.
  - destruct (IH false) as (A & D & _). simpl. unfold slugOrDash at 1.
    rewrite Ec, A, D, (isSlugChar_no_dash c Ec). auto.
  - destruct b.
    + destruct (IH true) as (A & D & S). auto.
    + destruct (IH true) as (A & D & S). simpl. rewrite A, D, (S eq_refl).
      repeat split; auto.
Qed.

Lemma dropLeadingDash_cases s :
  (exists r, s = String "-" r /\ JsString.dropLeadingDash s = r) \/
  (startsWithDash s = false /\ JsString.dropLeadingDash s = s).
Proof.
  destruct s as [| c r]; [right; auto |].
  destruct (Ascii.eqb_spec c "-") as [-> | Hc].
  - left. exists r. auto.
  - right. split; [simpl; unfold isDash; apply Ascii.eqb_neq, Hc |].
    destruct c as [[] [] [] [] [] [] [] []]; try reflexivity. destruct Hc; reflexivity.
Qed.

Lemma dropTrailingDash_S c c' r :
  JsString.dropTrailingDash (String c (String c' r)) =
  String c (JsString.dropTrailingDash (String c' r)).
Proof. reflexivity. Qed.

Lemma dropTrailingDash_starts s :
  startsWithDash (JsString.dropTrailingDash s) = true -> startsWithDash s = true.
Proof.
  destruct s as [| c [| c' r]]; [auto | | auto].
  simpl. change (Ascii.eqb c "-") with (isDash c).
  destruct (isDash c) eqn:E; simpl; [discriminate | rewrite E; auto].
Qed.

Lemma noDoubleDash_String c r :
  noDoubleDash (String c r) =
  negb (isDash c && startsWithDash r) && noDoubleDash r.
Proof. reflexivity. Qed.

Lemma allChars_String P c r : allChars P (String c r) = P c && allChars P r.
Proof. reflexivity. Qed.

Lemma dropTrailingDash_chars P s :
  allChars P s = true -> allChars P (JsString.dropTrailingDash s) = true.
Proof.
  induction s as [| c r IH]; intros A; [reflexivity |].
  simpl in A. apply andb_prop in A as [A1 A2].
  destruct r as [| c' r'].
  - simpl. destruct (Ascii.eqb c "-"); simpl; [reflexivity | rewrite A1; reflexivity].
  - rewrite dropTrailingDash_S, allChars_String, A1. apply IH, A2.
Qed.

Lemma noDoubleDash_cons c r r' :
  (startsWithDash r' = true -> startsWithDash r = true) ->
  negb (isDash c && startsWithDash r) = true ->
  negb (isDash c && startsWithDash r') = true.
Proof.
  intros H. destruct (isDash c); simpl; [| auto].
  destruct (startsWithDash r'); [rewrite H; auto | auto].
Qed.

Lemma dropTrailingDash_double s :
  noDoubleDash s = true -> noDoubleDash (JsString.dropTrailingDash s) = true.
Proof.
  induction s as [| c r IH]; intros D; [reflexivity |].
  simpl in D. apply andb_prop in D as [D1 D2].
  destruct r as [| c' r'].
  - simpl. destruct (Ascii.eqb c "-"); simpl; [reflexivity |].
    rewrite andb_false_r. reflexivity.
  - rewrite dropTrailingDash_S, noDoubleDash_String.
    rewrite (IH D2), andb_true_r.
    eapply noDoubleDash_cons; [apply dropTrailingDash_starts | exact D1].
Qed.

Lemma take_starts n s :
  startsWithDash (JsString.take n s) = true -> startsWithDash s = true.
Proof. destruct n, s; simpl; auto; discriminate. Qed.

Lemma take_chars P n s :
  allChars P s = true -> allChars P (JsString.take n s) = true.
Proof.
  revert s; induction n as [| n IH]; intros [| c r] A; simpl; auto.
  simpl in A. apply andb_prop in A as [A1 A2]. rewrite A1. apply IH, A2.
Qed.

Lemma take_double n s :
  noDoubleDash s = true -> noDoubleDash (JsString.take n s) = true.
Proof.
  revert s; induction n as [| n IH]; intros [| c r] D; simpl; auto.
  simpl in D. apply andb_prop in D as [D1 D2]. rewrite (IH r D2), andb_true_r.
  eapply noDoubleDash_cons; [apply take_starts | exact D1].
Qed.

Lemma take_length n s : (String.length (JsString.take n s) <= n)%nat.
Proof.
  revert s; induction n as [| n IH]; intros [| c r]; simpl; try lia.
  specialize (IH r). lia.
Qed.

Lemma slashesToDashes_chars s :
  allChars (fun c => negb (Ascii.eqb c "/")) (JsString.slashesToDashes s) = true.
Proof.
  induction s as [| c r IH]; [reflexivity |]. simpl. rewrite IH, andb_true_r.
  destruct (Ascii.eqb_spec c "/") as [-> | Hc]; [reflexivity |].
  apply negb_true_iff, Ascii.eqb_neq, Hc.
Qed.

(** XSLUG.  The slug [createBranch] derives from a summary is at most 40
    characters long, holds only the characters [a-z], [0-9] and the dash,
    never two dashes in a row, and does not start with a dash; and the
    directory name derived from a branch name holds no slash, so the
    worktree sits directly under the worktree base. *)
Theorem slug_shape (summary branch : string) :
  (String.length (slug summary) <= 40)%nat /\
  allChars slugOrDash (slug summary) = true /\
  noDoubleDash (slug summary) = true /\
  startsWithDash (slug summary) = false /\
  allChars (fun c => negb (Ascii.eqb c "/")) (JsString.slashesToDashes branch)
    = true.
Proof.
  unfold slug.
  destruct (collapse_shape false (JsString.toLowerCase summary)) as (A & D & _).
  set (s0 := JsString.collapse false (JsString.toLowerCase summary)) in *.
  assert (H1 : allChars slugOrDash (JsString.dropLeadingDash s0) = true /\
               noDoubleDash (JsString.dropLeadingDash s0) = true /\
               startsWithDash (JsString.dropLeadingDash s0) = false).
  { destruct (dropLeadingDash_cases s0) as [(r & E & ->) | (S & ->)]; [| auto].
    rewrite E, allChars_String in A. rewrite E, noDoubleDash_String in D.
    apply andb_prop in A as [_ A]. apply andb_prop in D as [D1 D2].
    change (isDash "-") with true in D1. rewrite andb_true_l in D1.
    apply negb_true_iff in D1. auto. }
  destruct H1 as (A1 & D1 & S1).
  set (s1 := JsString.dropLeadingDash s0) in *.
  split; [apply take_length |].
  split; [apply take_chars, dropTrailingDash_chars, A1 |].
  split; [apply take_double, dropTrailingDash_double, D1 |].
  split; [| apply slashesToDashes_chars].
  destruct (startsWithDash (JsString.take 40 (JsString.dropTrailingDash s1))) eqn:E;
    [| reflexivity].
  apply take_starts, dropTrailingDash_starts in E. congruence.
Qed.

(** * The task table *)

Lemma rows_of_table (m : gmap string TaskRow) r :
  wellKeyed m ->
  r ∈ (snd <$> map_to_list m) <-> m !! issue_key r = Some r.
Proof.
  intros Hm. rewrite list_elem_of_fmap. split.
  - intros ([j r'] & -> & Hin). apply elem_of_map_to_list in Hin.
    simpl. rewrite (Hm j r' Hin). exact Hin.
  - intros H. exists (issue_key r, r). split; [reflexivity |].
    apply elem_of_map_to_list, H.
Qed.

Lemma keys_of_table (m : gmap string TaskRow) :
  wellKeyed m -> issue_key <$> (snd <$> map_to_list m) = fst <$> map_to_list m.
Proof.
  intros Hm. rewrite <- list_fmap_compose. apply list_fmap_ext.
  intros i [j r] Hi. simpl. apply Hm. apply elem_of_map_to_list.
  eapply list_elem_of_lookup_2. exact Hi.
Qed.

(** XPHASES.  In a table whose rows sit under their own keys,
    [getTasksByPhase ph] returns exactly the tracked rows in phase [ph],
    each once (no two rows of the answer have the same key), and every row
    of [getAllTasks] is in the answer for its own phase and for no other. *)
Theorem getTasksByPhase_exact (w : World) (ph : TaskPhase) :
  wellKeyed (db w) ->
  exists rows,
    getTasksByPhase ph w = (Ok rows, w) /\
    NoDup (issue_key <$> rows) /\
    (forall r, r ∈ rows <-> db w !! issue_key r = Some r /\ phase r = ph) /\
    (forall all, getAllTasks w = (Ok all, w) ->
       forall r, r ∈ all -> (r ∈ rows <-> phase r = ph)).
Proof.
  intros Hm. eexists. split; [reflexivity |].
  split; [| split].
  - eapply sublist_NoDup; [| apply fmap_sublist, sublist_filter].
    rewrite (keys_of_table _ Hm). apply NoDup_fst_map_to_list.
  - intros r. rewrite list_elem_of_filter, (rows_of_table _ r Hm). tauto.
  - intros all E r Hr. unfold getAllTasks, getW in E. inversion E; subst all.
    rewrite list_elem_of_filter. tauto.
Qed.

Lemma getTasksByPhase_exact_witness :
  let w := worldWith (proj1Row PlanPosted) in
  wellKeyed (db w) /\
  exists rows,
    getTasksByPhase PlanPosted w = (Ok rows, w) /\
    NoDup (issue_key <$> rows) /\
    (forall r, r ∈ rows <-> db w !! issue_key r = Some r /\ phase r = PlanPosted) /\
    (forall all, getAllTasks w = (Ok all, w) ->
       forall r, r ∈ all -> (r ∈ rows <-> phase r = PlanPosted)).
Proof.
  split; [apply wellKeyed_worldWith |].
  exact (getTasksByPhase_exact (worldWith (proj1Row PlanPosted)) PlanPosted
           (wellKeyed_worldWith _)).
Defined.

(** XSTATE.  Laws of the task table, for a table whose rows sit under
    their own keys.
    - [upsertTask] with data for a column the table lacks
      ([worktree_path], [creator_account_id]) throws and changes nothing.
    - [upsertTask] on a tracked key, with data for columns of the table
      only, does not throw: the row read back under the key carries the
      key, every value the data gave, the old value of what the data left
      out, the old creation time and the current time as update time;
      every other row is as it was.
    - [upsertTask] on a key that is not tracked, with data that holds no
      phase, throws and changes nothing.
    - After [deleteTask] the key is not tracked and every other row is as
      it was; deleting a key that is not tracked changes no row. *)
Theorem task_table_laws (w : World) (k : string) (p : TaskPatch) :
  wellKeyed (db w) ->
  (forall column, unknownColumn p = Some column ->
     upsertTask k p w = (Throw (SqlNoColumn column), w)) /\
  (forall old, db w !! k = Some old -> unknownColumn p = None ->
     exists w' row,
       upsertTask k p w = (Ok tt, w') /\ wellKeyed (db w') /\
       getTask k w' = (Ok (Some row), w') /\
       (forall j, j <> k -> getTask j w' = (Ok (db w !! j), w')) /\
       issue_key row = k /\
       created_at row = created_at old /\ updated_at row = now w /\
       phase row = JsString.nullish (p_phase p) (phase old) /\
       plan row = JsString.nullish (p_plan p) (plan old) /\
       branch_name row = JsString.nullish (p_branch_name p) (branch_name old) /\
       pr_number row = JsString.nullish (p_pr_number p) (pr_number old) /\
       session_id row = JsString.nullish (p_session_id p) (session_id old) /\
       cost_usd row = JsString.nullish (p_cost_usd p) (cost_usd old) /\
       plan_posted_at row =
         JsString.nullish (p_plan_posted_at p) (plan_posted_at old) /\
       last_feedback_check row =
         JsString.nullish (p_last_feedback_check p) (last_feedback_check old)) /\
  (db w !! k = None -> p_phase p = None ->
     exists e, upsertTask k p w = (Throw e, w)) /\
  (let '(r, w') := deleteTask k w in
   r = Ok tt /\ wellKeyed (db w') /\
   getTask k w' = (Ok None, w') /\
   (forall j, j <> k -> getTask j w' = (Ok (db w !! j), w')) /\
   (db w !! k = None -> db w' = db w)).
Proof.
  intros Hm. split; [| split; [| split]].
  - intros column E. unfold upsertTask. rewrite E. reflexivity.
  - intros old E Hc. unfold upsertTask, getTask, getW. rewrite Hc, E.
    eexists _, _. split; [reflexivity |]. cbn [db set_db]. split.
    { intros j r Hj. apply lookup_insert_Some in Hj as [[<- <-] | [_ Hj]];
        [apply (Hm _ _ E) | apply (Hm _ _ Hj)]. }
    rewrite lookup_insert_eq. split; [reflexivity |].
    split; [intros j Hj; rewrite lookup_insert_ne by auto; reflexivity |].
    split; [apply (Hm _ _ E) |].
    repeat split.
  - intros E Hp. unfold upsertTask, insertRow. rewrite E, Hp.
    destruct (unknownColumn p); eauto.
  - unfold deleteTask, modW, getTask, getW. cbn [db set_db].
    split; [reflexivity |]. split.
    { intros j r Hj. apply lookup_delete_Some in Hj as [_ Hj]. apply (Hm _ _ Hj). }
    split; [rewrite lookup_delete_eq; reflexivity |].
    split; [intros j Hj; rewrite lookup_delete_ne by auto; reflexivity |].
    intros H. apply delete_id, H.
Qed.

Lemma task_table_laws_witness :
  let w := worldWith (proj1Row PlanPosted) in
  wellKeyed (db w) /\
  getTask "PROJ-1" (deleteTask "PROJ-1" w).2
    = (Ok None, (deleteTask "PROJ-1" w).2).
Proof.
  split; [apply wellKeyed_worldWith |].
  pose proof (proj2 (proj2 (proj2 (task_table_laws
                                     (worldWith (proj1Row PlanPosted))
                                     "PROJ-1" noPatch
                                     (wellKeyed_worldWith _))))) as H.
  cbv beta iota zeta delta [deleteTask modW] in H.
  exact (proj1 (proj2 (proj2 H))).
Defined.

(** * Errors and retries *)

(** XCLASSIFY.  The two classifiers of [errors.ts] on the same thrown
    object: [isTransientError] accepts it exactly when [classifyError]
    answers [transient] or the message mentions "network" (which
    [classifyError] does not look for).  A retry status (429, 502, 503,
    504) makes an object transient whatever its message says.  A thrown
    function is classified by its properties like an object but is never
    accepted by [isTransientError]; a primitive is [permanent] and not
    transient. *)
Theorem classifiers_compared (e : ErrorFields) :
  isTransientError (ThrownObject e) =
    (match classifyError (ThrownObject e) with Transient => true | _ => false end
     || stringIncludes (JsString.nullish (e_message e) "") "network") /\
  (if retryStatus (statusOr (statusOr (e_status e) (e_responseStatus e))
                            (e_statusCode e))
   then classifyError (ThrownObject e) = Transient else True) /\
  classifyError (ThrownFunction e) = classifyError (ThrownObject e) /\
  isTransientError (ThrownFunction e) = false /\
  classifyError ThrownPrimitive = Permanent /\
  isTransientError ThrownPrimitive = false.
Proof.
  split; [| split; [| repeat split]].
  - unfold isTransientError, classifyError. cbn [fieldsOf]. cbv zeta.
    destruct (retryStatus _); [reflexivity |].
    set (msg := JsString.nullish (e_message e) "").
    destruct (stringIncludes msg "ECONNRESET"); [reflexivity |].
    destruct (stringIncludes msg "ETIMEDOUT"); [reflexivity |].
    destruct (stringIncludes msg "ENOTFOUND"); [reflexivity |].
    destruct (stringIncludes msg "socket hang up"); [reflexivity |].
    cbn [orb].
    destruct (stringIncludes (JsString.toLowerCase msg) "merge conflict"
              || stringIncludes msg "CONFLICT"); [reflexivity |].
    destruct (stringIncludes msg "budget" || stringIncludes msg "max_turns"
              || stringIncludes msg "Budget exceeded"); reflexivity.
  - unfold classifyError. cbn [fieldsOf]. cbv zeta.
    destruct (retryStatus _); [reflexivity | exact I].
Qed.

(** ** [withRetry] *)

Section RetryFacts.

Variable env : Env.
Variable random : nat -> Q.
Variable A : Type.
Variable fn : M A.
Variable o : RetryOptions.

Lemma retryPause_run a w :
  retryPause env random o a w = (Ok tt, pauseWorld env random o a w).
Proof. reflexivity. Qed.

Lemma retryLoop_tries left :
  forall a w,
    (0 < left)%nat -> (a + Z.of_nat left - 1 = maxAttempts o)%Z ->
    exists n,
      (1 <= n <= left)%nat /\
      Tries fn (retryableCheck o) (pauseWorld env random o) a n w
            (retryLoop env random A fn o left a w).1
            (retryLoop env random A fn o left a w).2 /\
      match (retryLoop env random A fn o left a w).1 with
      | Throw e => n = left \/ retryableCheck o e = false
      | _ => True
      end.
Proof.
  induction left as [| left IH]; intros a w Hl Ha; [lia |].
  cbn [retryLoop]. unfold tryCatch.
  destruct (fn w) as [[v | e |] w1] eqn:E.
  - exists 1%nat. split; [lia |]. split; [constructor; exact E | exact I].
  - destruct ((a =? maxAttempts o)%Z) eqn:Ea.
    + apply Z.eqb_eq in Ea. assert (left = 0%nat) by lia. subst left.
      exists 1%nat. split; [lia |]. cbn. split; [constructor; exact E | auto].
    + apply Z.eqb_neq in Ea. cbn [orb].
      destruct (retryableCheck o e) eqn:Ec; cbn [negb].
      * unfold bind. rewrite retryPause_run.
        destruct (IH (a + 1)%Z (pauseWorld env random o a w1) ltac:(lia) ltac:(lia))
          as (n & Hn & HT & Hr).
        exists (S n). split; [lia |].
        split; [eapply tries_more; eauto |].
        destruct (retryLoop env random A fn o left (a + 1) (pauseWorld env random o a w1)).1;
          auto. destruct Hr; [left; lia | right; assumption].
      * exists 1%nat. split; [lia |]. cbn.
        split; [constructor; exact E | right; exact Ec].
  - exists 1%nat. split; [lia |]. split; [constructor; exact E | exact I].
Qed.

End RetryFacts.

(** XRETRY.  [withRetry] with at least one attempt allowed calls [fn] at
    least once and at most [maxAttempts] times.  Every call but the last
    threw an error the check accepts and was followed by a pause; the
    outcome is that of the last call; and when that outcome is an error
    thrown before the attempts ran out, the check refused it.  With no
    attempt allowed ([maxAttempts <= 0]) [fn] is not called at all and the
    "Unreachable" error is thrown. *)
Theorem withRetry_attempts env random A (fn : M A) (o : RetryOptions) w :
  let '(r, w') := withRetry env random A fn o w in
  if (1 <=? maxAttempts o)%Z then
    exists n,
      (1 <= n)%nat /\ (Z.of_nat n <= maxAttempts o)%Z /\
      Tries fn (retryableCheck o) (pauseWorld env random o) 1 n w r w' /\
      match r with
      | Throw e => Z.of_nat n = maxAttempts o \/ retryableCheck o e = false
      | _ => True
      end
  else r = Throw (External "Unreachable") /\ w' = w.
Proof.
  unfold withRetry.
  destruct (1 <=? maxAttempts o)%Z eqn:E.
  - apply Z.leb_le in E.
    destruct (retryLoop_tries env random A fn o (Z.to_nat (maxAttempts o)) 1 w
                ltac:(lia) ltac:(lia)) as (n & Hn & HT & Hr).
    destruct (retryLoop env random A fn o (Z.to_nat (maxAttempts o)) 1 w) as [r w'].
    simpl in *. exists n. split; [lia |]. split; [lia |]. split; [exact HT |].
    destruct r; auto. destruct Hr; [left; lia | right; assumption].
  - apply Z.leb_gt in E. replace (Z.to_nat (maxAttempts o)) with 0%nat by lia.
    simpl. auto.
Qed.

Lemma jitter_bounds (delay : Z) (r : Q) :
  (0 <= r)%Q -> (r < 1)%Q -> (0 <= delay)%Z ->
  (inject_Z delay * (1 # 2) <= jitter delay r)%Q /\
  (jitter delay r <= inject_Z delay)%Q.
Proof.
  intros H0 H1 Hd. unfold jitter.
  assert (HD : (0 <= inject_Z delay)%Q).
  { change 0%Q with (inject_Z 0). rewrite <- Zle_Qle. exact Hd. }
  split; nra.
Qed.

Lemma jitter_negative (delay : Z) (r : Q) :
  (0 <= r)%Q -> (r < 1)%Q -> (delay < 0)%Z -> (jitter delay r < 0)%Q.
Proof.
  intros H0 H1 Hd. unfold jitter.
  assert (HD : (inject_Z delay < 0)%Q).
  { change 0%Q with (inject_Z 0). rewrite <- Zlt_Qlt. exact Hd. }
  nra.
Qed.

Lemma half_floor (d : Z) : (inject_Z (d / 2) <= inject_Z d * (1 # 2))%Q.
Proof.
  unfold Qle, Qmult, inject_Z. simpl. 
  pose proof (Z.mul_div_le d 2 ltac:(lia)). lia.
Qed.

(** XBACKOFF.  The pause [withRetry] makes after attempt [a], beyond the
    latency of the timer itself: it lasts at least one millisecond and at
    most [min(baseDelayMs * 2^(a-1), maxDelayMs)] (or one millisecond when
    that is smaller), so never more than [maxDelayMs] for a positive
    [maxDelayMs]; and it lasts at least half of that bound when the bound
    is between 2 and [2^31 - 1]. *)
Theorem retry_pause_bounds env random (o : RetryOptions) (a : Z) (w : World) :
  (0 <= random (tick w))%Q -> (random (tick w) < 1)%Q ->
  let waited :=
    (now (pauseWorld env random o a w) - now w
     - Z.of_nat (latency env (tick w)))%Z in
  (1 <= waited)%Z /\
  (waited <= Z.max 1 (backoff o a))%Z /\
  (backoff o a <= maxDelayMs o)%Z /\
  ((2 <= backoff o a)%Z -> (backoff o a <= 2147483647)%Z ->
   (backoff o a / 2 <= waited)%Z).
Proof.
  intros H0 H1. cbv zeta.
  unfold pauseWorld, retryPause, bind, getW, sleep. cbn [snd now set_clock].
  set (d := backoff o a). set (r := random (tick w)) in *.
  replace (now w + timerDelay (jitter d r) + Z.of_nat (latency env (tick w))
           - now w - Z.of_nat (latency env (tick w)))%Z
    with (timerDelay (jitter d r)) by lia.
  assert (Hmax : (d <= maxDelayMs o)%Z) by (subst d; unfold backoff; lia).
  unfold timerDelay.
  destruct (Qle_bool 1 (jitter d r)) eqn:E1;
    [destruct (Qle_bool (jitter d r) 2147483647) eqn:E2 |]; cbn [andb].
  - apply Qle_bool_iff in E1, E2.
    assert (Hd : (0 <= d)%Z).
    { destruct (Z_lt_le_dec d 0) as [Hn |]; [| assumption].
      pose proof (jitter_negative d r H0 H1 Hn). lra. }
    destruct (jitter_bounds d r H0 H1 Hd) as [Hlo Hhi].
    pose proof (Qfloor_resp_le _ _ E1) as F1.
    change (Qfloor 1) with 1%Z in F1.
    pose proof (Qfloor_resp_le _ _ Hhi) as F2. rewrite Qfloor_Z in F2.
    split; [exact F1 |]. split; [lia |]. split; [exact Hmax |].
    intros _ _.
    pose proof (Qfloor_resp_le _ _ (Qle_trans _ _ _ (half_floor d) Hlo)) as F3.
    rewrite Qfloor_Z in F3. exact F3.
  - split; [lia |]. split; [lia |]. split; [exact Hmax |].
    intros L U. exfalso.
    destruct (jitter_bounds d r H0 H1 ltac:(lia)) as [Hlo Hhi].
    assert (Hq : (jitter d r <= 2147483647)%Q).
    { eapply Qle_trans; [exact Hhi |].
      change 2147483647%Q with (inject_Z 2147483647). rewrite <- Zle_Qle. exact U. }
    apply Qle_bool_iff in Hq. congruence.
  - split; [lia |]. split; [lia |]. split; [exact Hmax |].
    intros L U. exfalso.
    destruct (jitter_bounds d r H0 H1 ltac:(lia)) as [Hlo Hhi].
    assert (Hq : (1 <= jitter d r)%Q).
    { eapply Qle_trans; [| exact Hlo].
      eapply Qle_trans; [| apply half_floor].
      change 1%Q with (inject_Z 1). rewrite <- Zle_Qle.
      apply Z.div_le_lower_bound; lia. }
    apply Qle_bool_iff in Hq. congruence.
Qed.

Lemma retry_pause_bounds_witness :
  let o := defaultRetry (fun _ => true) in
  let random := fun _ : nat => (1 # 2)%Q in
  (0 <= random (tick emptyWorld))%Q /\ (random (tick emptyWorld) < 1)%Q /\
  let waited :=
    (now (pauseWorld calmEnv random o 2 emptyWorld) - now emptyWorld
     - Z.of_nat (latency calmEnv (tick emptyWorld)))%Z in
  (1 <= waited)%Z /\ (waited <= Z.max 1 (backoff o 2))%Z.
Proof.
  cbv zeta.
  assert (H0 : (0 <= (fun _ : nat => (1 # 2)%Q) (tick emptyWorld))%Q)
    by (cbv; discriminate).
  assert (H1 : ((fun _ : nat => (1 # 2)%Q) (tick emptyWorld) < 1)%Q)
    by (cbv; reflexivity).
  split; [exact H0 |]. split; [exact H1 |].
  pose proof (retry_pause_bounds calmEnv (fun _ : nat => (1 # 2)%Q)
                (defaultRetry (fun _ => true)) 2 emptyWorld H0 H1) as H.
  cbv zeta in H. split; [exact (proj1 H) | exact (proj1 (proj2 H))].
Defined.

(** * The agent wrapper: what the result holds *)

Lemma last_omap_cons {A B} (f : A -> option B) x l :
  last (omap f (x :: l)) =
  match last (omap f l) with
  | Some y => Some y
  | None => f x
  end.
Proof.
  change (omap f (x :: l))
    with (match f x with Some y => y :: omap f l | None => omap f l end).
  destruct (f x) as [y |]; [rewrite last_cons |];
    destruct (last (omap f l)); reflexivity.
Qed.

Lemma fold_onEvent es :
  forall out sid cost,
    fold_left (fun a e => onEvent e a) es (out, sid, cost) =
    (default out (last (omap eventText es)),
     orElse (last (omap eventSession es)) sid,
     default cost (last (omap eventCost es))).
Proof.
  induction es as [| e es IH]; intros out sid cost; [reflexivity |].
  cbn [fold_left]. rewrite !last_omap_cons.
  destruct e as [s | [blocks |] | s c1 c2 [t |] |]; cbn [onEvent];
    rewrite IH; cbn [eventText eventSession eventCost];
    unfold JsString.orNull;
    repeat match goal with
           | |- context [JsString.truthy ?x] => destruct (JsString.truthy x)
           | |- context [last ?l] => destruct (last l)
           | s : option string |- _ => destruct s
           end; reflexivity.
Qed.

(** XCONSUME.  What [runClaudeSDK] does, in terms of the events of the run
    up to its end or its failure.  The run is started in the directory
    passed, or in the repository when none is passed.  When the iteration
    throws [null] or [undefined] the call throws.  Otherwise it returns a
    result: [success] tells whether the conversation ended normally; the
    error is the message of what was thrown; the output is the text of the
    last event that carried one (a non-empty assistant turn or a non-empty
    result text; turns are not accumulated), or empty; the session id is
    the last one announced by a system or result event; the cost is what
    the last result event reported, [null] when that event reported none or
    when there was no result event. *)
Theorem runClaudeSDK_result (env : Env) (cfg : Config) (mode : AgentMode)
    (dir resume : option string) (w : World) :
  let c := conversation env (tick w) in
  let es := events c in
  let '(r, w') := runClaudeSDK env cfg mode dir resume w in
  agentLog w'
  = agentLog w ++ [mkAgentCall mode (JsString.nullish dir (repoPath cfg)) resume] /\
  match ending c with
  | Some RaisedNullish => r = Throw ReadOfNullish
  | stopped =>
      exists res,
        r = Ok res /\
        success res = bool_decide (stopped = None) /\
        error res = match stopped with
                    | Some (RaisedValue message) => message
                    | _ => None
                    end /\
        output res = default "" (last (omap eventText es)) /\
        sessionId res = last (omap eventSession es) /\
        costUsd res = default None (last (omap eventCost es))
  end.
Proof.
  cbv zeta. unfold runClaudeSDK, bind, interact, modW. cbn [fst snd].
  rewrite iterate_spec. unfold initialAcc. rewrite fold_onEvent.
  assert (Hs : orElse (last (omap eventSession
                               (events (conversation env (tick w))))) None
               = last (omap eventSession (events (conversation env (tick w)))))
    by (destruct (last _); reflexivity).
  destruct (ending _) as [[| message] |]; cbn; (split; [reflexivity |]);
    try reflexivity; eexists; (split; [reflexivity |]); cbn;
    rewrite Hs; repeat split.
Qed.

(** * Worktrees and pushes *)

(** XBRANCH.  [createBranch] makes five interactions: it prepares the
    worktree base, removes a stale worktree, fetches the default branch,
    deletes a stale branch and adds the worktree.  It returns exactly when
    the first, the third and the fifth succeed, whatever the two removals
    of stale state do: then it returns the branch [claude/k-slug] and its
    worktree path, has registered that path for [k], and its last git
    command is the successful [worktree add].  Otherwise it throws and the
    registered worktrees are as they were.  [prepareReworkWorktree] behaves
    the same way for an existing branch. *)
Theorem createBranch_outcomes env cfg k s b w :
  let branch := ("claude/" ++ k ++ "-" ++ slug s)%string in
  let path := (worktreeBase cfg ++ "/" ++ JsString.slashesToDashes branch)%string in
  let pathOf := (worktreeBase cfg ++ "/" ++ JsString.slashesToDashes b)%string in
  let needed :=
    match fails env (tick w), fails env (S (S (tick w))),
          fails env (S (S (S (S (tick w))))) with
    | None, None, None => true
    | _, _, _ => false
    end in
  (let '(r, w') := createBranch env cfg k s w in
   if needed then
     r = Ok (mkBranchInfo branch path) /\
     activeWorktrees w' = <[k := path]> (activeWorktrees w) /\
     last (gitLog w') =
       Some (mkGitRun (repoPath cfg)
               (WorktreeAdd path branch (defaultBranch cfg)) true)
   else (exists e, r = Throw e) /\ activeWorktrees w' = activeWorktrees w) /\
  (let '(r, w') := prepareReworkWorktree env cfg k b w in
   if needed then
     r = Ok pathOf /\
     activeWorktrees w' = <[k := pathOf]> (activeWorktrees w) /\
     last (gitLog w') =
       Some (mkGitRun (repoPath cfg) (WorktreeAdd pathOf b b) true)
   else (exists e, r = Throw e) /\ activeWorktrees w' = activeWorktrees w).
Proof.
  cbv zeta. split.
  - unfold createBranch. cbv zeta. run_defs.
    repeat fork; world_simpl; rewrite ?last_snoc;
      first [ split; [eexists; reflexivity | reflexivity]
            | split; [reflexivity | split; reflexivity] ].
  - unfold prepareReworkWorktree. run_defs.
    repeat fork; world_simpl; rewrite ?last_snoc;
      first [ split; [eexists; reflexivity | reflexivity]
            | split; [reflexivity | split; reflexivity] ].
Qed.

(** XPUSH.  The common body of [pushChanges], [pushRework] and
    [pushBuildFix], whose last command is a push; its git commands run in
    the worktree passed, or in the directory of the process when none is
    passed.  With a clean tree it runs [status] only and returns
    [pushed: false] with its reason.  It returns [pushed: true] only when a
    worktree path was passed, after [status], [add], [commit] and the push
    have all run there, in this order, and all succeeded.  When it throws,
    no push has succeeded; and without a worktree path, once [status] and
    [add] have succeeded, what is thrown is the error of [join]. *)
Theorem commitAndPush_outcomes env wt push why w :
  isPush push = true ->
  let dir := JsString.nullish wt processCwd in
  let '(r, w') := commitAndPush env wt push why w in
  let runs := newRuns w w' in
  match r with
  | Ok res =>
      if pushed res then
        wt = Some dir /\
        runs = [mkGitRun dir StatusPorcelain true; mkGitRun dir AddAll true;
                mkGitRun dir (CommitF (dir ++ "/.git-commit-msg")) true;
                mkGitRun dir push true] /\
        reason res = None /\ gitDirty env (tick w) = true
      else
        runs = [mkGitRun dir StatusPorcelain true] /\
        reason res = Some why /\ gitDirty env (tick w) = false
  | Throw e =>
      (forall run, run ∈ runs -> cmd run = push -> ok run = false) /\
      (wt = None ->
       runs = [mkGitRun dir StatusPorcelain true; mkGitRun dir AddAll true] ->
       e = PathNotString)
  | Diverge => False
  end.
Proof.
  intros Hp. cbv zeta. unfold commitAndPush. run_defs. unfold newRuns.
  set (dir := JsString.nullish wt processCwd).
  assert (Hno : forall c o, isPush c = false -> cmd (mkGitRun dir c o) = push ->
                            ok (mkGitRun dir c o) = false).
  { intros c o Hc E. simpl in E. subst c. congruence. }
  fork.
  { world_simpl. rewrite drop_app_length. split; [| discriminate].
    intros run Hr _. apply list_elem_of_singleton in Hr. subst run.
    exact eq_refl. }
  destruct (gitDirty env (tick w)) eqn:Hd; cbn [negb]; world_simpl.
  2: { rewrite drop_app_length. repeat split; reflexivity. }
  fork.
  { world_simpl. rewrite <- ?app_assoc, ?drop_app_length; simpl app.
    split; [| discriminate].
    intros run Hin; rewrite list_elem_of_In in Hin; simpl in Hin;
      repeat (destruct Hin as [<- | Hin];
              [first [reflexivity | apply Hno; reflexivity] |]);
      destruct Hin. }
  destruct wt as [path |]; subst dir; cbn [JsString.nullish]; world_simpl.
  - repeat fork; world_simpl; rewrite <- ?app_assoc, ?drop_app_length; simpl app.
    all: try (split; [reflexivity |]; split; [reflexivity |];
              split; [reflexivity | reflexivity]).
    all: split; [| discriminate].
    all: intros run Hin; rewrite list_elem_of_In in Hin; simpl in Hin;
      repeat (destruct Hin as [<- | Hin];
              [first [reflexivity | apply Hno; reflexivity] |]);
      destruct Hin.
  - rewrite <- ?app_assoc, ?drop_app_length; simpl app.
    split; [| reflexivity].
    intros run Hin; rewrite list_elem_of_In in Hin; simpl in Hin;
      repeat (destruct Hin as [<- | Hin];
              [first [reflexivity | apply Hno; reflexivity] |]);
      destruct Hin.
Qed.

Lemma commitAndPush_outcomes_witness :
  isPush (PushU proj1Branch) = true /\
  (let '(r, w') := commitAndPush calmEnv (Some proj1Worktree) (PushU proj1Branch)
                     "No changes made" emptyWorld in
   exists res, r = Ok res /\ pushed res = true) /\
  (commitAndPush calmEnv None (PushU proj1Branch) "No changes made"
                 emptyWorld).1 = Throw PathNotString.
Proof.
  split; [reflexivity |]. split.
  - pose proof (commitAndPush_outcomes calmEnv (Some proj1Worktree)
                  (PushU proj1Branch) "No changes made" emptyWorld eq_refl) as H.
    cbv zeta in H.
    destruct (commitAndPush calmEnv (Some proj1Worktree) (PushU proj1Branch)
                "No changes made" emptyWorld) as [[res | e |] w'] eqn:E.
    + exists res. split; [reflexivity |].
      destruct (pushed res); [reflexivity |].
      destruct H as (_ & _ & Hd). vm_compute in Hd. discriminate Hd.
    + vm_compute in E. discriminate E.
    + destruct H.
  - pose proof (commitAndPush_outcomes calmEnv None (PushU proj1Branch)
                  "No changes made" emptyWorld eq_refl) as H.
    cbv zeta in H.
    destruct (commitAndPush calmEnv None (PushU proj1Branch)
                "No changes made" emptyWorld) as [[res | e |] w'] eqn:E.
    + vm_compute in E. discriminate E.
    + destruct H as [_ H]. rewrite (H eq_refl); [reflexivity |].
      apply (f_equal snd) in E. cbn [snd] in E. rewrite <- E.
      vm_compute. reflexivity.
    + destruct H.
Defined.

(** XSTAGING.  [mergeIntoStaging], started with the staging lock free,
    never returns [false]: it returns [true] or throws.  When it returns,
    its last three git commands are the merge of [origin/b], the push of
    [staging] and the checkout of the default branch, all successful.  A
    push of [staging] is attempted only after the merge succeeded.  The
    branch [staging] is created from the default branch only after the
    fetch, the checkout or the pull of [staging] failed. *)
Theorem mergeIntoStaging_paths env cfg b w :
  unlocked w ->
  let '(r, w') := mergeIntoStaging env cfg b w in
  let runs := newRuns w w' in
  let run c o := mkGitRun (repoPath cfg) c o in
  match r with
  | Ok v =>
      v = true /\
      exists pre,
        runs = pre ++ [run (MergeNoEdit b) true; run (PushU "staging") true;
                       run (Checkout (defaultBranch cfg)) true]
  | Throw _ => True
  | Diverge => False
  end /\
  (forall o, run (PushU "staging") o ∈ runs -> run (MergeNoEdit b) true ∈ runs) /\
  (forall o, run (CheckoutNew "staging") o ∈ runs ->
     run (Fetch "staging") false ∈ runs \/
     run (Checkout "staging") false ∈ runs \/
     run (Pull "staging") false ∈ runs).
Proof.
  intros Hw. unfold mergeIntoStaging. rewrite Hw.
  run_defs.
  repeat fork.
  all: cbv zeta; unfold newRuns; world_simpl;
    rewrite <- ?app_assoc, drop_app_length; simpl app.
  all: split;
    [ first [ exact I
            | split; [reflexivity |];
              first [ eexists [_; _; _; _]; reflexivity
                    | eexists [_; _; _; _; _]; reflexivity
                    | eexists [_; _; _; _; _; _]; reflexivity
                    | eexists [_; _; _; _; _; _; _]; reflexivity ] ] |].
  all: split; intros o Hin; rewrite ?list_elem_of_In in *; simpl in *;
    repeat (destruct Hin as [Hin | Hin]; [try discriminate Hin |]);
    try destruct Hin; tauto.
Qed.

Lemma mergeIntoStaging_paths_witness :
  unlocked emptyWorld /\
  (mergeIntoStaging calmEnv baseCfg proj1Branch emptyWorld).1 = Ok true.
Proof.
  split; [reflexivity |].
  pose proof (mergeIntoStaging_paths calmEnv baseCfg proj1Branch emptyWorld
                eq_refl) as H.
  destruct (mergeIntoStaging calmEnv baseCfg proj1Branch emptyWorld)
    as [[v | e |] w'] eqn:E.
  - destruct H as [[-> _] _]. reflexivity.
  - vm_compute in E. discriminate E.
  - destruct H as [[] _].
Defined.

(** * The answer of the planning run *)

Lemma startsWith_empty s : JsString.startsWith s "" = true.
Proof. destruct s; reflexivity. Qed.

Lemma startsWith_app p s : JsString.startsWith (p ++ s)%string p = true.
Proof.
  induction p as [| c p IH]; [apply startsWith_empty |].
  simpl. rewrite Ascii.eqb_refl. exact IH.
Qed.

Lemma startsWith_inv s p :
  JsString.startsWith s p = true -> exists t, s = (p ++ t)%string.
Proof.
  revert s. induction p as [| c p IH]; intros s H.
  - exists s. reflexivity.
  - destruct s as [| d s]; [discriminate |]. simpl in H.
    destruct (Ascii.eqb c d) eqn:E; [| discriminate].
    apply Ascii.eqb_eq in E as ->. destruct (IH s H) as (t & ->).
    exists t. reflexivity.
Qed.

Lemma allChars_app P a b :
  allChars P (a ++ b)%string = allChars P a && allChars P b.
Proof.
  induction a as [| c a IH]; [reflexivity |]. simpl. rewrite IH.
  apply andb_assoc.
Qed.

Lemma startsWith_foreign P s p :
  allChars P s = true -> allChars P p = false ->
  JsString.startsWith s p = false.
Proof.
  intros Hs Hp. destruct (JsString.startsWith s p) eqn:E; [| reflexivity].
  apply startsWith_inv in E as (t & ->).
  rewrite allChars_app, Hp in Hs. discriminate.
Qed.

Lemma indexOf_foreign P s d :
  allChars P s = true -> allChars P d = false -> indexOf s d = None.
Proof.
  intros Hs Hd. induction s as [| c r IH].
  - destruct d; [discriminate Hd | reflexivity].
  - cbn [indexOf]. rewrite (startsWith_foreign P _ d Hs Hd).
    simpl in Hs. apply andb_prop in Hs as [_ Hr]. rewrite (IH Hr).
    reflexivity.
Qed.

(** Characters that are not the first character of [d] are passed. *)
Lemma indexOf_skip a s c d :
  allChars (fun x => negb (Ascii.eqb x c)) a = true ->
  indexOf (a ++ s)%string (String c d)
  = (fun i => (String.length a + i)%nat) <$> indexOf s (String c d).
Proof.
  intros Ha. induction a as [| x a IH].
  - change ("" ++ s)%string with s.
    destruct (indexOf s (String c d)); reflexivity.
  - simpl in Ha. apply andb_prop in Ha as [Hx Ha].
    change (String x a ++ s)%string with (String x (a ++ s)%string).
    cbn [indexOf JsString.startsWith].
    rewrite Ascii.eqb_sym. apply negb_true_iff in Hx. rewrite Hx.
    rewrite (IH Ha). destruct (indexOf s (String c d)); reflexivity.
Qed.

Lemma indexOf_found a d b : indexOf (a ++ d ++ b)%string d <> None.
Proof.
  induction a as [| x a IH].
  - change ("" ++ d ++ b)%string with (d ++ b)%string.
    destruct (d ++ b)%string eqn:E; cbn [indexOf];
      rewrite <- ?E, startsWith_app; discriminate.
  - change (String x a ++ d ++ b)%string with (String x (a ++ d ++ b)%string).
    cbn [indexOf]. destruct (JsString.startsWith _ d); [discriminate |].
    destruct (indexOf (a ++ d ++ b)%string d); [discriminate | congruence].
Qed.

Lemma take_app a b : JsString.take (String.length a) (a ++ b)%string = a.
Proof.
  induction a as [| c a IH]; [reflexivity |].
  change (String c a ++ b)%string with (String c (a ++ b)%string).
  cbn [String.length JsString.take]. rewrite IH. reflexivity.
Qed.

Lemma substring_app a b :
  JsString.substring (String.length a) (a ++ b)%string = b.
Proof.
  induction a as [| c a IH]; [reflexivity |].
  change (String c a ++ b)%string with (String c (a ++ b)%string).
  cbn [String.length JsString.substring]. exact IH.
Qed.

Lemma substring_add n m s :
  JsString.substring (n + m) s = JsString.substring m (JsString.substring n s).
Proof.
  revert s. induction n as [| n IH]; intros s; [reflexivity |].
  destruct s as [| c s]; simpl; [destruct m; reflexivity | apply IH].
Qed.

(** XPLANPARSE.  How the answer of a planning run is read.  When the
    questions marker occurs anywhere in it, the answer counts as questions
    and no plan is kept, even if a plan comes before the marker.  An
    answer in the format asked for, a plan and a summary without equals
    sign on either side of the plan marker, is split into the plan and the
    summary, both trimmed.  An answer without equals sign is both the plan
    and the summary. *)
Theorem parsePlanResult_formats (r : ClaudeResult) :
  pr_result (parsePlanResult r) = r /\
  (forall a b,
     output r = (a ++ QUESTIONS_DELIMITER ++ b)%string ->
     hasQuestions (parsePlanResult r) = true /\
     technicalPlan (parsePlanResult r) = "" /\
     functionalSummary (parsePlanResult r) = "" /\
     (allChars notEquals a = true ->
      questions (parsePlanResult r) = JsString.trim b)) /\
  (forall plan summary,
     output r = (plan ++ PLAN_DELIMITER ++ summary)%string ->
     allChars notEquals plan = true -> allChars notEquals summary = true ->
     parsePlanResult r
     = mkPlanResult r (JsString.trim plan) (JsString.trim summary) false "") /\
  (allChars notEquals (output r) = true ->
   parsePlanResult r = mkPlanResult r (output r) (output r) false "").
Proof.
  split; [| split; [| split]].
  - unfold parsePlanResult.
    destruct (indexOf _ QUESTIONS_DELIMITER); [reflexivity |].
    destruct (indexOf _ PLAN_DELIMITER); reflexivity.
  - intros a b E. unfold parsePlanResult. rewrite E.
    pose proof (indexOf_found a QUESTIONS_DELIMITER b) as Hf.
    destruct (indexOf _ QUESTIONS_DELIMITER) as [i |] eqn:Hi; [| congruence].
    repeat split. intros Ha. cbv zeta. cbn [questions]. f_equal.
    unfold QUESTIONS_DELIMITER in Hi at 2.
    rewrite (indexOf_skip a _ "=" _ Ha) in Hi.
    change (String "=" "==QUESTIONS===") with QUESTIONS_DELIMITER in Hi.
    assert (H0 : indexOf (QUESTIONS_DELIMITER ++ b)%string QUESTIONS_DELIMITER
                 = Some O).
    { unfold indexOf.
      destruct (QUESTIONS_DELIMITER ++ b)%string eqn:Eq;
        rewrite <- ?Eq, startsWith_app; reflexivity. }
    rewrite H0 in Hi. injection Hi as <-. rewrite Nat.add_0_r.
    rewrite substring_add, substring_app.
    apply (substring_app QUESTIONS_DELIMITER b).
  - intros plan summary E Hp Hs. unfold parsePlanResult. rewrite E.
    assert (HQ : indexOf (plan ++ PLAN_DELIMITER ++ summary)%string
                         QUESTIONS_DELIMITER = None).
    { unfold QUESTIONS_DELIMITER at 1.
      rewrite (indexOf_skip plan _ "=" _ Hp).
      change (String "=" "==QUESTIONS===") with QUESTIONS_DELIMITER.
      unfold PLAN_DELIMITER, QUESTIONS_DELIMITER.
      cbv [String.append].
      cbn [indexOf JsString.startsWith Ascii.eqb Bool.eqb].
      rewrite (startsWith_foreign notEquals summary "QUESTIONS===" Hs eq_refl).
      rewrite (startsWith_foreign notEquals summary "=QUESTIONS===" Hs eq_refl).
      rewrite (startsWith_foreign notEquals summary "==QUESTIONS===" Hs eq_refl).
      rewrite (indexOf_foreign notEquals summary "===QUESTIONS===" Hs eq_refl).
      reflexivity. }
    rewrite HQ.
    assert (HP : indexOf (plan ++ PLAN_DELIMITER ++ summary)%string
                         PLAN_DELIMITER = Some (String.length plan)).
    { unfold PLAN_DELIMITER at 2.
      rewrite (indexOf_skip plan _ "=" _ Hp).
      change (String "=" "==FUNCTIONAL SUMMARY===") with PLAN_DELIMITER.
      assert (H0 : indexOf (PLAN_DELIMITER ++ summary)%string PLAN_DELIMITER
                   = Some O).
      { unfold indexOf.
        destruct (PLAN_DELIMITER ++ summary)%string eqn:Eq;
          rewrite <- ?Eq, startsWith_app; reflexivity. }
      rewrite H0. simpl. rewrite Nat.add_0_r. reflexivity. }
    rewrite HP. cbv zeta.
    rewrite take_app, substring_add, substring_app.
    rewrite (substring_app PLAN_DELIMITER summary). reflexivity.
  - intros H. unfold parsePlanResult.
    rewrite (indexOf_foreign notEquals _ QUESTIONS_DELIMITER H eq_refl).
    rewrite (indexOf_foreign notEquals _ PLAN_DELIMITER H eq_refl).
    reflexivity.
Qed.
